(** * pp-downloader: playlist ingestion, state store, validator and scheduler

    A shallow embedding of the Go sources

      - [internal/database]   (the SQLite-backed state store),
      - [internal/validator]  (the missing-file cleanup),
      - [internal/downloader] (playlist ingestion),
      - [cmd/pp-downloader]   (the adaptive polling interval),

    followed by the properties established about them.

    Conventions.  Go strings are byte strings and are modelled by [string]
    (one [ascii] per byte).  Instants ([time.Time]) are integers counting
    nanoseconds since the Unix epoch; [time.Duration] is a signed 64-bit count
    of nanoseconds.  Everything outside the process (yt-dlp, the file system,
    failures of the SQL driver) is an explicit oracle. *)

From Stdlib Require Import ZArith List String Ascii Bool Lia.
Import ListNotations.

Open Scope string_scope.
Open Scope Z_scope.

(* ================================================================== *)
(** ** The parts of Go's [strings] package used by the program *)
(* ================================================================== *)

Module strings.

(** [strings.HasPrefix(s, prefix)]. *)
Fixpoint HasPrefix (s prefix : string) {struct prefix} : bool :=
  match prefix, s with
  | EmptyString, _ => true
  | String _ _, EmptyString => false
  | String a prefix', String b s' => Ascii.eqb a b && HasPrefix s' prefix'
  end.

(** [strings.Contains(s, substr)]: [substr] occurs at some offset of [s]. *)
Fixpoint Contains (s substr : string) : bool :=
  HasPrefix s substr
  || match s with
     | EmptyString => false
     | String _ s' => Contains s' substr
     end.

(** [s[n:]], clipped at the end of [s]. *)
Fixpoint drop (n : nat) (s : string) : string :=
  match n, s with
  | O, _ => s
  | S _, EmptyString => EmptyString
  | S n', String _ s' => drop n' s'
  end.

(** [strings.Cut(s, sep)]: the text before and after the first (leftmost)
    occurrence of [sep], or [None] when [sep] does not occur. *)
Fixpoint Cut (s sep : string) : option (string * string) :=
  if HasPrefix s sep then Some (EmptyString, drop (String.length sep) s)
  else match s with
       | EmptyString => None
       | String c s' =>
           match Cut s' sep with
           | Some (before, after) => Some (String c before, after)
           | None => None
           end
       end.

(** The loop of [genSplit]: cut at the leftmost [sep], keep the text
    before it, go on with the text after it.  [n] bounds the number of
    cuts; [Split] passes a bound that is never reached. *)
Fixpoint genSplit (n : nat) (s sep : string) : list string :=
  match n with
  | O => [s]
  | S n' =>
      match Cut s sep with
      | None => [s]
      | Some (before, after) => before :: genSplit n' after sep
      end
  end.

(** [strings.Split(s, sep)] for a non-empty [sep] (the program never
    splits on the empty string): all pieces between the non-overlapping
    occurrences of [sep], leftmost first. *)
Definition Split (s sep : string) : list string :=
  genSplit (String.length s) s sep.

(** Strings from byte values. *)
Fixpoint bytes (l : list nat) : string :=
  match l with
  | nil => EmptyString
  | b :: l' => String (ascii_of_nat b) (bytes l')
  end.

Fixpoint rev_append (s acc : string) : string :=
  match s with
  | EmptyString => acc
  | String c s' => rev_append s' (String c acc)
  end.

Definition rev (s : string) : string := rev_append s EmptyString.

(** The UTF-8 encodings of the runes for which [unicode.IsSpace] holds:
    tab, line feed, vertical tab, form feed, carriage return, space,
    U+0085, U+00A0, U+1680, U+2000..U+200A, U+2028, U+2029, U+202F,
    U+205F and U+3000. *)
Definition space_runes : list string :=
  map bytes
    (List.app
       [[9]; [10]; [11]; [12]; [13]; [32];
        [194; 133]; [194; 160]; [225; 154; 128]]
       (List.app
          (map (fun k => [226; 128; k])
               [128; 129; 130; 131; 132; 133; 134; 135; 136; 137; 138])
          [[226; 128; 168]; [226; 128; 169]; [226; 128; 175];
           [226; 129; 159]; [227; 128; 128]]))%nat.

(** Remove one leading rune of [runes], if [s] starts with one. *)
Fixpoint strip_one (runes : list string) (s : string) : option string :=
  match runes with
  | nil => None
  | r :: runes' =>
      if HasPrefix s r then Some (drop (String.length r) s)
      else strip_one runes' s
  end.

Fixpoint trim_left (n : nat) (runes : list string) (s : string) : string :=
  match n with
  | O => s
  | S n' =>
      match strip_one runes s with
      | Some s' => trim_left n' runes s'
      | None => s
      end
  end.

Definition TrimLeftSpace (s : string) : string :=
  trim_left (String.length s) space_runes s.

(** Trailing runes are recognised on the reversed string. *)
Definition TrimRightSpace (s : string) : string :=
  rev (trim_left (String.length s) (map rev space_runes) (rev s)).

(** [strings.TrimSpace(s)]. *)
Definition TrimSpace (s : string) : string :=
  TrimRightSpace (TrimLeftSpace s).

(** The search of [strings.Index], with the offset reached so far. *)
Fixpoint index_from (s substr : string) (i : Z) : Z :=
  if HasPrefix s substr then i
  else match s with
       | EmptyString => -1
       | String _ s' => index_from s' substr (i + 1)
       end.

(** [strings.Index(s, substr)]: the offset of the leftmost occurrence of
    [substr] in [s], or [-1]. *)
Definition Index (s substr : string) : Z := index_from s substr 0.

(** [s[:n]], for [n] up to the length of [s]. *)
Fixpoint take (n : nat) (s : string) : string :=
  match n, s with
  | O, _ => EmptyString
  | S _, EmptyString => EmptyString
  | S n', String c s' => String c (take n' s')
  end.

End strings.

(* ================================================================== *)
(** ** Instants and durations (Go's [time] package) *)
(* ================================================================== *)

Definition Time := Z.
Definition Duration := Z.

Module time.

Definition Nanosecond : Duration := 1.
Definition Second : Duration := 1000000000 * Nanosecond.
Definition Minute : Duration := 60 * Second.
Definition Hour : Duration := 60 * Minute.

Definition minDuration : Duration := - 2 ^ 63.
Definition maxDuration : Duration := 2 ^ 63 - 1.

(** [t.Sub(u)]: the difference [t - u], saturated to the range of
    [Duration] when it does not fit. *)
Definition Sub (t u : Time) : Duration :=
  let d := t - u in
  if d <? minDuration then minDuration
  else if maxDuration <? d then maxDuration
  else d.

(** Days between 1970-01-01 and the given civil date (proleptic
    Gregorian calendar). *)
Definition days_from_civil (year month day : Z) : Z :=
  let y := if month <=? 2 then year - 1 else year in
  let era := y / 400 in
  let yoe := y - era * 400 in
  let mp := if 2 <? month then month - 3 else month + 9 in
  let doy := (153 * mp + 2) / 5 + day - 1 in
  let doe := yoe * 365 + yoe / 4 - yoe / 100 + doy in
  era * 146097 + doe - 719468.

(** [time.Date(year, month, day, 0, 0, 0, 0, time.UTC)]. *)
Definition Date (year month day : Z) : Time :=
  days_from_civil year month day * 24 * Hour.

(** The zero value [time.Time{}]: January 1, year 1, 00:00 UTC. *)
Definition zero : Time := Date 1 1 1.

Definition isLeap (year : Z) : bool :=
  (year mod 4 =? 0) && (negb (year mod 100 =? 0) || (year mod 400 =? 0)).

Definition daysIn (month year : Z) : Z :=
  if month =? 2 then (if isLeap year then 29 else 28)
  else if (month =? 4) || (month =? 6) || (month =? 9) || (month =? 11)
       then 30 else 31.

Definition digit (c : ascii) : option Z :=
  let n := Z.of_nat (nat_of_ascii c) in
  if (48 <=? n) && (n <=? 57) then Some (n - 48) else None.

Fixpoint digits (s : string) : option (list Z) :=
  match s with
  | EmptyString => Some nil
  | String c s' =>
      match digit c, digits s' with
      | Some k, Some l => Some (k :: l)
      | _, _ => None
      end
  end.

(** [time.Parse("20060102", value)]: four digits of year, two of month,
    two of day and nothing else; the month and the day must exist. *)
Definition Parse_20060102 (value : string) : option Time :=
  match digits value with
  | Some [y1; y2; y3; y4; m1; m2; d1; d2] =>
      let year := 1000 * y1 + 100 * y2 + 10 * y3 + y4 in
      let month := 10 * m1 + m2 in
      let day := 10 * d1 + d2 in
      if (1 <=? month) && (month <=? 12)
         && (1 <=? day) && (day <=? daysIn month year)
      then Some (Date year month day)
      else None
  | _ => None
  end.

End time.

(* ================================================================== *)
(** ** Errors and the outside world *)
(* ================================================================== *)

(** One constructor per place where the program builds an error. *)
Inductive error : Type :=
| ErrInvalidPlaylistURL (url : string)   (* "invalid playlist URL: %s" *)
| ErrGetOrCreatePlaylist                 (* "failed to get or create playlist" *)
| ErrGetPlaylistVideos                   (* "failed to get playlist videos" *)
| ErrCreatePlaylist                      (* "failed to create playlist" *)
| ErrInsertVideo                         (* "failed to insert/update video" *)
| ErrCreateDirectory                     (* "failed to create playlist directory" *)
| ErrYtDlpDownload                       (* "yt-dlp download failed" *)
| ErrNoFilePath                          (* "could not find file path in yt-dlp output" *)
| ErrFileSize (path : string).           (* "failed to get file size for '%s'" *)

(** The three outcomes of [os.Stat] the program tells apart. *)
Inductive StatResult : Type :=
| StatOK (size : Z)      (* err == nil *)
| StatNotExist           (* os.IsNotExist(err) *)
| StatError.             (* any other error *)

(* ================================================================== *)
(** ** internal/database: the state store *)
(* ================================================================== *)

Module database.

(** [type VideoMetadata struct]. *)
Module VideoMetadata.
Record t : Type := Build {
  Title : string;
  Description : string;
  Channel : string;
  ChannelID : string;
  Duration : Z;
  ViewCount : Z;
  ThumbnailURL : string;
  UploadDate : Time;
  IsLive : bool;
  LiveStartTime : Time;
  LiveEndTime : Time;
  MetadataJSON : string
}.
End VideoMetadata.

(** [type Playlist struct]; a row of table [playlists] has the same
    columns ([sql.NullString] is [option string]). *)
Module Playlist.
Record t : Type := Build {
  ID : Z;
  YoutubeID : string;
  Title : string;
  Description : option string;
  Thumbnail : option string;
  Channel : option string;
  ChannelID : option string;
  VideoCount : Z;
  CreatedAt : Time;
  UpdatedAt : Time;
  LastChecked : Time
}.

Definition set_title (title : string) (now : Time) (p : t) : t :=
  Build (ID p) (YoutubeID p) title (Description p) (Thumbnail p)
        (Channel p) (ChannelID p) (VideoCount p) (CreatedAt p) now
        (LastChecked p).

Definition set_checked (count : Z) (now : Time) (p : t) : t :=
  Build (ID p) (YoutubeID p) (Title p) (Description p) (Thumbnail p)
        (Channel p) (ChannelID p) count (CreatedAt p) now now.
End Playlist.

(** A row of table [videos], under its column names.  The metadata
    columns are kept together in [meta]; the surrogate key [id] is left
    out, as no statement of the program reads it. *)
Module Video.
Record t : Type := Build {
  youtube_id : string;                 (* TEXT NOT NULL UNIQUE *)
  playlist_id : Z;                     (* REFERENCES playlists(id) *)
  playlist_title : string;
  meta : VideoMetadata.t;
  file_path : option string;           (* TEXT, may be NULL *)
  file_size : Z;
  file_checksum : option string;
  last_validated : option Time;        (* TIMESTAMP, may be NULL *)
  validation_status : string;          (* TEXT DEFAULT 'pending' *)
  downloaded_at : Time;
  created_at : Time;
  updated_at : Time
}.

(** [SET file_path = ?, file_size = ?, validation_status = 'valid',
    last_validated = CURRENT_TIMESTAMP, updated_at = CURRENT_TIMESTAMP]. *)
Definition set_file_info (path : string) (size : Z) (now : Time) (v : t) : t :=
  Build (youtube_id v) (playlist_id v) (playlist_title v) (meta v)
        (Some path) size (file_checksum v) (Some now) "valid"
        (downloaded_at v) (created_at v) now.

(** [SET validation_status = ?, last_validated = ?, updated_at = ?]. *)
Definition set_validation (status : string) (now : Time) (v : t) : t :=
  Build (youtube_id v) (playlist_id v) (playlist_title v) (meta v)
        (file_path v) (file_size v) (file_checksum v) (Some now) status
        (downloaded_at v) (created_at v) now.

(** The [DO UPDATE SET] clause of the upsert in [AddVideo]: every
    inserted column is overwritten by the excluded row [new], and
    [updated_at] is refreshed; the remaining columns stay. *)
Definition overwrite (new : t) (now : Time) (v : t) : t :=
  Build (youtube_id v) (playlist_id new) (playlist_title new) (meta new)
        (file_path new) (file_size new) (file_checksum v)
        (last_validated new) (validation_status new)
        (downloaded_at v) (created_at v) now.

(** [WHERE file_path IS NOT NULL AND file_path != '']: the path, if the
    row has one. *)
Definition located (v : t) : option string :=
  match file_path v with
  | Some path => if String.eqb path "" then None else Some path
  | None => None
  end.
End Video.

(** [type Database struct]: the contents of the two tables, and the
    last key handed out by [AUTOINCREMENT] for [playlists].

    Each operation below is one call on the store, as SQL on these
    tables.  It takes the instant [now] of the call, which stands for
    both [time.Now()] and SQLite's [CURRENT_TIMESTAMP] within the call.
    A transaction that is rolled back leaves the tables as they were, so
    only committed states appear.  Failures of the driver itself are
    not part of these functions; [downloader.Env] decides them where
    [ProcessPlaylist] handles them. *)
Record Database : Type := BuildDatabase {
  playlists : list Playlist.t;
  videos : list Video.t;
  playlists_seq : Z
}.

(** [NewDatabase] on a fresh file: the schema and no rows. *)
Definition NewDatabase : Database := BuildDatabase nil nil 0.

(** [UPDATE ... SET ... WHERE ...]: the table after the statement and
    the number of rows it changed. *)
Definition exec_update {row : Type} (where_ : row -> bool) (set : row -> row)
           (table : list row) : list row * Z :=
  (map (fun r => if where_ r then set r else r) table,
   Z.of_nat (List.length (filter where_ table))).

(** [DELETE FROM ... WHERE ...]. *)
Definition exec_delete {row : Type} (where_ : row -> bool)
           (table : list row) : list row * Z :=
  (filter (fun r => negb (where_ r)) table,
   Z.of_nat (List.length (filter where_ table))).

Definition by_youtube_id (youtubeID : string) (p : Playlist.t) : bool :=
  String.eqb (Playlist.YoutubeID p) youtubeID.

Definition video_is (youtubeID : string) (v : Video.t) : bool :=
  String.eqb (Video.youtube_id v) youtubeID.

(** [GetOrCreatePlaylist]: the row with this [youtube_id], as it is, or a
    freshly inserted one.  The title of an existing row is not touched. *)
Definition GetOrCreatePlaylist (d : Database) (now : Time)
           (youtubeID title : string) : Database * Playlist.t :=
  match find (by_youtube_id youtubeID) (playlists d) with
  | Some playlist => (d, playlist)
  | None =>
      let id := playlists_seq d + 1 in
      let playlist :=
        Playlist.Build id youtubeID title None None None None 0 now now now in
      (BuildDatabase (List.app (playlists d) [playlist]) (videos d) id,
       playlist)
  end.

(** [getOrCreatePlaylist(tx, youtubeID, title)], the variant that runs in
    the caller's transaction.  It refreshes the title of an existing
    row and then, having no [return] on that path, goes on to the
    [INSERT] in every case; [youtube_id] is [UNIQUE], so for an existing
    row the [INSERT] is refused.  The first component is the state of
    the transaction when the function returns. *)
Definition getOrCreatePlaylist (tx : Database) (now : Time)
           (youtubeID title : string) : Database * (error + Z) :=
  let tx1 :=
    match find (by_youtube_id youtubeID) (playlists tx) with
    | Some existing =>
        if negb (String.eqb (Playlist.Title existing) title)
        then BuildDatabase
               (fst (exec_update (fun p => Playlist.ID p =? Playlist.ID existing)
                                 (Playlist.set_title title now) (playlists tx)))
               (videos tx) (playlists_seq tx)
        else tx
    | None => tx
    end in
  if existsb (by_youtube_id youtubeID) (playlists tx1)
  then (tx1, inl ErrCreatePlaylist)
  else
    let id := playlists_seq tx1 + 1 in
    let playlist :=
      Playlist.Build id youtubeID title None None None None 0 now now now in
    (BuildDatabase (List.app (playlists tx1) [playlist]) (videos tx1) id,
     inr id).

(** [VideoExists]. *)
Definition VideoExists (d : Database) (youtubeID : string) : bool :=
  existsb (video_is youtubeID) (videos d).

(** [UpdateFileInfo]: one [UPDATE]; its result (the number of rows
    changed) is dropped, only the driver's error is returned, and a
    statement that matches no row is not an error. *)
Definition UpdateFileInfo (d : Database) (now : Time) (youtubeID filePath : string)
           (fileSize : Z) : Database * option error :=
  let (videos', _) :=
    exec_update (video_is youtubeID)
                (Video.set_file_info filePath fileSize now) (videos d) in
  (BuildDatabase (playlists d) videos' (playlists_seq d), None).

Definition status_of (r : StatResult) : string :=
  match r with
  | StatOK _ => "valid"
  | StatNotExist => "missing"
  | StatError => "error"
  end.

(** The [SELECT youtube_id, file_path ... WHERE file_path IS NOT NULL AND
    file_path != ''] of [ValidateFiles]. *)
Definition located_rows (table : list Video.t) : list (string * string) :=
  flat_map (fun v => match Video.located v with
                     | Some path => [(Video.youtube_id v, path)]
                     | None => nil
                     end) table.

(** The body of the loop of [ValidateFiles], on the table and the counter:
    the path of the row read is checked and the row with that
    [youtube_id] is updated. *)
Definition validate_row (stat : string -> StatResult) (now : Time)
           (acc : list Video.t * Z) (r : string * string) : list Video.t * Z :=
  let '(table, checked) := acc in
  let '(youtubeID, filePath) := r in
  let status := status_of (stat filePath) in
  (fst (exec_update (video_is youtubeID)
                    (Video.set_validation status now) table),
   checked + 1).

(** [ValidateFiles]: the rows that have a file path are read first; then
    the loop runs over them, with the one [now] taken before it. *)
Definition ValidateFiles (d : Database) (stat : string -> StatResult)
           (now : Time) : Database * Z :=
  let '(videos', checked) :=
    fold_left (validate_row stat now) (located_rows (videos d)) (videos d, 0) in
  (BuildDatabase (playlists d) videos' (playlists_seq d), checked).

Definition is_invalid_char (c : ascii) : bool :=
  existsb (Ascii.eqb c)
          ["<"; ">"; ":"; "034"; "/"; "\"; "|"; "?"; "*"]%char.

(** The class [\s] of Go's [regexp]: tab, line feed, form feed,
    carriage return and space. *)
Definition is_regexp_space (c : ascii) : bool :=
  existsb (Ascii.eqb c) ["009"; "010"; "012"; "013"; " "]%char.

Fixpoint remove_invalid (s : string) : string :=
  match s with
  | EmptyString => EmptyString
  | String c s' =>
      if is_invalid_char c then remove_invalid s'
      else String c (remove_invalid s')
  end.

(** Every maximal run of [\s] becomes one space; [in_run] tells that the
    previous byte belonged to a run. *)
Fixpoint collapse_spaces (in_run : bool) (s : string) : string :=
  match s with
  | EmptyString => EmptyString
  | String c s' =>
      if is_regexp_space c
      then if in_run then collapse_spaces true s'
           else String " " (collapse_spaces true s')
      else String c (collapse_spaces false s')
  end.

(** [sanitizeFilename]. *)
Definition sanitizeFilename (filename : string) : string :=
  let sanitized := remove_invalid filename in
  let sanitized := collapse_spaces false sanitized in
  strings.TrimSpace sanitized.

(** [SELECT COUNT( * ) FROM videos WHERE playlist_id = ?]. *)
Definition count_videos (playlistID : Z) (table : list Video.t) : Z :=
  Z.of_nat (List.length (filter (fun v => Video.playlist_id v =? playlistID) table)).

(** [AddVideo].  The playlist is looked up or created in a transaction
    of its own, committed before the video is written.  The upsert is
    refused when [playlist_id] names no playlist (the foreign key); the
    function's own transaction is then rolled back. *)
Definition AddVideo (d : Database) (now : Time)
           (youtubeID playlistYoutubeID playlistTitle : string)
           (metadata : VideoMetadata.t) : Database * option error :=
  let safeTitle := sanitizeFilename (VideoMetadata.Title metadata) in
  let filePath := ".music/" ++ safeTitle ++ " [" ++ youtubeID ++ "].mp3" in
  let (d1, playlist) := GetOrCreatePlaylist d now playlistYoutubeID playlistTitle in
  let new :=
    Video.Build youtubeID (Playlist.ID playlist) playlistTitle metadata
                (Some filePath) 0 None (Some now) "pending" now now now in
  if negb (existsb (fun p => Playlist.ID p =? Playlist.ID playlist) (playlists d1))
  then (d1, Some ErrInsertVideo)
  else
    let videos' :=
      if existsb (video_is youtubeID) (videos d1)
      then fst (exec_update (video_is youtubeID) (Video.overwrite new now) (videos d1))
      else List.app (videos d1) [new] in
    let playlists' :=
      fst (exec_update (fun p => Playlist.ID p =? Playlist.ID playlist)
                       (Playlist.set_checked
                          (count_videos (Playlist.ID playlist) videos') now)
                       (playlists d1)) in
    (BuildDatabase playlists' videos' (playlists_seq d1), None).

(** [GetLastChecked]: [last_checked] of the playlist, or the zero instant
    (and no error) when there is no such playlist. *)
Definition GetLastChecked (d : Database) (playlistYoutubeID : string)
  : Time * option error :=
  match find (by_youtube_id playlistYoutubeID) (playlists d) with
  | Some playlist => (Playlist.LastChecked playlist, None)
  | None => (time.zero, None)
  end.

End database.

(* ================================================================== *)
(** ** internal/validator *)
(* ================================================================== *)

Module validator.
Import database.

(** The [SELECT youtube_id, file_path ... WHERE file_path IS NOT NULL AND
    validation_status = 'missing'] of [CleanupMissingFiles]. *)
Definition missing_rows (table : list Video.t) : list (string * string) :=
  flat_map (fun v => match Video.file_path v with
                     | Some path =>
                         if String.eqb (Video.validation_status v) "missing"
                         then [(Video.youtube_id v, path)] else nil
                     | None => nil
                     end) table.

(** The body of the loop of [CleanupMissingFiles]: the path is checked
    once more and, when the file is still absent, the row with that
    [youtube_id] is deleted. *)
Definition cleanup_row (stat : string -> StatResult)
           (acc : list Video.t * Z) (r : string * string) : list Video.t * Z :=
  let '(table, deleted) := acc in
  let '(youtubeID, filePath) := r in
  match stat filePath with
  | StatNotExist => (fst (exec_delete (video_is youtubeID) table), deleted + 1)
  | _ => (table, deleted)
  end.

(** [CleanupMissingFiles].  Nothing but [videos] is written: no statement
    of the transaction touches the playlists table. *)
Definition CleanupMissingFiles (d : Database) (stat : string -> StatResult)
  : Database * Z :=
  let '(videos', deleted) :=
    fold_left (cleanup_row stat) (missing_rows (videos d)) (videos d, 0) in
  (BuildDatabase (playlists d) videos' (playlists_seq d), deleted).

End validator.

(* ================================================================== *)
(** ** internal/downloader: playlist ingestion *)
(* ================================================================== *)

Module downloader.
Import database.

(** [float64] values, as decoded from JSON, are exact binary fractions
    [(-1)^sign * mantissa * 2^exponent], an infinity or a NaN. *)
Inductive float64 : Type :=
| F64 (negative : bool) (mantissa : N) (exponent : Z)
| F64Inf (negative : bool)
| F64NaN.

(** The conversion [int(f)]: the fraction is discarded; a value outside
    the range of [int] converts to the smallest [int], which is what the
    conversion instruction of amd64 yields. *)
Definition int_of_float64 (f : float64) : Z :=
  match f with
  | F64 negative mantissa exponent =>
      let magnitude :=
        if 0 <=? exponent then Z.of_N mantissa * 2 ^ exponent
        else Z.of_N mantissa / 2 ^ (- exponent) in
      let value := if negative then - magnitude else magnitude in
      if (- 2 ^ 63 <=? value) && (value <=? 2 ^ 63 - 1) then value
      else - 2 ^ 63
  | _ => - 2 ^ 63
  end.

(** [type VideoInfo struct]. *)
Module VideoInfo.
Record t : Type := Build {
  ID : string;
  Title : string;
  Description : string;
  Duration : float64;
  Channel : string;
  ChannelID : string;
  PlaylistID : string;
  ViewCount : Z;
  Thumbnail : string;
  UploadDate : string;
  LiveStartTime : Time;
  LiveEndTime : Time;
  MetadataJSON : string
}.

Definition set_PlaylistID (playlistID : string) (v : t) : t :=
  Build (ID v) (Title v) (Description v) (Duration v) (Channel v)
        (ChannelID v) playlistID (ViewCount v) (Thumbnail v)
        (UploadDate v) (LiveStartTime v) (LiveEndTime v) (MetadataJSON v).
End VideoInfo.

(** The calls [ProcessPlaylist] makes on the store; each may fail in
    the SQL driver, in which case it changes nothing. *)
Inductive StoreOp : Type :=
| OpGetOrCreatePlaylist (youtubeID : string)
| OpVideoExists (youtubeID : string)
| OpAddVideo (youtubeID : string)
| OpUpdateFileInfo (youtubeID : string).

(** What one ingestion pass meets outside the process.  Within a pass
    the world answers a question the same way each time it is asked; two
    passes may run in different worlds. *)
Record Env : Type := BuildEnv {
  (** [yt-dlp --flat-playlist --dump-single-json <url>]: the [entries] of
      the JSON document, or [None] when the command fails, times out, or
      prints something that is not such a document. *)
  yt_dlp_dump_single_json : string -> option (list VideoInfo.t);
  (** [os.MkdirAll] of the playlist's directory below the output
      directory; [true] on success. *)
  os_MkdirAll : string -> string -> bool;
  (** [yt-dlp --extract-audio ...] for a video into the directory of the
      playlist (output directory, playlist name, video): the combined
      output, or [None] on a non-zero exit. *)
  yt_dlp_extract_audio : string -> string -> string -> option string;
  os_Stat : string -> StatResult;
  (** Whether the SQL driver fails the given call. *)
  driver_fails : StoreOp -> bool;
  (** The instant at which the given call runs. *)
  now_at : StoreOp -> Time
}.

(** [type Downloader struct], without the unused YouTube client and
    the store, which is threaded separately. *)
Record Downloader : Type := BuildDownloader {
  ffmpegPath : string;
  outputDir : string
}.

(** [extractPlaylistID]. *)
Definition extractPlaylistID (url : string) : string :=
  if negb (strings.Contains url "youtube.com")
     && negb (strings.Contains url "youtu.be")
  then url
  else
    if strings.Contains url "list="
    then
      let parts := strings.Split url "list=" in
      if (1 <? List.length parts)%nat
      then
        let id := nth 0 (strings.Split (nth 1 parts "") "&") "" in
        if negb (String.eqb id "") then id else url
      else url
    else url.

(** [getPlaylistVideos]: the entries with a non-empty identifier, each
    stamped with the playlist's identifier. *)
Definition getPlaylistVideos (env : Env) (playlistURL : string)
  : error + list VideoInfo.t :=
  match yt_dlp_dump_single_json env playlistURL with
  | None => inl ErrGetPlaylistVideos
  | Some entries =>
      let playlistID := extractPlaylistID playlistURL in
      inr (flat_map
             (fun entry =>
                if String.eqb (VideoInfo.ID entry) "" then nil
                else [VideoInfo.set_PlaylistID playlistID entry])
             entries)
  end.

Definition LF : string := String "010"%char EmptyString.

(** The scan of yt-dlp's output in [downloadVideo]: every line that
    announces a destination overwrites the path found so far with the
    text between the line's first and second colon. *)
Definition destination (outputStr : string) : string :=
  fold_left
    (fun filePath line =>
       if strings.Contains line "[ExtractAudio] Destination:"
       then strings.TrimSpace (nth 1 (strings.Split line ":") "")
       else if strings.Contains line "[download] Destination:"
            then strings.TrimSpace (nth 1 (strings.Split line ":") "")
            else filePath)
    (strings.Split outputStr LF) "".

(** [downloadVideo]. *)
Definition downloadVideo (env : Env) (dl : Downloader)
           (videoID playlistName : string) : error + (string * Z) :=
  if negb (os_MkdirAll env (outputDir dl) playlistName)
  then inl ErrCreateDirectory
  else
    match yt_dlp_extract_audio env (outputDir dl) playlistName videoID with
    | None => inl ErrYtDlpDownload
    | Some outputStr =>
        let filePath := destination outputStr in
        if String.eqb filePath "" then inl ErrNoFilePath
        else match os_Stat env filePath with
             | StatOK size => inr (filePath, size)
             | _ => inl (ErrFileSize filePath)
             end
    end.

(** One invocation of the callback: the video and the [downloaded]
    flag.  A [nil] callback ([callback = false]) is never invoked. *)
Definition Call : Type := (string * bool)%type.

Definition invoke (callback : bool) (calls : list Call) (videoID : string)
           (downloaded : bool) : list Call :=
  if callback then List.app calls [(videoID, downloaded)] else calls.

Definition metadata_of (video : VideoInfo.t) : VideoMetadata.t :=
  let uploadDate :=
    if negb (String.eqb (VideoInfo.UploadDate video) "")
    then match time.Parse_20060102 (VideoInfo.UploadDate video) with
         | Some t => t
         | None => time.zero
         end
    else time.zero in
  VideoMetadata.Build
    (VideoInfo.Title video) (VideoInfo.Description video)
    (VideoInfo.Channel video) (VideoInfo.ChannelID video)
    (int_of_float64 (VideoInfo.Duration video)) (VideoInfo.ViewCount video)
    (VideoInfo.Thumbnail video) uploadDate false
    (VideoInfo.LiveStartTime video) (VideoInfo.LiveEndTime video)
    (VideoInfo.MetadataJSON video).

(** The body of the loop of [ProcessPlaylist], on the store and the
    callback's invocations so far.  Every [continue] of the source is a
    branch that returns the state for the next video. *)
Definition processVideo (env : Env) (dl : Downloader) (playlist : Playlist.t)
           (playlistName : string) (callback : bool)
           (st : Database * list Call) (video : VideoInfo.t)
  : Database * list Call :=
  let (d, calls) := st in
  let videoID := VideoInfo.ID video in
  if driver_fails env (OpVideoExists videoID) then (d, calls)
  else if VideoExists d videoID
  then (d, invoke callback calls videoID false)
  else
    match downloadVideo env dl videoID playlistName with
    | inl _ => (d, calls)
    | inr (filePath, fileSize) =>
        if driver_fails env (OpAddVideo videoID) then (d, calls)
        else
          match AddVideo d (now_at env (OpAddVideo videoID)) videoID
                         (Playlist.YoutubeID playlist) (Playlist.Title playlist)
                         (metadata_of video) with
          | (d1, Some _) => (d1, calls)
          | (d1, None) =>
              let d2 :=
                if driver_fails env (OpUpdateFileInfo videoID) then d1
                else fst (UpdateFileInfo d1 (now_at env (OpUpdateFileInfo videoID))
                                         videoID filePath fileSize) in
              (d2, invoke callback calls videoID true)
          end
    end.

(** What [ProcessPlaylist] leaves behind: the store, the invocations of
    the callback in order, and the returned error ([None] is [nil]). *)
Record Outcome : Type := BuildOutcome {
  db : Database;
  calls : list Call;
  err : option error
}.

(** [ProcessPlaylist].  The early [return nil] on an empty listing is the
    loop over no video; log lines are left out. *)
Definition ProcessPlaylist (env : Env) (dl : Downloader) (d : Database)
           (playlistURL playlistName : string) (callback : bool) : Outcome :=
  let playlistID := extractPlaylistID playlistURL in
  if String.eqb playlistID ""
  then BuildOutcome d nil (Some (ErrInvalidPlaylistURL playlistURL))
  else if driver_fails env (OpGetOrCreatePlaylist playlistID)
  then BuildOutcome d nil (Some ErrGetOrCreatePlaylist)
  else
    let (d1, playlist) :=
      GetOrCreatePlaylist d (now_at env (OpGetOrCreatePlaylist playlistID))
                          playlistID playlistName in
    match getPlaylistVideos env playlistURL with
    | inl _ => BuildOutcome d1 nil (Some ErrGetPlaylistVideos)
    | inr videos =>
        let (d2, calls) :=
          fold_left (processVideo env dl playlist playlistName callback)
                    videos (d1, nil) in
        BuildOutcome d2 calls None
    end.

End downloader.

(* ================================================================== *)
(** ** cmd/pp-downloader: the adaptive polling interval *)
(* ================================================================== *)

Module main.

(** [type playlistState struct], without its mutex. *)
Record playlistState : Type := BuildState {
  lastChecked : Time;
  lastChange : Time;
  interval : Duration
}.

(** [calculateInterval], at the instant [now] read from the clock. *)
Definition calculateInterval (ps : playlistState) (now : Time) : Duration :=
  if time.Sub now (lastChange ps) <? time.Hour * 24
  then time.Minute * 5
  else time.Minute * 15.

(** [updateState]. *)
Definition updateState (ps : playlistState) (now : Time) (changed : bool)
  : playlistState :=
  BuildState now (if changed then now else lastChange ps) (interval ps).

(** The state [main] and [processAllPlaylists] start a playlist with. *)
Definition initial : playlistState :=
  BuildState time.zero time.zero (time.Minute * 5).

(** [processPlaylist]: one pass and the bookkeeping after it.  The
    callback handed to [ProcessPlaylist] sets [changed] when it is told
    [downloaded = true]; the error of the pass is logged and otherwise
    ignored.  [now] is the instant [updateState] reads. *)
Definition processPlaylist (env : downloader.Env) (dl : downloader.Downloader)
           (d : database.Database) (name url : string) (state : playlistState)
           (now : Time) : database.Database * playlistState :=
  let r := downloader.ProcessPlaylist env dl d url name true in
  let changed := existsb (fun call : downloader.Call => snd call)
                         (downloader.calls r) in
  (downloader.db r, updateState state now changed).

(** [map[string]*playlistState], by URL. *)
Definition States : Type := string -> option playlistState.

Definition set_state (url : string) (state : playlistState) (states : States)
  : States :=
  fun u => if String.eqb u url then Some state else states u.

(** The body of the loop of [processAllPlaylists], on the states and the
    passes launched so far: a playlist without a state gets a fresh one,
    and a pass is launched when [force] is set or the time since the last
    check has reached the interval.  [clock name] is the instant that
    [calculateInterval] reads for the playlist called [name]. *)
Definition launch (force : bool) (now : Time) (clock : string -> Time)
           (acc : States * list (string * string)) (entry : string * string)
  : States * list (string * string) :=
  let '(states, launched) := acc in
  let '(name, url) := entry in
  let '(state, states) :=
    match states url with
    | Some state => (state, states)
    | None =>
        let state := BuildState time.zero time.zero (time.Minute * 5) in
        (state, set_state url state states)
    end in
  if force
     || (calculateInterval state (clock name)
         <=? time.Sub now (lastChecked state))
  then (states, List.app launched [(name, url)])
  else (states, launched).

(** [processAllPlaylists]: the states after the loop and the playlists
    (name and URL) for which a pass was launched, in the order in which
    the configured playlists were visited.  The passes themselves run
    on their own and are not part of this function. *)
Definition processAllPlaylists (playlists : list (string * string))
           (states : States) (force : bool) (now : Time)
           (clock : string -> Time) : States * list (string * string) :=
  fold_left (launch force now clock) playlists (states, nil).

(** [extractPlaylistID] of package [main]: the text after the first
    [list=], up to the next [list=] and cut at the first [&]; an error
    when [list=] does not occur. *)
Definition extractPlaylistID (url : string) : string * option error :=
  let parts := strings.Split url "list=" in
  if (List.length parts <? 2)%nat
  then (EmptyString, Some (ErrInvalidPlaylistURL url))
  else
    let playlistID := nth 1 parts "" in
    let ampIdx := strings.Index playlistID "&" in
    let playlistID :=
      if negb (ampIdx =? -1) then strings.take (Z.to_nat ampIdx) playlistID
      else playlistID in
    (playlistID, None).

End main.

(* ================================================================== *)
(** ** Concrete stores and worlds, for the examples below *)
(* ================================================================== *)

Module Scenario.
Import database downloader.

(** A listed track. *)
Definition track (id : string) : VideoInfo.t :=
  VideoInfo.Build id ("Track " ++ id) "" (F64 false 215 0) "Some Channel"
                  "UC0001" "" 1000 "" "20240229" 0 0 "".

(** What yt-dlp prints when it has written the file of a video. *)
Definition announce (videoID : string) : string :=
  "[download] Destination: /music/Jazz/" ++ videoID ++ ".webm" ++ LF
  ++ "[ExtractAudio] Destination: /music/Jazz/" ++ videoID ++ ".mp3" ++ LF.

Definition dl : Downloader := BuildDownloader "/usr/bin/ffmpeg" "/music".

Definition noon : Time := 1709208000 * time.Second.

(** A world in which the listing of every playlist is [listing], every
    fetch succeeds but those of the videos in [broken], and the SQL
    driver never fails. *)
Definition world (listing : option (list VideoInfo.t)) (broken : string -> bool)
  : Env :=
  BuildEnv (fun _ => listing)
           (fun _ _ => true)
           (fun _ _ videoID => if broken videoID then None
                               else Some (announce videoID))
           (fun _ => StatOK 4096)
           (fun _ => false)
           (fun _ => noon).

Definition three_tracks : list VideoInfo.t := [track "a"; track "b"; track "c"].

Definition metadata : VideoMetadata.t := metadata_of (track "a").

(** No file anywhere. *)
Definition empty_disk (path : string) : StatResult := StatNotExist.

(** A disk with one good file, one unreadable path and nothing else. *)
Definition disk (path : string) : StatResult :=
  if String.eqb path "/music/Jazz/a.mp3" then StatOK 4096
  else if String.eqb path "/music/Jazz/c.mp3" then StatError
  else StatNotExist.

(** A store with three located rows and one row without a path. *)
Definition shelf : Database :=
  let row (id : string) (path : option string) :=
    Video.Build id 1 "Jazz" metadata path 0 None None "pending" noon noon noon in
  BuildDatabase
    [Playlist.Build 1 "PL1" "Jazz" None None None None 4 noon noon noon]
    [row "a" (Some "/music/Jazz/a.mp3"); row "b" (Some "/music/Jazz/b.mp3");
     row "c" (Some "/music/Jazz/c.mp3"); row "e" None]
    1.

(** The SQL driver fails the call that records the file of one video. *)
Definition update_fails (videoID : string) (op : StoreOp) : bool :=
  match op with
  | OpUpdateFileInfo id => String.eqb id videoID
  | _ => false
  end.

(** As [world], with the calls on the store that the driver fails. *)
Definition world_with_driver (listing : option (list VideoInfo.t))
           (broken : string -> bool) (faults : StoreOp -> bool) : Env :=
  BuildEnv (fun _ => listing)
           (fun _ _ => true)
           (fun _ _ videoID => if broken videoID then None
                               else Some (announce videoID))
           (fun _ => StatOK 4096)
           faults
           (fun _ => noon).

(** A downloader whose output directory is [.music], and a world in
    which yt-dlp writes each file where its template says: into the
    directory of the playlist, which for a playlist without a name is
    the output directory itself ([filepath.Join] drops the empty
    element). *)
Definition flat_dl : Downloader := BuildDownloader "/usr/bin/ffmpeg" ".music".

Definition flat_world : Env :=
  BuildEnv (fun _ => Some [track "a"])
           (fun _ _ => true)
           (fun outputDir playlistName videoID =>
              let playlistDir :=
                if String.eqb playlistName "" then outputDir
                else outputDir ++ "/" ++ playlistName in
              Some ("[ExtractAudio] Destination: " ++ playlistDir ++ "/Track "
                    ++ videoID ++ " [" ++ videoID ++ "].mp3" ++ LF))
           (fun _ => StatOK 4096)
           (fun _ => false)
           (fun _ => noon).

End Scenario.

(* ================================================================== *)
(** ** Notions used to state the properties *)
(* ================================================================== *)

Module Notions.
Import strings database validator downloader.

(** The byte [c] occurs in [s]. *)
Fixpoint has_byte (c : ascii) (s : string) : bool :=
  match s with
  | EmptyString => false
  | String a s' => Ascii.eqb a c || has_byte c s'
  end.

(** The value the rows read by the sweep hold for a key, if any. *)
Fixpoint lookup (key : string) (rows : list (string * string)) : option string :=
  match rows with
  | nil => None
  | (k, path) :: rows' => if String.eqb k key then Some path else lookup key rows'
  end.

(** The [UNIQUE] constraint on [videos.youtube_id]. *)
Definition unique_videos (d : Database) : Prop :=
  NoDup (map Video.youtube_id (videos d)).

(** What the sweep does to one row. *)
Definition validated (stat : string -> StatResult) (now : Time) (v : Video.t)
  : Video.t :=
  match Video.located v with
  | Some path => Video.set_validation (status_of (stat path)) now v
  | None => v
  end.

(** The path [AddVideo] makes up for the row. *)
Definition placeholder_path (title youtubeID : string) : string :=
  ".music/" ++ sanitizeFilename title ++ " [" ++ youtubeID ++ "].mp3".

(** The row [AddVideo] offers to the upsert. *)
Definition offered_row (d : Database) (now : Time)
           (youtubeID playlistYoutubeID playlistTitle : string)
           (metadata : VideoMetadata.t) : Video.t :=
  Video.Build youtubeID
              (Playlist.ID (snd (GetOrCreatePlaylist d now playlistYoutubeID
                                                     playlistTitle)))
              playlistTitle metadata
              (Some (placeholder_path (VideoMetadata.Title metadata) youtubeID))
              0 None (Some now) "pending" now now now.

Definition is_not_exist (r : StatResult) : bool :=
  match r with
  | StatNotExist => true
  | _ => false
  end.

(** A row is deleted by the loop when one of the rows read names it and
    the file of that row is absent. *)
Definition doomed (stat : string -> StatResult) (rows : list (string * string))
           (v : Video.t) : bool :=
  existsb (fun r => String.eqb (Video.youtube_id v) (fst r)
                    && is_not_exist (stat (snd r))) rows.

(** The video can be brought in: the existence probe answers, yt-dlp
    delivers a file, and the store accepts the row. *)
Definition fetched (env : Env) (dl : Downloader) (playlistName videoID : string)
  : bool :=
  negb (driver_fails env (OpVideoExists videoID))
  && match downloadVideo env dl videoID playlistName with
     | inr _ => true
     | inl _ => false
     end
  && negb (driver_fails env (OpAddVideo videoID)).

(** What one iteration has to tell the callback, on the store [d]. *)
Definition told (env : Env) (dl : Downloader) (playlistName : string)
           (d : Database) (videoID : string) : list Call :=
  if driver_fails env (OpVideoExists videoID) then nil
  else if VideoExists d videoID then [(videoID, false)]
  else if fetched env dl playlistName videoID then [(videoID, true)]
  else nil.

(** The videos a pass works on: the entries with a non-empty identifier. *)
Definition listing_of (playlistURL : string) (entries : list VideoInfo.t)
  : list VideoInfo.t :=
  flat_map (fun entry =>
              if String.eqb (VideoInfo.ID entry) "" then nil
              else [VideoInfo.set_PlaylistID (extractPlaylistID playlistURL) entry])
           entries.

(** The row is marked missing and no file is at its path: what the
    cleanup looks for. *)
Definition condemned (stat : string -> StatResult) (v : Video.t) : bool :=
  match Video.file_path v with
  | Some path =>
      String.eqb (Video.validation_status v) "missing"
      && is_not_exist (stat path)
  | None => false
  end.

(** The counts and keys of the two tables fit together: every playlist's
    [video_count] is the number of videos that reference it, and no key
    in use lies beyond the last one handed out. *)
Definition counts_ok (d : Database) : Prop :=
  (forall p, In p (playlists d) ->
             Playlist.VideoCount p = count_videos (Playlist.ID p) (videos d)
             /\ Playlist.ID p <= playlists_seq d)
  /\ (forall v, In v (videos d) -> Video.playlist_id v <= playlists_seq d).

(** The store resolves the identifier of [playlist] to the key of
    [playlist]. *)
Definition files_under (playlist : Playlist.t) (d : Database) : Prop :=
  option_map Playlist.ID
             (find (by_youtube_id (Playlist.YoutubeID playlist)) (playlists d))
  = Some (Playlist.ID playlist).

(** The row a pass leaves for a video it has brought in: filed under the
    playlist of the pass, with the file yt-dlp announced and the size
    found, marked [valid]; or, when the call that records the file
    fails, with the path, size and status that [AddVideo] wrote. *)
Definition ingested (env : Env) (dl : Downloader) (playlistName : string)
           (playlist : Playlist.t) (v : Video.t) : Prop :=
  Video.playlist_id v = Playlist.ID playlist
  /\ Video.playlist_title v = Playlist.Title playlist
  /\ exists filePath fileSize,
       downloadVideo env dl (Video.youtube_id v) playlistName
       = inr (filePath, fileSize)
       /\ if driver_fails env (OpUpdateFileInfo (Video.youtube_id v))
          then Video.file_path v
               = Some (placeholder_path (VideoMetadata.Title (Video.meta v))
                                        (Video.youtube_id v))
               /\ Video.file_size v = 0
               /\ Video.validation_status v = "pending"
          else Video.file_path v = Some filePath
               /\ Video.file_size v = fileSize
               /\ Video.validation_status v = "valid".

(** The keys of the two tables: one playlist row per identifier, one per
    key, every key among those handed out so far, and every video filed
    under a playlist row that is there (the foreign key). *)
Definition keys_ok (d : Database) : Prop :=
  0 <= playlists_seq d
  /\ NoDup (map Playlist.YoutubeID (playlists d))
  /\ NoDup (map Playlist.ID (playlists d))
  /\ (forall p, In p (playlists d) -> 0 < Playlist.ID p <= playlists_seq d)
  /\ (forall v, In v (videos d) ->
                In (Video.playlist_id v) (map Playlist.ID (playlists d))).

(** The stores the program can be in: the fresh one, and what any of its
    operations makes of one it can be in. *)
Inductive reachable : Database -> Prop :=
| reach_NewDatabase : reachable NewDatabase
| reach_GetOrCreatePlaylist (d : Database) (now : Time) (youtubeID title : string) :
    reachable d -> reachable (fst (GetOrCreatePlaylist d now youtubeID title))
| reach_AddVideo (d : Database) (now : Time)
                 (youtubeID playlistYoutubeID playlistTitle : string)
                 (metadata : VideoMetadata.t) :
    reachable d ->
    reachable (fst (AddVideo d now youtubeID playlistYoutubeID playlistTitle
                             metadata))
| reach_UpdateFileInfo (d : Database) (now : Time) (youtubeID filePath : string)
                       (fileSize : Z) :
    reachable d ->
    reachable (fst (UpdateFileInfo d now youtubeID filePath fileSize))
| reach_ValidateFiles (d : Database) (stat : string -> StatResult) (now : Time) :
    reachable d -> reachable (fst (ValidateFiles d stat now))
| reach_CleanupMissingFiles (d : Database) (stat : string -> StatResult) :
    reachable d -> reachable (fst (CleanupMissingFiles d stat))
| reach_ProcessPlaylist (env : Env) (dl : Downloader) (d : Database)
                        (playlistURL playlistName : string) (callback : bool) :
    reachable d ->
    reachable (db (ProcessPlaylist env dl d playlistURL playlistName callback)).

(** The state [processAllPlaylists] works with for a playlist: the one
    kept for its URL, or the fresh one it makes up. *)
Definition state_of (states : main.States) (url : string) : main.playlistState :=
  match states url with
  | Some state => state
  | None => main.initial
  end.

(** The condition under which [processAllPlaylists] launches a pass for
    the entry (name and URL) of a configured playlist. *)
Definition due (force : bool) (now : Time) (clock : string -> Time)
           (states : main.States) (entry : string * string) : bool :=
  force
  || (main.calculateInterval (state_of states (snd entry)) (clock (fst entry))
      <=? time.Sub now (main.lastChecked (state_of states (snd entry)))).

End Notions.

(* ================================================================== *)
(** * Properties *)
(* ================================================================== *)

(** ** The library models on sample inputs *)

Example split_demo :
  strings.Split "https://youtube.com/playlist?list=PL1&index=2" "list="
  = ["https://youtube.com/playlist?"; "PL1&index=2"].
Proof. reflexivity. Qed.

Example trim_demo :
  strings.TrimSpace
    (" " ++ strings.bytes [194; 160]%nat ++ "a b  "
         ++ strings.bytes [227; 128; 128]%nat)
  = "a b".
Proof. reflexivity. Qed.

Example zero_time : time.zero = -62135596800 * time.Second.
Proof. reflexivity. Qed.

Example parse_demo :
  time.Parse_20060102 "20240229" = Some (1709164800 * time.Second)
  /\ time.Parse_20060102 "20230229" = None
  /\ time.Parse_20060102 "2024-02-29" = None.
Proof. repeat split. Qed.

(** ** The polling interval *)

Module SchedulerFacts.
Import main.

Lemma Sub_lt_day (t u : Time) :
  (time.Sub t u <? time.Hour * 24) = (t - u <? time.Hour * 24).
Proof.
  unfold time.Sub, time.minDuration, time.maxDuration.
  change (time.Hour * 24) with 86400000000000.
  change (- 2 ^ 63) with (-9223372036854775808).
  change (2 ^ 63 - 1) with 9223372036854775807.
  destruct (t - u <? -9223372036854775808) eqn:Hlo;
    [apply Z.ltb_lt in Hlo | apply Z.ltb_ge in Hlo].
  - symmetry. transitivity true; [apply Z.ltb_lt; lia | reflexivity].
  - destruct (9223372036854775807 <? t - u) eqn:Hhi;
      [apply Z.ltb_lt in Hhi | reflexivity].
    transitivity false; [reflexivity | symmetry; apply Z.ltb_ge; lia].
Qed.

Lemma calculateInterval_short (ps : playlistState) (now : Time) :
  now - lastChange ps < 24 * time.Hour ->
  calculateInterval ps now = 5 * time.Minute.
Proof.
  intros H. unfold calculateInterval. rewrite Sub_lt_day.
  replace (now - lastChange ps <? time.Hour * 24) with true; [reflexivity|].
  symmetry. apply Z.ltb_lt. lia.
Qed.

Lemma calculateInterval_long (ps : playlistState) (now : Time) :
  24 * time.Hour <= now - lastChange ps ->
  calculateInterval ps now = 15 * time.Minute.
Proof.
  intros H. unfold calculateInterval. rewrite Sub_lt_day.
  replace (now - lastChange ps <? time.Hour * 24) with false; [reflexivity|].
  symmetry. apply Z.ltb_ge. lia.
Qed.

(** A playlist that was never seen changing starts on the long interval:
    its [lastChange] is the zero instant, further back than any
    [Duration] can express. *)
Lemma calculateInterval_initial (now : Time) :
  0 <= now -> calculateInterval initial now = 15 * time.Minute.
Proof.
  intros H. apply calculateInterval_long. simpl lastChange.
  change time.zero with (-62135596800000000000).
  change (24 * time.Hour) with 86400000000000. lia.
Qed.

(** C7.  [calculateInterval] answers five minutes when less than 24 hours
    separate [now] from [lastChange], and fifteen minutes otherwise.  The
    answer is computed from [lastChange] and [now] alone: the stored
    [interval] and [lastChecked] play no part, so nothing is cached.  In
    particular a change 23h59m ago gives five minutes and a change
    24h00m01s ago gives fifteen. *)
Theorem calculateInterval_cadence :
  forall (ps : playlistState) (now : Time),
    (now - lastChange ps < 24 * time.Hour ->
       calculateInterval ps now = 5 * time.Minute)
    /\ (24 * time.Hour <= now - lastChange ps ->
       calculateInterval ps now = 15 * time.Minute)
    /\ (forall checked cached : Z,
          calculateInterval (BuildState checked (lastChange ps) cached) now
          = calculateInterval ps now)
    /\ calculateInterval
         (BuildState (lastChecked ps)
                     (now - (23 * time.Hour + 59 * time.Minute)) (interval ps))
         now = 5 * time.Minute
    /\ calculateInterval
         (BuildState (lastChecked ps)
                     (now - (24 * time.Hour + 1 * time.Second)) (interval ps))
         now = 15 * time.Minute.
Proof.
  intros ps now.
  split; [apply calculateInterval_short|].
  split; [apply calculateInterval_long|].
  split; [reflexivity|].
  split.
  - apply calculateInterval_short. simpl lastChange.
    change (24 * time.Hour) with 86400000000000.
    change (23 * time.Hour + 59 * time.Minute) with 86340000000000. lia.
  - apply calculateInterval_long. simpl lastChange.
    change (24 * time.Hour) with 86400000000000.
    change (24 * time.Hour + 1 * time.Second) with 86401000000000. lia.
Qed.

End SchedulerFacts.

(** ** The state store *)

Module StoreFacts.
Import database Notions.

Lemma video_is_true (youtubeID : string) (v : Video.t) :
  video_is youtubeID v = true <-> Video.youtube_id v = youtubeID.
Proof. unfold video_is. apply String.eqb_eq. Qed.

Lemma video_is_false (youtubeID : string) (v : Video.t) :
  video_is youtubeID v = false <-> Video.youtube_id v <> youtubeID.
Proof. unfold video_is. apply String.eqb_neq. Qed.

Lemma VideoExists_In (d : Database) (youtubeID : string) :
  VideoExists d youtubeID = true <-> In youtubeID (map Video.youtube_id (videos d)).
Proof.
  unfold VideoExists. rewrite existsb_exists, in_map_iff.
  split; intros [v [H1 H2]]; exists v.
  - split; [apply video_is_true|]; assumption.
  - split; [|apply video_is_true]; assumption.
Qed.

(** An update that keeps the key of every row keeps the list of keys. *)
Lemma update_keeps_keys (where_ : Video.t -> bool) (set : Video.t -> Video.t)
      (table : list Video.t) :
  (forall v, Video.youtube_id (set v) = Video.youtube_id v) ->
  map Video.youtube_id (fst (exec_update where_ set table))
  = map Video.youtube_id table.
Proof.
  intros Hset. simpl. rewrite map_map. apply map_ext.
  intros v. destruct (where_ v); [apply Hset | reflexivity].
Qed.

(** An update whose condition no row meets changes nothing. *)
Lemma update_no_match {row : Type} (where_ : row -> bool) (set : row -> row)
      (table : list row) :
  existsb where_ table = false -> fst (exec_update where_ set table) = table.
Proof.
  intros H. simpl. induction table as [|r table IH]; [reflexivity|].
  simpl in H. apply orb_false_iff in H. destruct H as [Hr Ht].
  simpl. rewrite Hr, (IH Ht). reflexivity.
Qed.

Lemma UpdateFileInfo_exists (d : Database) (now : Time)
      (youtubeID filePath : string) (fileSize : Z) (other : string) :
  VideoExists (fst (UpdateFileInfo d now youtubeID filePath fileSize)) other
  = VideoExists d other.
Proof.
  apply eq_true_iff_eq. rewrite !VideoExists_In.
  unfold UpdateFileInfo. cbn [exec_update fst videos].
  rewrite map_map.
  rewrite (map_ext _ Video.youtube_id); [reflexivity|].
  intros v. destruct (video_is youtubeID v); reflexivity.
Qed.

Lemma UpdateFileInfo_playlists (d : Database) (now : Time)
      (youtubeID filePath : string) (fileSize : Z) :
  playlists (fst (UpdateFileInfo d now youtubeID filePath fileSize)) = playlists d.
Proof. reflexivity. Qed.

Lemma UpdateFileInfo_absent (d : Database) (now : Time)
      (youtubeID filePath : string) (fileSize : Z) :
  VideoExists d youtubeID = false ->
  fst (UpdateFileInfo d now youtubeID filePath fileSize) = d.
Proof.
  intros Hno. destruct d as [ps vs seq]. unfold UpdateFileInfo. simpl in *.
  f_equal.
  apply (update_no_match (video_is youtubeID)
                         (Video.set_file_info filePath fileSize now) vs Hno).
Qed.

(** C9.  [UpdateFileInfo] returns no error.  When no row has the given
    identifier the store is left as it was; otherwise every row with that
    identifier ends with the given path and size, status [valid] and the
    call's instant as validation (and update) time, its other columns and
    all other rows being kept. *)
Theorem UpdateFileInfo_sets_file_info :
  forall (d : Database) (now : Time) (youtubeID filePath : string) (fileSize : Z),
    let d' := fst (UpdateFileInfo d now youtubeID filePath fileSize) in
    snd (UpdateFileInfo d now youtubeID filePath fileSize) = None
    /\ (VideoExists d youtubeID = false -> d' = d)
    /\ VideoExists d' youtubeID = VideoExists d youtubeID
    /\ playlists d' = playlists d
    /\ videos d'
       = map (fun v =>
                if String.eqb (Video.youtube_id v) youtubeID
                then Video.Build
                       (Video.youtube_id v) (Video.playlist_id v)
                       (Video.playlist_title v) (Video.meta v)
                       (Some filePath) fileSize (Video.file_checksum v)
                       (Some now) "valid"
                       (Video.downloaded_at v) (Video.created_at v) now
                else v)
             (videos d).
Proof.
  intros d now youtubeID filePath fileSize d'. subst d'.
  split; [reflexivity|]. split; [apply UpdateFileInfo_absent|].
  split; [apply UpdateFileInfo_exists|]. split; reflexivity.
Qed.

(** *** The validation sweep *)

Lemma lookup_absent (key : string) (rows : list (string * string)) :
  ~ In key (map fst rows) -> lookup key rows = None.
Proof.
  induction rows as [|[k path] rows IH]; intros Hnot; [reflexivity|].
  simpl in *. destruct (String.eqb k key) eqn:Hk.
  - apply String.eqb_eq in Hk. tauto.
  - apply IH. tauto.
Qed.

Lemma located_rows_keys (table : list Video.t) (key : string) :
  In key (map fst (located_rows table)) -> In key (map Video.youtube_id table).
Proof.
  induction table as [|v table IH]; simpl; [tauto|].
  unfold located_rows in *. simpl. rewrite map_app, in_app_iff.
  intros [H|H]; [left | right; apply IH; exact H].
  destruct (Video.located v); simpl in H; tauto.
Qed.

Lemma located_rows_NoDup (table : list Video.t) :
  NoDup (map Video.youtube_id table) -> NoDup (map fst (located_rows table)).
Proof.
  induction table as [|v table IH]; intros Hnd; [constructor|].
  simpl in Hnd. inversion Hnd as [|? ? Hnotin Hnd']; subst.
  unfold located_rows. simpl. fold (located_rows table).
  destruct (Video.located v); simpl; [|apply IH; exact Hnd'].
  constructor; [|apply IH; exact Hnd'].
  intros Hin. apply Hnotin. apply located_rows_keys. exact Hin.
Qed.

Lemma lookup_located (table : list Video.t) :
  NoDup (map Video.youtube_id table) ->
  forall v, In v table ->
            lookup (Video.youtube_id v) (located_rows table) = Video.located v.
Proof.
  induction table as [|v0 table IH]; intros Hnd v Hin; [destruct Hin|].
  simpl in Hnd. inversion Hnd as [|? ? Hnotin Hnd']; subst.
  unfold located_rows. simpl. fold (located_rows table).
  destruct Hin as [Heq|Hin].
  - subst v0. destruct (Video.located v) eqn:Hloc; simpl.
    + rewrite String.eqb_refl. reflexivity.
    + apply lookup_absent. intros Hin. apply Hnotin.
      apply located_rows_keys. exact Hin.
  - assert (Hne : Video.youtube_id v0 <> Video.youtube_id v).
    { intros Heq. apply Hnotin. rewrite Heq. apply in_map. exact Hin. }
    destruct (Video.located v0); simpl.
    + apply String.eqb_neq in Hne. rewrite Hne. apply IH; assumption.
    + apply IH; assumption.
Qed.

(** The loop of [ValidateFiles] over rows with distinct identifiers
    amounts to one pass over the table. *)
Lemma validate_loop (stat : string -> StatResult) (now : Time) :
  forall (rows : list (string * string)) (table : list Video.t) (checked : Z),
    NoDup (map fst rows) ->
    fold_left (validate_row stat now)
      rows (table, checked)
    = (map (fun v => match lookup (Video.youtube_id v) rows with
                     | Some path => Video.set_validation (status_of (stat path)) now v
                     | None => v
                     end) table,
       checked + Z.of_nat (List.length rows)).
Proof.
  induction rows as [|[k path] rows IH]; intros table checked Hnd.
  - simpl. rewrite map_id, Z.add_0_r. reflexivity.
  - simpl in Hnd. inversion Hnd as [|? ? Hnotin Hnd']; subst.
    cbn [fold_left].
    change (validate_row stat now (table, checked) (k, path))
      with (fst (exec_update (video_is k)
                             (Video.set_validation (status_of (stat path)) now)
                             table), checked + 1).
    rewrite IH by exact Hnd'.
    f_equal; [|cbn [List.length]; lia].
    simpl. rewrite map_map. apply map_ext. intros v.
    unfold video_is. destruct (String.eqb (Video.youtube_id v) k) eqn:Hk.
    + apply String.eqb_eq in Hk. subst k. simpl.
      rewrite String.eqb_refl.
      rewrite (lookup_absent _ _ Hnotin). reflexivity.
    + rewrite String.eqb_sym, Hk. reflexivity.
Qed.

Lemma located_rows_length (table : list Video.t) :
  List.length (located_rows table)
  = List.length (filter (fun v => match Video.located v with
                                  | Some _ => true
                                  | None => false
                                  end) table).
Proof.
  induction table as [|v table IH]; [reflexivity|].
  unfold located_rows in *. simpl.
  destruct (Video.located v); simpl; rewrite IH; reflexivity.
Qed.

Lemma ValidateFiles_videos (d : Database) (stat : string -> StatResult) (now : Time) :
  unique_videos d ->
  videos (fst (ValidateFiles d stat now)) = map (validated stat now) (videos d).
Proof.
  intros Hunique. unfold ValidateFiles.
  rewrite (validate_loop stat now (located_rows (videos d)) (videos d) 0
                         (located_rows_NoDup _ Hunique)).
  cbn [fst videos].
  apply map_ext_in. intros v Hin.
  rewrite (lookup_located _ Hunique v Hin). reflexivity.
Qed.

Lemma ValidateFiles_checked (d : Database) (stat : string -> StatResult) (now : Time) :
  snd (ValidateFiles d stat now) = Z.of_nat (List.length (located_rows (videos d))).
Proof.
  unfold ValidateFiles.
  destruct (fold_left (validate_row stat now) (located_rows (videos d)) (videos d, 0))
    as [table checked] eqn:Hfold.
  cbn [snd].
  assert (Hcount : forall rows acc,
             snd (fold_left (validate_row stat now) rows acc)
             = snd acc + Z.of_nat (List.length rows)).
  { induction rows as [|[k path] rows IH]; intros [t c].
    - simpl. lia.
    - cbn [fold_left]. rewrite IH. cbn [validate_row snd List.length]. lia. }
  specialize (Hcount (located_rows (videos d)) (videos d, 0)).
  rewrite Hfold in Hcount. exact Hcount.
Qed.

Lemma ValidateFiles_playlists (d : Database) (stat : string -> StatResult) (now : Time) :
  playlists (fst (ValidateFiles d stat now)) = playlists d.
Proof.
  unfold ValidateFiles.
  destruct (fold_left (validate_row stat now) (located_rows (videos d)) (videos d, 0)).
  reflexivity.
Qed.

(** C8.  On a store whose video identifiers are distinct (the [UNIQUE]
    constraint), [ValidateFiles] checks the path of every row that has a
    non-empty one and sets that row's status to [valid] when the file is
    there, [missing] when it does not exist and [error] on any other
    failure of the check; [last_validated] and [updated_at] of all these
    rows receive the same instant [now]; rows without a path and the
    playlists stay as they are; the number returned is the number of rows
    checked. *)
Theorem ValidateFiles_marks_every_located_row :
  forall (d : Database) (stat : string -> StatResult) (now : Time),
    unique_videos d ->
    videos (fst (ValidateFiles d stat now))
    = map (fun v =>
             match Video.file_path v with
             | Some path =>
                 if String.eqb path "" then v
                 else
                   Video.Build
                     (Video.youtube_id v) (Video.playlist_id v)
                     (Video.playlist_title v) (Video.meta v)
                     (Video.file_path v) (Video.file_size v)
                     (Video.file_checksum v)
                     (Some now)
                     match stat path with
                     | StatOK _ => "valid"
                     | StatNotExist => "missing"
                     | StatError => "error"
                     end
                     (Video.downloaded_at v) (Video.created_at v) now
             | None => v
             end) (videos d)
    /\ playlists (fst (ValidateFiles d stat now)) = playlists d
    /\ snd (ValidateFiles d stat now)
       = Z.of_nat (List.length
                     (filter (fun v => match Video.file_path v with
                                       | Some path => negb (String.eqb path "")
                                       | None => false
                                       end) (videos d))).
Proof.
  intros d stat now Hunique.
  split; [|split].
  - rewrite (ValidateFiles_videos d stat now Hunique).
    apply map_ext. intros v. unfold validated, Video.located.
    destruct (Video.file_path v) as [path|] eqn:Hpath; [|reflexivity].
    destruct (String.eqb path ""); [reflexivity|].
    unfold Video.set_validation, status_of. rewrite Hpath. reflexivity.
  - apply ValidateFiles_playlists.
  - rewrite ValidateFiles_checked, located_rows_length. do 2 f_equal.
    apply filter_ext. intros v. unfold Video.located.
    destruct (Video.file_path v) as [path|]; [|reflexivity].
    destruct (String.eqb path ""); reflexivity.
Qed.

(** *** Playlists *)

Lemma by_youtube_id_true (youtubeID : string) (p : Playlist.t) :
  by_youtube_id youtubeID p = true <-> Playlist.YoutubeID p = youtubeID.
Proof. unfold by_youtube_id. apply String.eqb_eq. Qed.

Lemma GetOrCreatePlaylist_existing (d : Database) (now : Time)
      (youtubeID title : string) (p : Playlist.t) :
  find (by_youtube_id youtubeID) (playlists d) = Some p ->
  GetOrCreatePlaylist d now youtubeID title = (d, p).
Proof. intros H. unfold GetOrCreatePlaylist. rewrite H. reflexivity. Qed.

Lemma GetOrCreatePlaylist_fresh (d : Database) (now : Time)
      (youtubeID title : string) :
  find (by_youtube_id youtubeID) (playlists d) = None ->
  GetOrCreatePlaylist d now youtubeID title
  = (BuildDatabase
       (List.app (playlists d)
                 [Playlist.Build (playlists_seq d + 1) youtubeID title
                                 None None None None 0 now now now])
       (videos d) (playlists_seq d + 1),
     Playlist.Build (playlists_seq d + 1) youtubeID title
                    None None None None 0 now now now).
Proof. intros H. unfold GetOrCreatePlaylist. rewrite H. reflexivity. Qed.

Lemma GetOrCreatePlaylist_videos (d : Database) (now : Time)
      (youtubeID title : string) :
  videos (fst (GetOrCreatePlaylist d now youtubeID title)) = videos d.
Proof.
  unfold GetOrCreatePlaylist.
  destruct (find (by_youtube_id youtubeID) (playlists d)); reflexivity.
Qed.

(** The playlist returned is a row of the store, under the identifier
    asked for. *)
Lemma GetOrCreatePlaylist_returns_row (d : Database) (now : Time)
      (youtubeID title : string) :
  In (snd (GetOrCreatePlaylist d now youtubeID title))
     (playlists (fst (GetOrCreatePlaylist d now youtubeID title)))
  /\ Playlist.YoutubeID (snd (GetOrCreatePlaylist d now youtubeID title))
     = youtubeID.
Proof.
  unfold GetOrCreatePlaylist.
  destruct (find (by_youtube_id youtubeID) (playlists d)) as [p|] eqn:Hfind.
  - apply find_some in Hfind. destruct Hfind as [Hin Hid].
    split; [exact Hin | apply by_youtube_id_true; exact Hid].
  - simpl. split; [|reflexivity]. apply in_or_app. right. left. reflexivity.
Qed.

(** *** AddVideo *)

Lemma AddVideo_unfold (d : Database) (now : Time)
      (youtubeID playlistYoutubeID playlistTitle : string)
      (metadata : VideoMetadata.t) :
  let d1 := fst (GetOrCreatePlaylist d now playlistYoutubeID playlistTitle) in
  let playlist := snd (GetOrCreatePlaylist d now playlistYoutubeID playlistTitle) in
  let new := offered_row d now youtubeID playlistYoutubeID playlistTitle metadata in
  let videos' :=
    if VideoExists d youtubeID
    then map (fun v => if video_is youtubeID v then Video.overwrite new now v else v)
             (videos d)
    else List.app (videos d) [new] in
  AddVideo d now youtubeID playlistYoutubeID playlistTitle metadata
  = (BuildDatabase
       (map (fun p => if Playlist.ID p =? Playlist.ID playlist
                      then Playlist.set_checked
                             (count_videos (Playlist.ID playlist) videos') now p
                      else p) (playlists d1))
       videos' (playlists_seq d1),
     None).
Proof.
  intros d1 playlist new videos'. subst d1 playlist new videos'.
  unfold AddVideo, offered_row, placeholder_path, VideoExists.
  pose proof (GetOrCreatePlaylist_returns_row d now playlistYoutubeID playlistTitle)
    as [Hin _].
  pose proof (GetOrCreatePlaylist_videos d now playlistYoutubeID playlistTitle)
    as Hvideos.
  destruct (GetOrCreatePlaylist d now playlistYoutubeID playlistTitle)
    as [d1 playlist].
  cbn [fst snd] in *.
  assert (Hfk : existsb (fun p => Playlist.ID p =? Playlist.ID playlist)
                        (playlists d1) = true).
  { apply existsb_exists. exists playlist. split; [exact Hin | apply Z.eqb_refl]. }
  rewrite Hfk, Hvideos. cbn [negb].
  destruct (existsb (video_is youtubeID) (videos d)); reflexivity.
Qed.

(** The upsert never trips over the foreign key: the playlist it names
    has just been looked up or created. *)
Lemma AddVideo_no_error (d : Database) (now : Time)
      (youtubeID playlistYoutubeID playlistTitle : string)
      (metadata : VideoMetadata.t) :
  snd (AddVideo d now youtubeID playlistYoutubeID playlistTitle metadata) = None.
Proof. rewrite AddVideo_unfold. reflexivity. Qed.

Lemma AddVideo_videos (d : Database) (now : Time)
      (youtubeID playlistYoutubeID playlistTitle : string)
      (metadata : VideoMetadata.t) :
  videos (fst (AddVideo d now youtubeID playlistYoutubeID playlistTitle metadata))
  = if VideoExists d youtubeID
    then map (fun v => if video_is youtubeID v
                       then Video.overwrite
                              (offered_row d now youtubeID playlistYoutubeID
                                           playlistTitle metadata) now v
                       else v)
             (videos d)
    else List.app (videos d)
                  [offered_row d now youtubeID playlistYoutubeID
                               playlistTitle metadata].
Proof. rewrite AddVideo_unfold. reflexivity. Qed.

(** After [AddVideo] the identifiers in the table are those before it,
    followed by the new one when it was not there. *)
Lemma AddVideo_keys (d : Database) (now : Time)
      (youtubeID playlistYoutubeID playlistTitle : string)
      (metadata : VideoMetadata.t) :
  map Video.youtube_id
      (videos (fst (AddVideo d now youtubeID playlistYoutubeID playlistTitle
                             metadata)))
  = if VideoExists d youtubeID
    then map Video.youtube_id (videos d)
    else List.app (map Video.youtube_id (videos d)) [youtubeID].
Proof.
  rewrite AddVideo_videos. destruct (VideoExists d youtubeID).
  - rewrite map_map. apply map_ext. intros v.
    destruct (video_is youtubeID v); reflexivity.
  - rewrite map_app. reflexivity.
Qed.

Lemma AddVideo_unique (d : Database) (now : Time)
      (youtubeID playlistYoutubeID playlistTitle : string)
      (metadata : VideoMetadata.t) :
  unique_videos d ->
  unique_videos (fst (AddVideo d now youtubeID playlistYoutubeID playlistTitle
                               metadata)).
Proof.
  unfold unique_videos. intros Hnd. rewrite AddVideo_keys.
  destruct (VideoExists d youtubeID) eqn:Hex; [exact Hnd|].
  apply NoDup_app; [exact Hnd | repeat constructor; simpl; tauto |].
  intros x Hin [Hx|[]]. subst x.
  apply VideoExists_In in Hin. congruence.
Qed.

Lemma AddVideo_exists (d : Database) (now : Time)
      (youtubeID playlistYoutubeID playlistTitle : string)
      (metadata : VideoMetadata.t) (other : string) :
  VideoExists (fst (AddVideo d now youtubeID playlistYoutubeID playlistTitle
                             metadata)) other
  = VideoExists d other || String.eqb youtubeID other.
Proof.
  apply eq_true_iff_eq.
  rewrite VideoExists_In, AddVideo_keys, orb_true_iff, VideoExists_In,
    String.eqb_eq.
  destruct (VideoExists d youtubeID) eqn:Hex.
  - split; [tauto|]. intros [H|H]; [exact H|]. subst other.
    apply VideoExists_In. exact Hex.
  - rewrite in_app_iff. simpl. tauto.
Qed.

(** *** Playlist rows are never lost *)

Lemma GetOrCreatePlaylist_incl (d : Database) (now : Time)
      (youtubeID title : string) (p : Playlist.t) :
  In p (playlists d) ->
  In p (playlists (fst (GetOrCreatePlaylist d now youtubeID title))).
Proof.
  intros Hin. unfold GetOrCreatePlaylist.
  destruct (find (by_youtube_id youtubeID) (playlists d)); [exact Hin|].
  cbn [fst playlists]. apply in_or_app. left. exact Hin.
Qed.

Lemma AddVideo_playlist_ids (d : Database) (now : Time)
      (youtubeID playlistYoutubeID playlistTitle : string)
      (metadata : VideoMetadata.t) (y : string) :
  In y (map Playlist.YoutubeID (playlists d)) ->
  In y (map Playlist.YoutubeID
            (playlists (fst (AddVideo d now youtubeID playlistYoutubeID
                                      playlistTitle metadata)))).
Proof.
  intros Hin. rewrite AddVideo_unfold. cbn [fst playlists].
  rewrite map_map.
  rewrite (map_ext _ Playlist.YoutubeID)
    by (intros p; destruct (Playlist.ID p =? _); reflexivity).
  apply in_map_iff in Hin. destruct Hin as [p [Hp Hin]].
  apply in_map_iff. exists p. split; [exact Hp|].
  apply GetOrCreatePlaylist_incl. exact Hin.
Qed.

Lemma find_present (y : string) (rows : list Playlist.t) :
  In y (map Playlist.YoutubeID rows) ->
  exists p, find (by_youtube_id y) rows = Some p.
Proof.
  intros Hin. destruct (find (by_youtube_id y) rows) as [p|] eqn:Hfind;
    [exists p; reflexivity|].
  apply in_map_iff in Hin. destruct Hin as [p [Hp Hin]].
  pose proof (find_none _ _ Hfind p Hin) as Hno.
  apply by_youtube_id_true in Hp. congruence.
Qed.

(** *** The cleanup of missing files *)

Import validator.

Lemma doomed_cons (stat : string -> StatResult) (k path : string)
      (rows : list (string * string)) (v : Video.t) :
  doomed stat ((k, path) :: rows) v
  = String.eqb (Video.youtube_id v) k && is_not_exist (stat path)
    || doomed stat rows v.
Proof. reflexivity. Qed.

(** Deleting the rows named [k] and then those doomed by [rows] is
    deleting those doomed by [(k, path) :: rows], when the file at [path]
    is absent. *)
Lemma delete_then_filter (stat : string -> StatResult) (k path : string)
      (rows : list (string * string)) (table : list Video.t) :
  is_not_exist (stat path) = true ->
  filter (fun v => negb (doomed stat rows v))
         (fst (exec_delete (video_is k) table))
  = filter (fun v => negb (doomed stat ((k, path) :: rows) v)) table.
Proof.
  intros Hstat. cbn [exec_delete fst].
  induction table as [|v table IH]; [reflexivity|].
  cbn [filter]. rewrite doomed_cons, Hstat, andb_true_r.
  unfold video_is at 1.
  destruct (String.eqb (Video.youtube_id v) k); cbn [negb orb].
  - exact IH.
  - cbn [filter]. rewrite IH. reflexivity.
Qed.

Lemma keep_then_filter (stat : string -> StatResult) (k path : string)
      (rows : list (string * string)) (table : list Video.t) :
  is_not_exist (stat path) = false ->
  filter (fun v => negb (doomed stat rows v)) table
  = filter (fun v => negb (doomed stat ((k, path) :: rows) v)) table.
Proof.
  intros Hstat. apply filter_ext. intros v.
  rewrite doomed_cons, Hstat, andb_false_r. reflexivity.
Qed.

Lemma cleanup_loop (stat : string -> StatResult) :
  forall (rows : list (string * string)) (table : list Video.t) (deleted : Z),
    fst (fold_left (cleanup_row stat) rows (table, deleted))
    = filter (fun v => negb (doomed stat rows v)) table.
Proof.
  induction rows as [|[k path] rows IH]; intros table deleted.
  - cbn [fold_left fst]. symmetry.
    rewrite (filter_ext _ (fun _ => true)) by reflexivity.
    induction table as [|v table IHt]; [reflexivity|].
    cbn [filter]. rewrite IHt. reflexivity.
  - cbn [fold_left]. unfold cleanup_row at 2.
    destruct (stat path) eqn:Hstat; rewrite IH.
    + apply keep_then_filter. rewrite Hstat. reflexivity.
    + apply delete_then_filter. rewrite Hstat. reflexivity.
    + apply keep_then_filter. rewrite Hstat. reflexivity.
Qed.

Lemma CleanupMissingFiles_videos (d : Database) (stat : string -> StatResult) :
  videos (fst (CleanupMissingFiles d stat))
  = filter (fun v => negb (doomed stat (missing_rows (videos d)) v)) (videos d).
Proof.
  unfold CleanupMissingFiles.
  rewrite <- (cleanup_loop stat (missing_rows (videos d)) (videos d) 0).
  destruct (fold_left (cleanup_row stat) (missing_rows (videos d)) (videos d, 0)).
  reflexivity.
Qed.

Lemma CleanupMissingFiles_playlists (d : Database) (stat : string -> StatResult) :
  playlists (fst (CleanupMissingFiles d stat)) = playlists d.
Proof.
  unfold CleanupMissingFiles.
  destruct (fold_left (cleanup_row stat) (missing_rows (videos d)) (videos d, 0)).
  reflexivity.
Qed.

(** A row marked missing whose file is still absent does not survive the
    cleanup, nor does any other row under its identifier. *)
Lemma CleanupMissingFiles_removes (d : Database) (stat : string -> StatResult)
      (v : Video.t) (path : string) :
  In v (videos d) ->
  Video.file_path v = Some path ->
  Video.validation_status v = "missing" ->
  stat path = StatNotExist ->
  VideoExists (fst (CleanupMissingFiles d stat)) (Video.youtube_id v) = false.
Proof.
  intros Hin Hpath Hstatus Hstat.
  assert (Hrow : In (Video.youtube_id v, path) (missing_rows (videos d))).
  { unfold missing_rows. apply in_flat_map. exists v. split; [exact Hin|].
    rewrite Hpath, Hstatus. left. reflexivity. }
  unfold VideoExists. rewrite CleanupMissingFiles_videos.
  apply not_true_is_false. intros Hex.
  apply existsb_exists in Hex. destruct Hex as [w [Hw Hid]].
  apply filter_In in Hw. destruct Hw as [_ Hw].
  apply video_is_true in Hid.
  apply negb_true_iff in Hw.
  assert (Hdoomed : doomed stat (missing_rows (videos d)) w = true).
  { unfold doomed. apply existsb_exists. exists (Video.youtube_id v, path).
    split; [exact Hrow|]. cbn [fst snd].
    rewrite Hid, String.eqb_refl, Hstat. reflexivity. }
  congruence.
Qed.

(** [AddVideo] never fails on a constraint, and every row it leaves under
    the given identifier, inserted or overwritten, carries the path made
    up by the store itself, size 0, status [pending], and the call's
    instant as [last_validated].  Such a row is among those read by the
    validation sweep; and when no file exists at the made-up path, the
    sweep marks it [missing] and the cleanup that follows deletes it. *)
Lemma AddVideo_placeholder_rows :
  forall (d : Database) (now : Time)
         (youtubeID playlistYoutubeID playlistTitle : string)
         (metadata : VideoMetadata.t),
    let d' := fst (AddVideo d now youtubeID playlistYoutubeID playlistTitle
                            metadata) in
    let filePath :=
      ".music/" ++ sanitizeFilename (VideoMetadata.Title metadata)
                ++ " [" ++ youtubeID ++ "].mp3" in
    snd (AddVideo d now youtubeID playlistYoutubeID playlistTitle metadata) = None
    /\ VideoExists d' youtubeID = true
    /\ filePath <> ""
    /\ (forall v, In v (videos d') -> Video.youtube_id v = youtubeID ->
                  Video.file_path v = Some filePath
                  /\ Video.file_size v = 0
                  /\ Video.validation_status v = "pending"
                  /\ Video.last_validated v = Some now
                  /\ In (youtubeID, filePath) (located_rows (videos d')))
    /\ (forall (stat : string -> StatResult) (later : Time),
           unique_videos d ->
           stat filePath = StatNotExist ->
           (forall v, In v (videos (fst (ValidateFiles d' stat later))) ->
                      Video.youtube_id v = youtubeID ->
                      Video.validation_status v = "missing")
           /\ VideoExists
                (fst (CleanupMissingFiles (fst (ValidateFiles d' stat later)) stat))
                youtubeID = false).
Proof.
  intros d now youtubeID playlistYoutubeID playlistTitle metadata d' filePath.
  assert (Hrows : forall v, In v (videos d') -> Video.youtube_id v = youtubeID ->
                            Video.file_path v = Some filePath
                            /\ Video.file_size v = 0
                            /\ Video.validation_status v = "pending"
                            /\ Video.last_validated v = Some now).
  { intros v Hin Hid. subst d'. rewrite AddVideo_videos in Hin.
    destruct (VideoExists d youtubeID) eqn:Hex.
    - apply in_map_iff in Hin. destruct Hin as [w [Hw Hin]].
      destruct (video_is youtubeID w) eqn:Hvw.
      + subst v. repeat split; reflexivity.
      + subst v. apply video_is_false in Hvw. contradiction.
    - apply in_app_or in Hin. destruct Hin as [Hin|[Hin|[]]].
      + exfalso. assert (In youtubeID (map Video.youtube_id (videos d))).
        { rewrite <- Hid. apply in_map. exact Hin. }
        apply VideoExists_In in H. congruence.
      + subst v. repeat split; reflexivity. }
  assert (Hexists : VideoExists d' youtubeID = true).
  { subst d'. rewrite AddVideo_exists, String.eqb_refl. apply orb_true_r. }
  assert (Hne : filePath <> "") by discriminate.
  assert (Hneb : String.eqb filePath "" = false) by reflexivity.
  clearbody filePath.
  split; [apply AddVideo_no_error|]. split; [exact Hexists|].
  split; [exact Hne|]. split.
  - intros v Hin Hid. destruct (Hrows v Hin Hid) as [Hp [Hs [Hst Hl]]].
    repeat split; try assumption.
    unfold located_rows. apply in_flat_map. exists v. split; [exact Hin|].
    unfold Video.located. rewrite Hp, Hneb, Hid. left. reflexivity.
  - intros stat later Hunique Hstat.
    assert (Hunique' : unique_videos d') by (apply AddVideo_unique; exact Hunique).
    assert (Hswept : forall v, In v (videos (fst (ValidateFiles d' stat later))) ->
                               Video.youtube_id v = youtubeID ->
                               Video.file_path v = Some filePath
                               /\ Video.validation_status v = "missing").
    { intros v Hin Hid. rewrite (ValidateFiles_videos d' stat later Hunique') in Hin.
      apply in_map_iff in Hin. destruct Hin as [w [Hw Hin]].
      assert (Hwid : Video.youtube_id w = youtubeID).
      { rewrite <- Hid, <- Hw. unfold validated.
        destruct (Video.located w); reflexivity. }
      destruct (Hrows w Hin Hwid) as [Hp _].
      subst v. unfold validated, Video.located. rewrite Hp, Hneb.
      cbn [Video.set_validation Video.file_path Video.validation_status].
      rewrite Hp, Hstat. split; reflexivity. }
    split; [intros v Hin Hid; apply (Hswept v Hin Hid)|].
    assert (Hsame : map Video.youtube_id (videos (fst (ValidateFiles d' stat later)))
                    = map Video.youtube_id (videos d')).
    { rewrite (ValidateFiles_videos d' stat later Hunique'), map_map.
      apply map_ext. intros w. unfold validated.
      destruct (Video.located w); reflexivity. }
    assert (Hin : In youtubeID
                     (map Video.youtube_id
                          (videos (fst (ValidateFiles d' stat later))))).
    { rewrite Hsame. apply VideoExists_In. exact Hexists. }
    apply in_map_iff in Hin. destruct Hin as [v [Hid Hin]].
    destruct (Hswept v Hin Hid) as [Hp Hst].
    rewrite <- Hid.
    apply (CleanupMissingFiles_removes _ stat v filePath Hin Hp Hst Hstat).
Qed.

(** *** The [UNIQUE] constraint is kept by every operation *)

Lemma NewDatabase_unique : unique_videos NewDatabase.
Proof. constructor. Qed.

Lemma GetOrCreatePlaylist_unique (d : Database) (now : Time)
      (youtubeID title : string) :
  unique_videos d ->
  unique_videos (fst (GetOrCreatePlaylist d now youtubeID title)).
Proof.
  unfold unique_videos. rewrite GetOrCreatePlaylist_videos. tauto.
Qed.

Lemma UpdateFileInfo_unique (d : Database) (now : Time)
      (youtubeID filePath : string) (fileSize : Z) :
  unique_videos d ->
  unique_videos (fst (UpdateFileInfo d now youtubeID filePath fileSize)).
Proof.
  unfold unique_videos, UpdateFileInfo. cbn [exec_update fst videos].
  intros Hunique. rewrite map_map.
  rewrite (map_ext _ Video.youtube_id); [exact Hunique|].
  intros v. destruct (video_is youtubeID v); reflexivity.
Qed.

Lemma ValidateFiles_unique (d : Database) (stat : string -> StatResult)
      (now : Time) :
  unique_videos d -> unique_videos (fst (ValidateFiles d stat now)).
Proof.
  intros Hunique. unfold unique_videos.
  rewrite (ValidateFiles_videos d stat now Hunique), map_map.
  rewrite (map_ext _ Video.youtube_id); [exact Hunique|].
  intros v. unfold validated. destruct (Video.located v); reflexivity.
Qed.

Lemma NoDup_map_filter {A B : Type} (f : A -> B) (keep : A -> bool) (l : list A) :
  NoDup (map f l) -> NoDup (map f (filter keep l)).
Proof.
  induction l as [|x l IH]; intros Hnd; [constructor|].
  cbn [map] in Hnd. inversion Hnd as [|? ? Hnotin Hnd']; subst.
  cbn [filter]. destruct (keep x); [|apply IH; exact Hnd'].
  cbn [map]. constructor; [|apply IH; exact Hnd'].
  intros Hin. apply Hnotin. apply in_map_iff in Hin.
  destruct Hin as [y [Hy Hin]]. apply filter_In in Hin.
  rewrite <- Hy. apply in_map. tauto.
Qed.

Lemma CleanupMissingFiles_unique (d : Database) (stat : string -> StatResult) :
  unique_videos d -> unique_videos (fst (CleanupMissingFiles d stat)).
Proof.
  unfold unique_videos. rewrite CleanupMissingFiles_videos.
  apply NoDup_map_filter.
Qed.

(** The store of the scenario obeys the [UNIQUE] constraint. *)
Lemma shelf_unique : unique_videos Scenario.shelf.
Proof.
  unfold unique_videos. cbn.
  repeat (constructor; [cbn; intuition discriminate|]). constructor.
Defined.

(** C8 on the store of the scenario: one file is there, one is absent,
    one cannot be checked, and one row has no path. *)
Lemma ValidateFiles_on_shelf :
  map (fun v => (Video.youtube_id v, Video.validation_status v,
                 Video.last_validated v, Video.updated_at v))
      (videos (fst (ValidateFiles Scenario.shelf Scenario.disk 7)))
  = [("a", "valid", Some 7, 7); ("b", "missing", Some 7, 7);
     ("c", "error", Some 7, 7); ("e", "pending", None, Scenario.noon)]
  /\ snd (ValidateFiles Scenario.shelf Scenario.disk 7) = 3.
Proof.
  destruct (ValidateFiles_marks_every_located_row
              Scenario.shelf Scenario.disk 7 shelf_unique)
    as [Hvideos [_ Hchecked]].
  rewrite Hvideos, Hchecked. split; reflexivity.
Defined.

(** After [AddVideo], the count of the playlist the video was filed
    under is the number of rows that reference it. *)
Lemma AddVideo_recounts_target (d : Database) (now : Time)
      (youtubeID playlistYoutubeID playlistTitle : string)
      (metadata : VideoMetadata.t) (p : Playlist.t) :
  In p (playlists (fst (AddVideo d now youtubeID playlistYoutubeID playlistTitle
                                 metadata))) ->
  Playlist.ID p
  = Playlist.ID (snd (GetOrCreatePlaylist d now playlistYoutubeID playlistTitle)) ->
  Playlist.VideoCount p
  = count_videos (Playlist.ID p)
                 (videos (fst (AddVideo d now youtubeID playlistYoutubeID
                                        playlistTitle metadata))).
Proof.
  rewrite AddVideo_unfold. cbn [fst playlists videos].
  intros Hin Hid. apply in_map_iff in Hin. destruct Hin as [q [Hq Hin]].
  destruct (Playlist.ID q =? _) eqn:Hmatch; subst p; cbn in *.
  - rewrite Hid. reflexivity.
  - apply Z.eqb_neq in Hmatch. contradiction.
Qed.

(** C2 fails on the code.  [AddVideo] recounts the playlist it files a
    video under, but [CleanupMissingFiles] writes nothing to the
    playlists table: after it has deleted the only video of a playlist,
    the stored count is still 1 while no row references the playlist.
    The upsert of [AddVideo] drifts as well when it moves a known video
    to another playlist: the count of the playlist left behind is not
    recomputed. *)
Theorem CleanupMissingFiles_leaves_video_count :
  (forall (d : Database) (stat : string -> StatResult),
      playlists (fst (CleanupMissingFiles d stat)) = playlists d)
  /\ (let d1 := fst (AddVideo NewDatabase Scenario.noon "a" "PL1" "Jazz"
                              Scenario.metadata) in
      let d2 := fst (ValidateFiles d1 Scenario.empty_disk Scenario.noon) in
      let d3 := fst (CleanupMissingFiles d2 Scenario.empty_disk) in
      map (fun p => (Playlist.VideoCount p,
                     count_videos (Playlist.ID p) (videos d1))) (playlists d1)
      = [(1, 1)]
      /\ snd (CleanupMissingFiles d2 Scenario.empty_disk) = 1
      /\ videos d3 = nil
      /\ map (fun p => (Playlist.VideoCount p,
                        count_videos (Playlist.ID p) (videos d3))) (playlists d3)
         = [(1, 0)])
  /\ (let e1 := fst (AddVideo NewDatabase Scenario.noon "a" "PL1" "Jazz"
                              Scenario.metadata) in
      let e2 := fst (AddVideo e1 Scenario.noon "a" "PL2" "Blues"
                              Scenario.metadata) in
      map (fun p => (Playlist.YoutubeID p, Playlist.VideoCount p,
                     count_videos (Playlist.ID p) (videos e2))) (playlists e2)
      = [("PL1", 1, 0); ("PL2", 1, 1)]).
Proof.
  split; [exact CleanupMissingFiles_playlists|].
  split; cbv zeta; repeat split.
Qed.

End StoreFacts.

(** ** Byte strings *)

Module StringFacts.
Import strings Notions.

Lemma HasPrefix_empty (s : string) : HasPrefix s "" = true.
Proof. destruct s; reflexivity. Qed.

Lemma HasPrefix_app (sep post : string) : HasPrefix (sep ++ post) sep = true.
Proof.
  induction sep as [|c sep IH]; [apply HasPrefix_empty|].
  simpl. rewrite Ascii.eqb_refl. exact IH.
Qed.

Lemma drop_app (sep post : string) : drop (String.length sep) (sep ++ post) = post.
Proof. induction sep as [|c sep IH]; [reflexivity | exact IH]. Qed.

Lemma Contains_HasPrefix_false (s sep : string) :
  Contains s sep = false -> HasPrefix s sep = false.
Proof.
  destruct s; simpl; intros H; apply orb_false_iff in H; tauto.
Qed.

Lemma Contains_tail_false (c : ascii) (s sep : string) :
  Contains (String c s) sep = false -> Contains s sep = false.
Proof. simpl. intros H. apply orb_false_iff in H. tauto. Qed.

Lemma Cut_None (s sep : string) : Contains s sep = false -> Cut s sep = None.
Proof.
  induction s as [|c s IH]; intros H.
  - simpl in *. rewrite orb_false_r in H. rewrite H. reflexivity.
  - cbn [Cut]. rewrite (Contains_HasPrefix_false _ _ H).
    rewrite (IH (Contains_tail_false _ _ _ H)). reflexivity.
Qed.

Lemma Cut_here (sep post : string) : Cut (sep ++ post) sep = Some ("", post).
Proof.
  pose proof (HasPrefix_app sep post) as Hp.
  pose proof (drop_app sep post) as Hd.
  destruct (sep ++ post) as [|c s]; cbn [Cut]; rewrite Hp, Hd; reflexivity.
Qed.

(** The leftmost occurrence of [sep] in [pre ++ sep ++ post] is the one
    written, provided no occurrence starts inside [pre]. *)
Lemma Cut_app (sep post : string) :
  forall pre : string,
    (forall p1 p2, pre = p1 ++ p2 -> p2 <> "" ->
                   HasPrefix (p2 ++ sep ++ post) sep = false) ->
    Cut (pre ++ sep ++ post) sep = Some (pre, post).
Proof.
  induction pre as [|c pre IH]; intros Hclear.
  - exact (Cut_here sep post).
  - assert (Hhead : HasPrefix (String c pre ++ sep ++ post) sep = false).
    { apply (Hclear "" (String c pre)); [reflexivity | discriminate]. }
    cbn [append Cut] in *. rewrite Hhead.
    rewrite IH; [reflexivity|].
    intros p1 p2 Heq Hne. apply (Hclear (String c p1) p2); [|exact Hne].
    rewrite Heq. reflexivity.
Qed.

(** A prefix match of [sep] cannot run over a byte that [sep] lacks. *)
Lemma HasPrefix_stops (c : ascii) (r : string) :
  forall sep t : string,
    has_byte c sep = false ->
    HasPrefix (t ++ String c r) sep = true -> HasPrefix t sep = true.
Proof.
  induction sep as [|a sep IH]; intros t Hc H; [apply HasPrefix_empty|].
  simpl in Hc. apply orb_false_iff in Hc. destruct Hc as [Hac Hc].
  destruct t as [|b t]; simpl in *.
  - rewrite Hac in H. discriminate.
  - apply andb_true_iff in H. destruct H as [Hab H].
    rewrite Hab. apply (IH t Hc H).
Qed.

(** Text free of [sep], followed by a byte that [sep] lacks, is skipped
    by the search for [sep]. *)
Lemma Cut_skip (c : ascii) (r sep : string) :
  has_byte c sep = false -> sep <> "" ->
  forall tok : string,
    Contains tok sep = false ->
    Cut (tok ++ String c r) sep
    = match Cut (String c r) sep with
      | Some (before, after) => Some (tok ++ before, after)
      | None => None
      end.
Proof.
  intros Hc Hsep tok. remember (Cut (String c r) sep) as found eqn:Hfound.
  induction tok as [|a tok IH]; intros Hfree.
  - cbn [append]. rewrite <- Hfound. destruct found as [[b a]|]; reflexivity.
  - assert (Hhead : HasPrefix (String a tok ++ String c r) sep = false).
    { apply not_true_is_false. intros H.
      apply (HasPrefix_stops c r sep (String a tok) Hc) in H.
      rewrite (Contains_HasPrefix_false _ _ Hfree) in H. discriminate. }
    cbn [append] in *. cbn [Cut]. rewrite Hhead.
    rewrite (IH (Contains_tail_false _ _ _ Hfree)).
    destruct found as [[b a']|]; reflexivity.
Qed.

Lemma Contains_suffix_false (sep : string) :
  forall p1 p2 : string,
    Contains (p1 ++ p2) sep = false -> Contains p2 sep = false.
Proof.
  induction p1 as [|c p1 IH]; intros p2 H; [exact H|].
  apply IH. apply (Contains_tail_false c). exact H.
Qed.

Lemma Contains_HasPrefix (s sep : string) :
  HasPrefix s sep = true -> Contains s sep = true.
Proof. intros H. destruct s; cbn [Contains]; rewrite H; reflexivity. Qed.

Lemma Contains_app_r (sep : string) :
  forall pre post : string, Contains (pre ++ sep ++ post) sep = true.
Proof.
  induction pre as [|c pre IH]; intros post.
  - apply Contains_HasPrefix. exact (HasPrefix_app sep post).
  - cbn [append Contains]. rewrite IH. apply orb_true_r.
Qed.

Lemma length_app (s t : string) :
  String.length (s ++ t) = (String.length s + String.length t)%nat.
Proof. induction s as [|c s IH]; [reflexivity | simpl; rewrite IH; reflexivity]. Qed.

(** [Split] starts with the text before the leftmost separator, or with
    the whole string when there is none. *)
Lemma Split_head (s sep : string) :
  s <> "" ->
  nth 0 (Split s sep) ""
  = match Cut s sep with
    | Some (before, _) => before
    | None => s
    end.
Proof.
  intros Hne. unfold Split. destruct s as [|c s]; [contradiction|].
  cbn [String.length genSplit].
  destruct (Cut (String c s) sep) as [[b a]|]; reflexivity.
Qed.

(** *** The bound of [Split] is never reached *)

Lemma HasPrefix_split (sep : string) :
  forall s : string,
    HasPrefix s sep = true -> s = sep ++ drop (String.length sep) s.
Proof.
  induction sep as [|a sep IH]; intros s H; [reflexivity|].
  destruct s as [|b s]; [discriminate H|].
  cbn [HasPrefix] in H. apply andb_true_iff in H. destruct H as [Hab H].
  apply Ascii.eqb_eq in Hab. subst b.
  cbn [String.length drop append]. f_equal. apply IH. exact H.
Qed.

(** [Cut] returns the text around an occurrence of [sep]. *)
Lemma Cut_sound (sep : string) :
  forall s before after : string,
    Cut s sep = Some (before, after) -> s = before ++ sep ++ after.
Proof.
  induction s as [|c s IH]; intros before after H; cbn [Cut] in H.
  - destruct (HasPrefix "" sep) eqn:Hp; [|discriminate H].
    injection H as <- <-. exact (HasPrefix_split sep "" Hp).
  - destruct (HasPrefix (String c s) sep) eqn:Hp.
    + injection H as <- <-. exact (HasPrefix_split sep (String c s) Hp).
    + destruct (Cut s sep) as [[b a]|]; [|discriminate H].
      injection H as <- <-. cbn [append]. f_equal. apply IH. reflexivity.
Qed.

Lemma Cut_shortens (sep s before after : string) :
  sep <> "" ->
  Cut s sep = Some (before, after) ->
  (String.length after < String.length s)%nat.
Proof.
  intros Hsep H. apply Cut_sound in H. subst s.
  rewrite !length_app. destruct sep; [contradiction|]. cbn [String.length]. lia.
Qed.

(** Any bound from the length of the string on gives the same pieces:
    [Split] stops because no separator is left, not because of [n]. *)
Lemma genSplit_bound (sep : string) :
  sep <> "" ->
  forall (n m : nat) (s : string),
    (String.length s <= n)%nat -> (String.length s <= m)%nat ->
    genSplit n s sep = genSplit m s sep.
Proof.
  intros Hsep.
  assert (Hempty : forall k, genSplit k "" sep = [""]).
  { intros [|k]; [reflexivity|]. cbn [genSplit Cut].
    destruct sep; [contradiction | reflexivity]. }
  induction n as [|n IH]; intros m s Hn Hm.
  - destruct s; [|cbn in Hn; lia]. rewrite !Hempty. reflexivity.
  - destruct m as [|m].
    + destruct s; [|cbn in Hm; lia]. rewrite !Hempty. reflexivity.
    + cbn [genSplit]. destruct (Cut s sep) as [[b a]|] eqn:Hcut; [|reflexivity].
      pose proof (Cut_shortens sep s b a Hsep Hcut) as Hlt.
      f_equal. apply IH; lia.
Qed.

Lemma Split_not_empty (s sep : string) : Split s sep <> nil.
Proof.
  unfold Split. destruct (String.length s); cbn [genSplit]; [discriminate|].
  destruct (Cut s sep) as [[b a]|]; discriminate.
Qed.

End StringFacts.

(** ** Ingestion *)

Module DownloaderFacts.
Import strings database downloader Notions StringFacts StoreFacts.

(** An occurrence of [list=] cannot start in the text before a written
    [list=] and run into it: its last byte, [=], would fall on one of
    the bytes [l], [i], [s], [t]. *)
Lemma list_token_no_overlap (p post : string) :
  p <> "" ->
  HasPrefix p "list=" = false ->
  HasPrefix (p ++ "list=" ++ post) "list=" = false.
Proof.
  intros Hne Hp.
  destruct p as [|c1 [|c2 [|c3 [|c4 [|c5 p]]]]]; [contradiction| | | | |];
    cbn [append HasPrefix] in *; try exact Hp;
    repeat match goal with
           | |- context [Ascii.eqb ?a ?b] =>
               is_var b; destruct (Ascii.eqb a b); cbn [andb]
           end; reflexivity.
Qed.

Lemma append_empty (s : string) : s ++ "" = s.
Proof. induction s as [|c s IH]; [reflexivity | simpl; rewrite IH; reflexivity]. Qed.

(** When [sep] occurs in [s], [Split] has at least two pieces, and the
    second is the text between the first two occurrences. *)
Lemma Split_second (s sep before after : string) :
  Cut s sep = Some (before, after) ->
  (2 <= String.length s)%nat ->
  (1 <? List.length (Split s sep))%nat = true
  /\ nth 1 (Split s sep) ""
     = match Cut after sep with
       | Some (piece, _) => piece
       | None => after
       end.
Proof.
  intros Hcut Hlen. unfold Split.
  destruct (String.length s) as [|[|n]]; [lia | lia |].
  cbn [genSplit]. rewrite Hcut.
  destruct (Cut after sep) as [[piece rest]|]; split; reflexivity.
Qed.

Lemma Cut_list_token (pre post : string) :
  Contains pre "list=" = false ->
  Cut (pre ++ "list=" ++ post) "list=" = Some (pre, post).
Proof.
  intros Hpre. apply Cut_app. intros p1 p2 Heq Hne.
  apply list_token_no_overlap; [exact Hne|].
  apply Contains_HasPrefix_false. apply (Contains_suffix_false _ p1).
  rewrite <- Heq. exact Hpre.
Qed.

Lemma Cut_ampersand (tok rest : string) :
  Contains tok "&" = false ->
  Cut (tok ++ "&" ++ rest) "&" = Some (tok, rest).
Proof.
  intros Htok. apply Cut_app. intros p1 p2 Heq Hne.
  destruct p2 as [|c p2]; [contradiction|].
  assert (H : HasPrefix (String c p2) "&" = false).
  { apply Contains_HasPrefix_false. apply (Contains_suffix_false _ p1).
    rewrite <- Heq. exact Htok. }
  cbn [append HasPrefix] in *. exact H.
Qed.

(** The second piece of the split on [list=], cut at its first [&], is the
    token. *)
Lemma token_of_piece (tok rest : string) :
  tok <> "" ->
  Contains tok "&" = false ->
  Contains tok "list=" = false ->
  rest = "" \/ (exists r, rest = String "&" r) ->
  nth 0 (Split match Cut (tok ++ rest) "list=" with
               | Some (piece, _) => piece
               | None => tok ++ rest
               end "&") ""
  = tok.
Proof.
  intros Hne Hamp Hlist [Hrest|[r Hrest]]; subst rest.
  - rewrite append_empty, (Cut_None _ _ Hlist).
    rewrite (Split_head _ _ Hne), (Cut_None _ _ Hamp). reflexivity.
  - assert (Hpiece : exists x, match Cut (tok ++ String "&" r) "list=" with
                               | Some (piece, _) => piece
                               | None => tok ++ String "&" r
                               end = tok ++ "&" ++ x).
    { rewrite (Cut_skip "&" r "list=" eq_refl) by (discriminate || exact Hlist).
      cbn [Cut HasPrefix Ascii.eqb Bool.eqb andb].
      destruct (Cut r "list=") as [[b a]|]; [exists b | exists r]; reflexivity. }
    destruct Hpiece as [x Hpiece]. rewrite Hpiece.
    rewrite Split_head.
    + rewrite (Cut_ampersand tok x Hamp). reflexivity.
    + destruct tok; [contradiction | discriminate].
Qed.

(** A reference that names neither [youtube.com] nor [youtu.be] is taken
    as the identifier itself. *)
Lemma extractPlaylistID_direct (url : string) :
  Contains url "youtube.com" = false ->
  Contains url "youtu.be" = false ->
  extractPlaylistID url = url.
Proof. intros H1 H2. unfold extractPlaylistID. rewrite H1, H2. reflexivity. Qed.

(** The identifier extracted is empty for the empty reference only: in
    every other case the function falls back on the reference itself. *)
Lemma extractPlaylistID_empty (url : string) :
  extractPlaylistID url = "" <-> url = "".
Proof.
  split; [|intros ->; reflexivity].
  unfold extractPlaylistID.
  destruct (negb (Contains url "youtube.com") && negb (Contains url "youtu.be"));
    [tauto|].
  destruct (Contains url "list="); [|tauto].
  destruct (1 <? List.length (Split url "list="))%nat; [|tauto].
  destruct (String.eqb (nth 0 (Split (nth 1 (Split url "list=") "") "&") "") "")
    eqn:Hid; cbn [negb]; [tauto|].
  apply String.eqb_neq in Hid. intros H. contradiction.
Qed.

(** From a YouTube address the token after the first [list=], up to the
    next [&], is taken. *)
Lemma extractPlaylistID_token (pre tok rest : string) :
  Contains (pre ++ "list=" ++ tok ++ rest) "youtube.com" = true
  \/ Contains (pre ++ "list=" ++ tok ++ rest) "youtu.be" = true ->
  Contains pre "list=" = false ->
  tok <> "" ->
  Contains tok "&" = false ->
  Contains tok "list=" = false ->
  rest = "" \/ (exists r, rest = String "&" r) ->
  extractPlaylistID (pre ++ "list=" ++ tok ++ rest) = tok.
Proof.
  intros Hyt Hpre Hne Hamp Hlist Hrest. unfold extractPlaylistID.
  assert (Hdirect : negb (Contains (pre ++ "list=" ++ tok ++ rest) "youtube.com")
                    && negb (Contains (pre ++ "list=" ++ tok ++ rest) "youtu.be")
                    = false).
  { destruct Hyt as [H|H]; rewrite H; [reflexivity | apply andb_false_r]. }
  rewrite Hdirect, (Contains_app_r "list=" pre (tok ++ rest)).
  destruct (Split_second _ "list=" pre (tok ++ rest)
                         (Cut_list_token pre (tok ++ rest) Hpre))
    as [Hlen Hsecond].
  { rewrite length_app. cbn [append String.length]. lia. }
  rewrite Hlen, Hsecond, (token_of_piece tok rest Hne Hamp Hlist Hrest).
  apply String.eqb_neq in Hne. rewrite Hne. reflexivity.
Qed.

(** *** The loop of [ProcessPlaylist] *)

Section Loop.

Variables (env : Env) (dl : Downloader) (playlist : Playlist.t)
          (playlistName : string).

Lemma processVideo_calls (callback : bool) (d : Database) (calls : list Call)
      (video : VideoInfo.t) :
  snd (processVideo env dl playlist playlistName callback (d, calls) video)
  = List.app calls
             (if callback then told env dl playlistName d (VideoInfo.ID video)
              else nil).
Proof.
  unfold processVideo, told, fetched, invoke.
  destruct (driver_fails env (OpVideoExists (VideoInfo.ID video)));
    [destruct callback; cbn [snd]; rewrite ?app_nil_r; reflexivity|].
  destruct (VideoExists d (VideoInfo.ID video));
    [destruct callback; cbn [snd]; rewrite ?app_nil_r; reflexivity|].
  destruct (downloadVideo env dl (VideoInfo.ID video) playlistName)
    as [e|[filePath fileSize]];
    [destruct callback; cbn [snd]; rewrite ?app_nil_r; reflexivity|].
  destruct (driver_fails env (OpAddVideo (VideoInfo.ID video)));
    [destruct callback; cbn [snd]; rewrite ?app_nil_r; reflexivity|].
  pose proof (AddVideo_no_error d (now_at env (OpAddVideo (VideoInfo.ID video)))
                                (VideoInfo.ID video) (Playlist.YoutubeID playlist)
                                (Playlist.Title playlist) (metadata_of video))
    as Hok.
  destruct (AddVideo d (now_at env (OpAddVideo (VideoInfo.ID video)))
                     (VideoInfo.ID video) (Playlist.YoutubeID playlist)
                     (Playlist.Title playlist) (metadata_of video))
    as [d1 [e|]]; [discriminate Hok|].
  destruct callback; cbn [snd negb andb]; rewrite ?app_nil_r; reflexivity.
Qed.

Lemma processVideo_exists (callback : bool) (d : Database) (calls : list Call)
      (video : VideoInfo.t) (other : string) :
  VideoExists (fst (processVideo env dl playlist playlistName callback
                                 (d, calls) video)) other
  = VideoExists d other
    || String.eqb (VideoInfo.ID video) other
       && fetched env dl playlistName (VideoInfo.ID video).
Proof.
  unfold processVideo, fetched.
  destruct (driver_fails env (OpVideoExists (VideoInfo.ID video)));
    [cbn [fst negb andb]; rewrite andb_false_r, orb_false_r; reflexivity|].
  destruct (VideoExists d (VideoInfo.ID video)) eqn:Hex.
  { cbn [fst]. destruct (String.eqb (VideoInfo.ID video) other) eqn:Heq.
    - apply String.eqb_eq in Heq. subst other. rewrite Hex. reflexivity.
    - rewrite orb_false_r. reflexivity. }
  destruct (downloadVideo env dl (VideoInfo.ID video) playlistName)
    as [e|[filePath fileSize]];
    [cbn [fst negb andb]; rewrite andb_false_r, orb_false_r; reflexivity|].
  destruct (driver_fails env (OpAddVideo (VideoInfo.ID video)));
    [cbn [fst negb andb]; rewrite andb_false_r, orb_false_r; reflexivity|].
  pose proof (AddVideo_no_error d (now_at env (OpAddVideo (VideoInfo.ID video)))
                                (VideoInfo.ID video) (Playlist.YoutubeID playlist)
                                (Playlist.Title playlist) (metadata_of video))
    as Hok.
  pose proof (AddVideo_exists d (now_at env (OpAddVideo (VideoInfo.ID video)))
                              (VideoInfo.ID video) (Playlist.YoutubeID playlist)
                              (Playlist.Title playlist) (metadata_of video) other)
    as Hadd.
  destruct (AddVideo d (now_at env (OpAddVideo (VideoInfo.ID video)))
                     (VideoInfo.ID video) (Playlist.YoutubeID playlist)
                     (Playlist.Title playlist) (metadata_of video))
    as [d1 [e|]]; [discriminate Hok|].
  cbn [fst negb andb] in *. rewrite andb_true_r.
  destruct (driver_fails env (OpUpdateFileInfo (VideoInfo.ID video)));
    [exact Hadd|].
  rewrite UpdateFileInfo_exists. exact Hadd.
Qed.

(** A video brought in by the loop is one of the listed ones that could be
    fetched; nothing is ever removed. *)
Lemma loop_exists (callback : bool) (other : string) :
  forall (listing : list VideoInfo.t) (d : Database) (calls : list Call),
    VideoExists (fst (fold_left (processVideo env dl playlist playlistName callback)
                                listing (d, calls))) other
    = VideoExists d other
      || existsb (fun v => String.eqb (VideoInfo.ID v) other) listing
         && fetched env dl playlistName other.
Proof.
  induction listing as [|v listing IH]; intros d calls.
  - cbn [fold_left fst existsb andb]. rewrite orb_false_r. reflexivity.
  - cbn [fold_left existsb].
    destruct (processVideo env dl playlist playlistName callback (d, calls) v)
      as [d1 calls1] eqn:Hstep.
    rewrite IH.
    replace d1 with (fst (processVideo env dl playlist playlistName callback
                                       (d, calls) v)) by (rewrite Hstep; reflexivity).
    rewrite processVideo_exists.
    destruct (String.eqb (VideoInfo.ID v) other) eqn:Heq.
    + apply String.eqb_eq in Heq. rewrite Heq.
      destruct (VideoExists d other), (fetched env dl playlistName other),
        (existsb (fun v0 => String.eqb (VideoInfo.ID v0) other) listing);
        reflexivity.
    + destruct (VideoExists d other),
        (fetched env dl playlistName (VideoInfo.ID v)),
        (fetched env dl playlistName other),
        (existsb (fun v0 => String.eqb (VideoInfo.ID v0) other) listing);
        reflexivity.
Qed.

(** The callback hears [downloaded = true] about a video exactly when the
    video was not in the store, is listed, and could be fetched. *)
Lemma loop_downloaded (other : string) :
  forall (listing : list VideoInfo.t) (d : Database) (calls : list Call),
    In (other, true)
       (snd (fold_left (processVideo env dl playlist playlistName true)
                       listing (d, calls)))
    <-> In (other, true) calls
        \/ (VideoExists d other = false
            /\ existsb (fun v => String.eqb (VideoInfo.ID v) other) listing = true
            /\ fetched env dl playlistName other = true).
Proof.
  induction listing as [|v listing IH]; intros d calls.
  - cbn [fold_left snd existsb]. split; [tauto|].
    intros [H|[_ [H _]]]; [exact H | discriminate H].
  - cbn [fold_left existsb].
    pose proof (processVideo_calls true d calls v) as Hcalls.
    pose proof (processVideo_exists true d calls v other) as Hex.
    destruct (processVideo env dl playlist playlistName true (d, calls) v)
      as [d1 calls1].
    cbn [fst snd] in Hcalls, Hex. rewrite IH, Hcalls, Hex, in_app_iff.
    unfold told.
    destruct (String.eqb (VideoInfo.ID v) other) eqn:Heq.
    + apply String.eqb_eq in Heq. rewrite Heq. cbn [orb andb].
      destruct (driver_fails env (OpVideoExists other)) eqn:Hprobe.
      * assert (Hf : fetched env dl playlistName other = false)
          by (unfold fetched; rewrite Hprobe; reflexivity).
        rewrite Hf. cbn [In]. rewrite orb_false_r.
        intuition discriminate.
      * destruct (VideoExists d other), (fetched env dl playlistName other);
          cbn [In orb]; intuition (try discriminate; try congruence).
    + cbn [orb andb]. rewrite orb_false_r.
      assert (Hnot : ~ In (other, true)
                       (if driver_fails env (OpVideoExists (VideoInfo.ID v))
                        then nil
                        else if VideoExists d (VideoInfo.ID v)
                             then [(VideoInfo.ID v, false)]
                             else if fetched env dl playlistName (VideoInfo.ID v)
                                  then [(VideoInfo.ID v, true)] else nil)).
      { apply String.eqb_neq in Heq.
        destruct (driver_fails env (OpVideoExists (VideoInfo.ID v)));
          [tauto|].
        destruct (VideoExists d (VideoInfo.ID v));
          [cbn [In]; intuition congruence|].
        destruct (fetched env dl playlistName (VideoInfo.ID v));
          cbn [In]; intuition congruence. }
      tauto.
Qed.

(** When every listed video is already in the store and the probes
    answer, the loop writes nothing and reports each video, in order, as
    not downloaded. *)
Lemma loop_all_known :
  forall (listing : list VideoInfo.t) (d : Database) (calls : list Call),
    (forall v, In v listing ->
               VideoExists d (VideoInfo.ID v) = true
               /\ driver_fails env (OpVideoExists (VideoInfo.ID v)) = false) ->
    fold_left (processVideo env dl playlist playlistName true) listing (d, calls)
    = (d, List.app calls (map (fun v => (VideoInfo.ID v, false)) listing)).
Proof.
  induction listing as [|v listing IH]; intros d calls Hknown.
  - cbn [fold_left map]. rewrite app_nil_r. reflexivity.
  - cbn [fold_left map].
    destruct (Hknown v (or_introl eq_refl)) as [Hex Hprobe].
    unfold processVideo at 2. rewrite Hprobe, Hex. cbn [invoke].
    rewrite IH by (intros w Hw; apply Hknown; right; exact Hw).
    rewrite <- app_assoc. reflexivity.
Qed.

End Loop.

Lemma processVideo_playlist_ids (env : Env) (dl : Downloader)
      (playlist : Playlist.t) (playlistName : string) (callback : bool)
      (d : Database) (calls : list Call) (video : VideoInfo.t) (y : string) :
  In y (map Playlist.YoutubeID (playlists d)) ->
  In y (map Playlist.YoutubeID
            (playlists (fst (processVideo env dl playlist playlistName callback
                                          (d, calls) video)))).
Proof.
  intros Hin. unfold processVideo.
  destruct (driver_fails env (OpVideoExists (VideoInfo.ID video))); [exact Hin|].
  destruct (VideoExists d (VideoInfo.ID video)); [exact Hin|].
  destruct (downloadVideo env dl (VideoInfo.ID video) playlistName)
    as [e|[filePath fileSize]]; [exact Hin|].
  destruct (driver_fails env (OpAddVideo (VideoInfo.ID video))); [exact Hin|].
  pose proof (AddVideo_playlist_ids
                d (now_at env (OpAddVideo (VideoInfo.ID video)))
                (VideoInfo.ID video) (Playlist.YoutubeID playlist)
                (Playlist.Title playlist) (metadata_of video) y Hin) as Hadd.
  destruct (AddVideo _ _ _ _ _ _) as [d1 [e|]]; cbn [fst] in *; [exact Hadd|].
  destruct (driver_fails env (OpUpdateFileInfo (VideoInfo.ID video)));
    [exact Hadd|].
  rewrite UpdateFileInfo_playlists. exact Hadd.
Qed.

Lemma loop_playlist_ids (env : Env) (dl : Downloader)
      (playlist : Playlist.t) (playlistName : string) (callback : bool)
      (y : string) :
  forall (listing : list VideoInfo.t) (d : Database) (calls : list Call),
    In y (map Playlist.YoutubeID (playlists d)) ->
    In y (map Playlist.YoutubeID
              (playlists (fst (fold_left
                                 (processVideo env dl playlist playlistName callback)
                                 listing (d, calls))))).
Proof.
  induction listing as [|v listing IH]; intros d calls Hin; [exact Hin|].
  cbn [fold_left].
  pose proof (processVideo_playlist_ids env dl playlist playlistName callback
                                        d calls v y Hin) as Hstep.
  destruct (processVideo env dl playlist playlistName callback (d, calls) v)
    as [d1 calls1].
  apply IH. exact Hstep.
Qed.

Lemma processVideo_unique (env : Env) (dl : Downloader)
      (playlist : Playlist.t) (playlistName : string) (callback : bool)
      (d : Database) (calls : list Call) (video : VideoInfo.t) :
  unique_videos d ->
  unique_videos (fst (processVideo env dl playlist playlistName callback
                                   (d, calls) video)).
Proof.
  intros Hunique. unfold processVideo.
  destruct (driver_fails env (OpVideoExists (VideoInfo.ID video)));
    [exact Hunique|].
  destruct (VideoExists d (VideoInfo.ID video)); [exact Hunique|].
  destruct (downloadVideo env dl (VideoInfo.ID video) playlistName)
    as [e|[filePath fileSize]]; [exact Hunique|].
  destruct (driver_fails env (OpAddVideo (VideoInfo.ID video)));
    [exact Hunique|].
  pose proof (AddVideo_unique
                d (now_at env (OpAddVideo (VideoInfo.ID video)))
                (VideoInfo.ID video) (Playlist.YoutubeID playlist)
                (Playlist.Title playlist) (metadata_of video) Hunique) as Hadd.
  destruct (AddVideo _ _ _ _ _ _) as [d1 [e|]]; cbn [fst] in *; [exact Hadd|].
  destruct (driver_fails env (OpUpdateFileInfo (VideoInfo.ID video)));
    [exact Hadd|].
  apply UpdateFileInfo_unique. exact Hadd.
Qed.

(** Ingestion keeps the [UNIQUE] constraint: every store reached from the
    empty one by passes, sweeps and cleanups satisfies it. *)
Lemma ProcessPlaylist_unique (env : Env) (dl : Downloader) (d : Database)
      (playlistURL playlistName : string) (callback : bool) :
  unique_videos d ->
  unique_videos (db (ProcessPlaylist env dl d playlistURL playlistName callback)).
Proof.
  intros Hunique. unfold ProcessPlaylist.
  destruct (String.eqb (extractPlaylistID playlistURL) ""); [exact Hunique|].
  destruct (driver_fails env _); [exact Hunique|].
  pose proof (GetOrCreatePlaylist_unique
                d (now_at env (OpGetOrCreatePlaylist (extractPlaylistID playlistURL)))
                (extractPlaylistID playlistURL) playlistName Hunique) as Hstart.
  destruct (GetOrCreatePlaylist _ _ _ _) as [d1 playlist]. cbn [fst] in Hstart.
  destruct (getPlaylistVideos env playlistURL) as [e|listing]; [exact Hstart|].
  assert (Hloop : forall l st, unique_videos (fst st) ->
                    unique_videos
                      (fst (fold_left (processVideo env dl playlist playlistName
                                                    callback) l st))).
  { induction l as [|v l IH]; intros [d0 c0] H0; [exact H0|].
    cbn [fold_left]. apply IH.
    apply (processVideo_unique env dl playlist playlistName callback d0 c0 v H0). }
  specialize (Hloop listing (d1, nil) Hstart).
  destruct (fold_left _ _ _) as [d2 calls2]. exact Hloop.
Qed.

(** *** Whole passes *)

Lemma listing_of_ids (playlistURL : string) (entries : list VideoInfo.t) :
  map VideoInfo.ID (listing_of playlistURL entries)
  = filter (fun x => negb (String.eqb x "")) (map VideoInfo.ID entries).
Proof.
  induction entries as [|e entries IH]; [reflexivity|].
  unfold listing_of in *. cbn [flat_map map filter].
  destruct (String.eqb (VideoInfo.ID e) ""); cbn [negb List.app map].
  - exact IH.
  - rewrite IH. reflexivity.
Qed.

Lemma listed_iff (playlistURL : string) (entries : list VideoInfo.t) (x : string) :
  existsb (fun v => String.eqb (VideoInfo.ID v) x) (listing_of playlistURL entries)
  = true
  <-> x <> "" /\ In x (map VideoInfo.ID entries).
Proof.
  rewrite existsb_exists. split.
  - intros [v [Hin Hid]]. apply String.eqb_eq in Hid.
    assert (H : In x (map VideoInfo.ID (listing_of playlistURL entries))).
    { rewrite <- Hid. apply in_map. exact Hin. }
    rewrite listing_of_ids in H. apply filter_In in H. destruct H as [H1 H2].
    split; [|exact H1]. apply String.eqb_neq. apply negb_true_iff. exact H2.
  - intros [Hne Hin].
    assert (H : In x (map VideoInfo.ID (listing_of playlistURL entries))).
    { rewrite listing_of_ids. apply filter_In. split; [exact Hin|].
      apply negb_true_iff. apply String.eqb_neq. exact Hne. }
    apply in_map_iff in H. destruct H as [v [Hid Hv]].
    exists v. split; [exact Hv | apply String.eqb_eq; exact Hid].
Qed.

(** A pass that gets as far as the loop. *)
Lemma ProcessPlaylist_run (env : Env) (dl : Downloader) (d : Database)
      (playlistURL playlistName : string) (callback : bool)
      (entries : list VideoInfo.t) :
  extractPlaylistID playlistURL <> "" ->
  driver_fails env (OpGetOrCreatePlaylist (extractPlaylistID playlistURL)) = false ->
  yt_dlp_dump_single_json env playlistURL = Some entries ->
  let start :=
    GetOrCreatePlaylist
      d (now_at env (OpGetOrCreatePlaylist (extractPlaylistID playlistURL)))
      (extractPlaylistID playlistURL) playlistName in
  let final :=
    fold_left (processVideo env dl (snd start) playlistName callback)
              (listing_of playlistURL entries) (fst start, nil) in
  ProcessPlaylist env dl d playlistURL playlistName callback
  = BuildOutcome (fst final) (snd final) None.
Proof.
  intros Hid Hdriver Hlist start final. subst start final.
  unfold ProcessPlaylist, getPlaylistVideos.
  apply String.eqb_neq in Hid. rewrite Hid, Hdriver, Hlist.
  destruct (GetOrCreatePlaylist _ _ _ _) as [d1 playlist].
  fold (listing_of playlistURL entries). cbn [fst snd].
  destruct (fold_left _ _ _) as [d2 calls2]. reflexivity.
Qed.

Lemma GetOrCreatePlaylist_exists (d : Database) (now : Time)
      (youtubeID title other : string) :
  VideoExists (fst (GetOrCreatePlaylist d now youtubeID title)) other
  = VideoExists d other.
Proof. unfold VideoExists. rewrite GetOrCreatePlaylist_videos. reflexivity. Qed.

(** A pass whose listing succeeds returns no error, whatever happens to
    single videos.  The callback hears [downloaded = true] about exactly
    the listed videos that were not in the store and whose own existence
    probe, fetch and insertion worked; these, and no other listed video,
    are added to the store. *)
Lemma ProcessPlaylist_item_outcomes :
  forall (env : Env) (dl : Downloader) (d : Database)
         (playlistURL playlistName : string) (entries : list VideoInfo.t),
    extractPlaylistID playlistURL <> "" ->
    driver_fails env (OpGetOrCreatePlaylist (extractPlaylistID playlistURL)) = false ->
    yt_dlp_dump_single_json env playlistURL = Some entries ->
    let r := ProcessPlaylist env dl d playlistURL playlistName true in
    err r = None
    /\ (forall x,
           In (x, true) (calls r)
           <-> (x <> "" /\ In x (map VideoInfo.ID entries))
               /\ VideoExists d x = false
               /\ fetched env dl playlistName x = true)
    /\ (forall x,
           VideoExists (db r) x = true
           <-> VideoExists d x = true \/ In (x, true) (calls r))
    /\ (forall v1 v2 v3,
           entries = [v1; v2; v3] ->
           VideoInfo.ID v1 <> "" -> VideoInfo.ID v2 <> "" -> VideoInfo.ID v3 <> "" ->
           VideoExists d (VideoInfo.ID v1) = false ->
           VideoExists d (VideoInfo.ID v2) = false ->
           VideoExists d (VideoInfo.ID v3) = false ->
           fetched env dl playlistName (VideoInfo.ID v1) = true ->
           (exists e, downloadVideo env dl (VideoInfo.ID v2) playlistName = inl e) ->
           fetched env dl playlistName (VideoInfo.ID v3) = true ->
           VideoExists (db r) (VideoInfo.ID v1) = true
           /\ VideoExists (db r) (VideoInfo.ID v2) = false
           /\ VideoExists (db r) (VideoInfo.ID v3) = true
           /\ (forall x, In (x, true) (calls r)
                         <-> x = VideoInfo.ID v1 \/ x = VideoInfo.ID v3)).
Proof.
  intros env dl d playlistURL playlistName entries Hid Hdriver Hlist r.
  subst r. rewrite (ProcessPlaylist_run _ _ _ _ _ _ _ Hid Hdriver Hlist).
  cbn [err calls db].
  set (start := GetOrCreatePlaylist _ _ _ _).
  assert (Hcalls : forall x,
             In (x, true)
                (snd (fold_left (processVideo env dl (snd start) playlistName true)
                                (listing_of playlistURL entries) (fst start, nil)))
             <-> (x <> "" /\ In x (map VideoInfo.ID entries))
                 /\ VideoExists d x = false
                 /\ fetched env dl playlistName x = true).
  { intros x. rewrite loop_downloaded, listed_iff.
    subst start. rewrite GetOrCreatePlaylist_exists. cbn [In]. tauto. }
  assert (Hstore : forall x,
             VideoExists
               (fst (fold_left (processVideo env dl (snd start) playlistName true)
                               (listing_of playlistURL entries) (fst start, nil))) x
             = true
             <-> VideoExists d x = true
                 \/ In (x, true)
                       (snd (fold_left (processVideo env dl (snd start)
                                                     playlistName true)
                                       (listing_of playlistURL entries)
                                       (fst start, nil)))).
  { intros x. rewrite Hcalls, loop_exists.
    subst start. rewrite GetOrCreatePlaylist_exists.
    rewrite orb_true_iff, andb_true_iff, listed_iff.
    destruct (VideoExists d x); intuition discriminate. }
  split; [reflexivity|]. split; [exact Hcalls|]. split; [exact Hstore|].
  intros v1 v2 v3 Hentries Hn1 Hn2 Hn3 He1 He2 He3 Hf1 [e Hf2] Hf3.
  assert (Hbroken : fetched env dl playlistName (VideoInfo.ID v2) = false).
  { unfold fetched. rewrite Hf2. apply andb_false_iff. left. apply andb_false_r. }
  assert (Honly : forall x,
             In (x, true)
                (snd (fold_left (processVideo env dl (snd start) playlistName true)
                                (listing_of playlistURL entries) (fst start, nil)))
             <-> x = VideoInfo.ID v1 \/ x = VideoInfo.ID v3).
  { intros x. rewrite Hcalls, Hentries. cbn [map In]. split.
    - intros [[_ [H|[H|[H|[]]]]] [_ Hf]]; subst x; [tauto | congruence | tauto].
    - intros [H|H]; subst x; tauto. }
  split; [apply Hstore; right; apply Honly; left; reflexivity|].
  split; [|split; [apply Hstore; right; apply Honly; right; reflexivity
                  | exact Honly]].
  apply not_true_is_false. intros H. apply Hstore in H.
  destruct H as [H|H]; [congruence|].
  apply Honly in H. destruct H as [H|H]; rewrite H in Hbroken; congruence.
Qed.

(** C3 as stated does not hold: with an empty store and a listing that
    fails, the pass returns an error but has already inserted the row of
    the playlist. *)
Lemma listing_failure_leaves_playlist_row :
  let r := ProcessPlaylist (Scenario.world None (fun _ => false))
                           Scenario.dl NewDatabase "PL1" "Jazz" true in
  yt_dlp_dump_single_json (Scenario.world None (fun _ => false)) "PL1" = None
  /\ err r = Some ErrGetPlaylistVideos
  /\ db r <> NewDatabase
  /\ map Playlist.YoutubeID (playlists (db r)) = ["PL1"].
Proof.
  cbv zeta. split; [reflexivity|]. split; [reflexivity|].
  split; [discriminate | reflexivity].
Qed.

(** C3, amended.  When the listing fails the pass returns an error, has
    invoked no callback, and has neither created nor changed any video
    row nor changed any existing playlist row.  The playlist row is looked
    up or created before the listing is asked for: when the store had no
    row for the identifier, the one row appended, with the given name and
    a count of zero, stays. *)
Theorem ProcessPlaylist_listing_failure :
  forall (env : Env) (dl : Downloader) (d : Database)
         (playlistURL playlistName : string) (callback : bool),
    yt_dlp_dump_single_json env playlistURL = None ->
    let r := ProcessPlaylist env dl d playlistURL playlistName callback in
    let id := extractPlaylistID playlistURL in
    let now := now_at env (OpGetOrCreatePlaylist id) in
    err r <> None
    /\ calls r = nil
    /\ videos (db r) = videos d
    /\ (playlists (db r) = playlists d
        \/ (find (by_youtube_id id) (playlists d) = None
            /\ playlists (db r)
               = List.app (playlists d)
                          [Playlist.Build (playlists_seq d + 1) id playlistName
                                          None None None None 0 now now now]))
    /\ (id <> "" -> driver_fails env (OpGetOrCreatePlaylist id) = false ->
        err r = Some ErrGetPlaylistVideos
        /\ exists p, In p (playlists (db r)) /\ Playlist.YoutubeID p = id).
Proof.
  intros env dl d playlistURL playlistName callback Hlist r id now.
  subst r id now. unfold ProcessPlaylist, getPlaylistVideos. rewrite Hlist.
  destruct (String.eqb (extractPlaylistID playlistURL) "") eqn:Hid.
  { cbn [err calls db]. apply String.eqb_eq in Hid.
    repeat split; try discriminate; try reflexivity; try tauto. }
  destruct (driver_fails env (OpGetOrCreatePlaylist (extractPlaylistID playlistURL)))
    eqn:Hdriver.
  { cbn [err calls db].
    repeat split; try discriminate; try reflexivity; try tauto. }
  pose proof (GetOrCreatePlaylist_returns_row
                d (now_at env (OpGetOrCreatePlaylist (extractPlaylistID playlistURL)))
                (extractPlaylistID playlistURL) playlistName) as [Hin Hrow].
  destruct (find (by_youtube_id (extractPlaylistID playlistURL)) (playlists d))
    as [p|] eqn:Hfind.
  - rewrite (GetOrCreatePlaylist_existing _ _ _ _ _ Hfind) in *.
    cbn [err calls db fst snd] in *.
    repeat split; try discriminate; try reflexivity; try tauto.
    exists p. split; assumption.
  - rewrite (GetOrCreatePlaylist_fresh _ _ _ _ Hfind) in *.
    cbn [err calls db fst snd playlists videos] in *.
    repeat split; try discriminate; try reflexivity; try tauto.
    eexists. split; [exact Hin | exact Hrow].
Qed.

(** The amended C3 at work on the empty store. *)
Lemma listing_failure_on_empty_store :
  let r := ProcessPlaylist (Scenario.world None (fun _ => false))
                           Scenario.dl NewDatabase "PL1" "Jazz" true in
  err r <> None
  /\ calls r = nil
  /\ videos (db r) = nil
  /\ (playlists (db r) = nil
      \/ (find (by_youtube_id "PL1") (@nil Playlist.t) = None
          /\ playlists (db r)
             = [Playlist.Build 1 "PL1" "Jazz" None None None None 0
                               Scenario.noon Scenario.noon Scenario.noon])).
Proof.
  cbv zeta.
  destruct (ProcessPlaylist_listing_failure
              (Scenario.world None (fun _ => false))
              Scenario.dl NewDatabase "PL1" "Jazz" true eq_refl)
    as [H1 [H2 [H3 [H4 _]]]].
  split; [exact H1|]. split; [exact H2|]. split; [exact H3 | exact H4].
Defined.

(** The pass fails with the invalid-reference error exactly when
    [extractPlaylistID] yields the empty string, and then leaves the
    store as it was and invokes no callback.  A reference that names
    neither [youtube.com] nor [youtu.be] is itself the identifier; from
    an address that names one of them and holds [list=] followed by a
    non-empty token without [list=] in it, the token, up to the next [&],
    is the identifier.  With a non-empty identifier, and unless the
    driver fails the call, the pass goes on with a playlist row under
    that identifier. *)
Lemma ProcessPlaylist_invalid_reference :
  forall (env : Env) (dl : Downloader) (d : Database)
         (playlistURL playlistName : string) (callback : bool),
    let r := ProcessPlaylist env dl d playlistURL playlistName callback in
    (err r = Some (ErrInvalidPlaylistURL playlistURL)
     <-> extractPlaylistID playlistURL = "")
    /\ (extractPlaylistID playlistURL = "" -> db r = d /\ calls r = nil)
    /\ (strings.Contains playlistURL "youtube.com" = false ->
        strings.Contains playlistURL "youtu.be" = false ->
        extractPlaylistID playlistURL = playlistURL
        /\ (err r = Some (ErrInvalidPlaylistURL playlistURL) <-> playlistURL = ""))
    /\ (forall pre tok rest : string,
           playlistURL = pre ++ "list=" ++ tok ++ rest ->
           strings.Contains playlistURL "youtube.com" = true
           \/ strings.Contains playlistURL "youtu.be" = true ->
           strings.Contains pre "list=" = false ->
           tok <> "" ->
           strings.Contains tok "&" = false ->
           strings.Contains tok "list=" = false ->
           rest = "" \/ (exists r, rest = String "&" r) ->
           extractPlaylistID playlistURL = tok)
    /\ (extractPlaylistID playlistURL <> "" ->
        driver_fails env (OpGetOrCreatePlaylist (extractPlaylistID playlistURL))
        = false ->
        exists p, In p (playlists (db r))
                  /\ Playlist.YoutubeID p = extractPlaylistID playlistURL).
Proof.
  intros env dl d playlistURL playlistName callback r.
  assert (Hexact : err r = Some (ErrInvalidPlaylistURL playlistURL)
                   <-> extractPlaylistID playlistURL = "").
  { subst r. unfold ProcessPlaylist.
    destruct (String.eqb (extractPlaylistID playlistURL) "") eqn:Hid.
    - apply String.eqb_eq in Hid. cbn [err]. tauto.
    - apply String.eqb_neq in Hid.
      destruct (driver_fails env _); [cbn [err]; split; [discriminate | tauto]|].
      destruct (GetOrCreatePlaylist _ _ _ _) as [d1 playlist].
      destruct (getPlaylistVideos env playlistURL) as [e|listing];
        [cbn [err]; split; [discriminate | tauto]|].
      destruct (fold_left _ _ _) as [d2 calls2].
      cbn [err]. split; [discriminate | tauto]. }
  split; [exact Hexact|]. split; [|split; [|split]].
  - intros Hid. subst r. unfold ProcessPlaylist.
    rewrite Hid. cbn [String.eqb db calls]. split; reflexivity.
  - intros H1 H2.
    pose proof (extractPlaylistID_direct playlistURL H1 H2) as Hd.
    split; [exact Hd|]. rewrite Hexact, Hd. tauto.
  - intros pre tok rest Hurl Hyt Hpre Hne Hamp Hlist Hrest. subst playlistURL.
    apply extractPlaylistID_token; assumption.
  - intros Hid Hdriver.
    assert (Hstart : In (extractPlaylistID playlistURL)
                        (map Playlist.YoutubeID
                             (playlists
                                (fst (GetOrCreatePlaylist
                                        d (now_at env (OpGetOrCreatePlaylist
                                                         (extractPlaylistID playlistURL)))
                                        (extractPlaylistID playlistURL)
                                        playlistName))))).
    { destruct (GetOrCreatePlaylist_returns_row
                  d (now_at env (OpGetOrCreatePlaylist
                                   (extractPlaylistID playlistURL)))
                  (extractPlaylistID playlistURL) playlistName) as [Hin Hrow].
      rewrite <- Hrow at 1. apply in_map. exact Hin. }
    assert (Hend : In (extractPlaylistID playlistURL)
                      (map Playlist.YoutubeID (playlists (db r)))).
    { subst r. unfold ProcessPlaylist.
      apply String.eqb_neq in Hid. rewrite Hid, Hdriver.
      destruct (GetOrCreatePlaylist _ _ _ _) as [d1 playlist]. cbn [fst] in Hstart.
      destruct (getPlaylistVideos env playlistURL) as [e|listing];
        [exact Hstart|].
      pose proof (loop_playlist_ids env dl playlist playlistName callback
                                    (extractPlaylistID playlistURL)
                                    listing d1 nil Hstart) as Hloop.
      destruct (fold_left _ _ _) as [d2 calls2]. exact Hloop. }
    apply in_map_iff in Hend. destruct Hend as [p [Hp Hin]].
    exists p. split; assumption.
Qed.

(** C6 as stated does not hold: a video whose fetch failed in the first
    pass is not in the store, so the second pass over the same listing
    tries it again.  If the fetch fails again the callback hears nothing
    about the video, not [downloaded = false]; if it now succeeds the
    second pass adds a row and reports [downloaded = true]. *)
Lemma second_pass_retries_failed_fetch :
  let broken := Scenario.world (Some [Scenario.track "a"]) (fun _ => true) in
  let healed := Scenario.world (Some [Scenario.track "a"]) (fun _ => false) in
  let r1 := ProcessPlaylist broken Scenario.dl NewDatabase "PL1" "Jazz" true in
  yt_dlp_dump_single_json broken "PL1" = yt_dlp_dump_single_json healed "PL1"
  /\ videos (db r1) = nil
  /\ calls (ProcessPlaylist broken Scenario.dl (db r1) "PL1" "Jazz" true) = nil
  /\ calls (ProcessPlaylist healed Scenario.dl (db r1) "PL1" "Jazz" true)
     = [("a", true)]
  /\ map Video.youtube_id
         (videos (db (ProcessPlaylist healed Scenario.dl (db r1) "PL1" "Jazz" true)))
     = ["a"].
Proof. cbv zeta. repeat split. Qed.

(** C6, amended.  Let a first pass have brought in every listed video
    that was not yet in the store (each such video's probe, fetch and
    insertion worked).  Then a second pass over the same listing, in a
    world whose store answers the probes, returns no error, leaves the
    store exactly as the first pass left it (no row is created, none is
    changed), and invokes the callback once per listed video, in listing
    order, each time with [downloaded = false]. *)
Theorem ProcessPlaylist_second_pass_is_idle :
  forall (env1 env2 : Env) (dl : Downloader) (d : Database)
         (playlistURL name1 name2 : string) (entries : list VideoInfo.t),
    extractPlaylistID playlistURL <> "" ->
    driver_fails env1 (OpGetOrCreatePlaylist (extractPlaylistID playlistURL)) = false ->
    driver_fails env2 (OpGetOrCreatePlaylist (extractPlaylistID playlistURL)) = false ->
    yt_dlp_dump_single_json env1 playlistURL = Some entries ->
    yt_dlp_dump_single_json env2 playlistURL = Some entries ->
    (forall x, x <> "" -> In x (map VideoInfo.ID entries) ->
               VideoExists d x = true \/ fetched env1 dl name1 x = true) ->
    (forall x, In x (map VideoInfo.ID entries) ->
               driver_fails env2 (OpVideoExists x) = false) ->
    let r1 := ProcessPlaylist env1 dl d playlistURL name1 true in
    let r2 := ProcessPlaylist env2 dl (db r1) playlistURL name2 true in
    err r2 = None
    /\ db r2 = db r1
    /\ calls r2
       = map (fun x => (x, false))
             (filter (fun x => negb (String.eqb x "")) (map VideoInfo.ID entries)).
Proof.
  intros env1 env2 dl d playlistURL name1 name2 entries
         Hid Hd1 Hd2 Hl1 Hl2 Hfirst Hprobe r1 r2.
  set (id := extractPlaylistID playlistURL) in *.
  (* the store after the first pass *)
  assert (Hknown : forall x, x <> "" -> In x (map VideoInfo.ID entries) ->
                             VideoExists (db r1) x = true).
  { intros x Hx Hin. subst r1.
    rewrite (ProcessPlaylist_run _ _ _ _ _ _ _ Hid Hd1 Hl1). cbn [db].
    rewrite loop_exists, GetOrCreatePlaylist_exists.
    apply orb_true_iff.
    destruct (Hfirst x Hx Hin) as [H|H]; [left; exact H|].
    right. rewrite H, andb_true_r. apply listed_iff. split; assumption. }
  assert (Hrow : In id (map Playlist.YoutubeID (playlists (db r1)))).
  { subst r1. rewrite (ProcessPlaylist_run _ _ _ _ _ _ _ Hid Hd1 Hl1). cbn [db].
    apply loop_playlist_ids.
    destruct (GetOrCreatePlaylist_returns_row
                d (now_at env1 (OpGetOrCreatePlaylist id)) id name1) as [Hin Hy].
    fold id. rewrite <- Hy at 1. apply in_map. exact Hin. }
  destruct (find_present id _ Hrow) as [p Hfind].
  (* the second pass *)
  subst r2. rewrite (ProcessPlaylist_run _ _ _ _ _ _ _ Hid Hd2 Hl2).
  fold id. rewrite (GetOrCreatePlaylist_existing _ _ _ _ _ Hfind).
  cbn [fst snd]. rewrite loop_all_known.
  - cbn [err db calls fst snd List.app].
    split; [reflexivity|]. split; [reflexivity|].
    rewrite <- (listing_of_ids playlistURL), map_map. reflexivity.
  - intros v Hv.
    assert (Hin : In (VideoInfo.ID v)
                     (filter (fun x => negb (String.eqb x ""))
                             (map VideoInfo.ID entries))).
    { rewrite <- (listing_of_ids playlistURL). apply in_map. exact Hv. }
    apply filter_In in Hin. destruct Hin as [Hin Hne].
    apply negb_true_iff in Hne. apply String.eqb_neq in Hne.
    split; [apply Hknown; assumption | apply Hprobe; exact Hin].
Qed.

(** The amended C6 on the three tracks, all of which can be fetched. *)
Lemma second_pass_over_three_tracks :
  let w := Scenario.world (Some Scenario.three_tracks) (fun _ => false) in
  let r1 := ProcessPlaylist w Scenario.dl NewDatabase "PL1" "Jazz" true in
  let r2 := ProcessPlaylist w Scenario.dl (db r1) "PL1" "Jazz" true in
  err r2 = None
  /\ db r2 = db r1
  /\ calls r2 = [("a", false); ("b", false); ("c", false)].
Proof.
  cbv zeta.
  apply (ProcessPlaylist_second_pass_is_idle
           (Scenario.world (Some Scenario.three_tracks) (fun _ => false))
           (Scenario.world (Some Scenario.three_tracks) (fun _ => false))
           Scenario.dl NewDatabase "PL1" "Jazz" "Jazz" Scenario.three_tracks);
    try reflexivity; try discriminate.
  intros x _ [H|[H|[H|[]]]]; subst x; right; reflexivity.
Defined.

(** *** The title of a known playlist *)

Lemma find_app_none {A : Type} (f : A -> bool) (l l' : list A) :
  find f l = None -> find f (List.app l l') = find f l'.
Proof.
  induction l as [|x l IH]; intros H; [reflexivity|].
  cbn in *. destruct (f x); [discriminate | apply IH; exact H].
Qed.

Lemma filter_none {A : Type} (f : A -> bool) (l : list A) :
  find f l = None -> filter f l = nil.
Proof.
  induction l as [|x l IH]; intros H; [reflexivity|].
  cbn in *. destruct (f x); [discriminate | apply IH; exact H].
Qed.

(** C1 fails on the code.  [GetOrCreatePlaylist], which is what ingestion
    calls, hands back the row it finds and writes nothing: asked a second
    time for the same identifier under another name, it leaves the store
    as the first call left it, and the title stays the one given first.
    There is one row for the identifier, as claimed, but its title is not
    the latest name.  Two passes from the empty store, named [Jazz] and
    then [Blues], leave the title [Jazz].  The sibling
    [getOrCreatePlaylist] does refresh the title, and then runs into the
    [INSERT] and its [UNIQUE] constraint. *)
Theorem GetOrCreatePlaylist_keeps_first_title :
  (forall (d : Database) (now1 now2 : Time) (youtubeID title1 title2 : string),
      let r1 := GetOrCreatePlaylist d now1 youtubeID title1 in
      let r2 := GetOrCreatePlaylist (fst r1) now2 youtubeID title2 in
      fst r2 = fst r1
      /\ snd r2 = snd r1
      /\ (find (by_youtube_id youtubeID) (playlists d) = None ->
          filter (by_youtube_id youtubeID) (playlists (fst r2)) = [snd r2]
          /\ Playlist.Title (snd r2) = title1))
  /\ (let w := Scenario.world (Some Scenario.three_tracks) (fun _ => false) in
      let r1 := ProcessPlaylist w Scenario.dl NewDatabase "PL1" "Jazz" true in
      let r2 := ProcessPlaylist w Scenario.dl (db r1) "PL1" "Blues" true in
      map (fun p => (Playlist.YoutubeID p, Playlist.Title p)) (playlists (db r2))
      = [("PL1", "Jazz")]
      /\ snd (getOrCreatePlaylist (db r1) Scenario.noon "PL1" "Blues")
         = inl ErrCreatePlaylist
      /\ map (fun p => (Playlist.YoutubeID p, Playlist.Title p))
             (playlists (fst (getOrCreatePlaylist (db r1) Scenario.noon
                                                  "PL1" "Blues")))
         = [("PL1", "Blues")]).
Proof.
  split; [|cbv zeta; repeat split].
  intros d now1 now2 youtubeID title1 title2 r1 r2. subst r1 r2.
  destruct (find (by_youtube_id youtubeID) (playlists d)) as [p|] eqn:Hfind.
  - rewrite (GetOrCreatePlaylist_existing _ _ _ _ _ Hfind). cbn [fst snd].
    rewrite (GetOrCreatePlaylist_existing _ _ _ _ _ Hfind). cbn [fst snd].
    repeat split; discriminate.
  - rewrite (GetOrCreatePlaylist_fresh _ _ _ _ Hfind). cbn [fst snd].
    assert (Hnew : by_youtube_id youtubeID
                     (Playlist.Build (playlists_seq d + 1) youtubeID title1
                                     None None None None 0 now1 now1 now1) = true).
    { apply by_youtube_id_true. reflexivity. }
    erewrite GetOrCreatePlaylist_existing.
    2:{ cbn [playlists]. rewrite (find_app_none _ _ _ Hfind).
        cbn [find]. rewrite Hnew. reflexivity. }
    cbn [fst snd playlists].
    split; [reflexivity|]. split; [reflexivity|]. intros _.
    split; [|reflexivity].
    rewrite filter_app, (filter_none _ _ Hfind). cbn [filter List.app].
    rewrite Hnew. reflexivity.
Qed.

End DownloaderFacts.

(** ** The store: sweeps, cleanups and playlists, further *)

Module StoreCoverage.
Import database validator Notions StoreFacts.

Lemma NoDup_map_same {A B : Type} (f : A -> B) (l : list A) (x y : A) :
  NoDup (map f l) -> In x l -> In y l -> f x = f y -> x = y.
Proof.
  induction l as [|a l IH]; intros Hnd Hx Hy Hf; [destruct Hx|].
  cbn [map] in Hnd. inversion Hnd as [|? ? Hnotin Hnd']; subst.
  destruct Hx as [Hx|Hx], Hy as [Hy|Hy]; subst.
  - reflexivity.
  - exfalso. apply Hnotin. rewrite Hf. apply in_map. exact Hy.
  - exfalso. apply Hnotin. rewrite <- Hf. apply in_map. exact Hx.
  - apply IH; assumption.
Qed.

(** Under the [UNIQUE] constraint the rows the cleanup deletes are the
    condemned ones. *)
Lemma doomed_is_condemned (stat : string -> StatResult) (table : list Video.t) :
  NoDup (map Video.youtube_id table) ->
  forall v, In v table ->
            doomed stat (missing_rows table) v = condemned stat v.
Proof.
  intros Hnd v Hin. apply eq_true_iff_eq. unfold doomed.
  rewrite existsb_exists. split.
  - intros [[k path] [Hrow Hmatch]]. cbn [fst snd] in Hmatch.
    apply andb_true_iff in Hmatch. destruct Hmatch as [Hk Hstat].
    apply String.eqb_eq in Hk.
    unfold missing_rows in Hrow. apply in_flat_map in Hrow.
    destruct Hrow as [w [Hw Hrow]].
    destruct (Video.file_path w) as [p|] eqn:Hp; [|destruct Hrow].
    destruct (String.eqb (Video.validation_status w) "missing") eqn:Hs;
      [|destruct Hrow].
    destruct Hrow as [Hrow|[]]. injection Hrow as Hwk Hpath. subst k p.
    assert (w = v)
      by (apply (NoDup_map_same Video.youtube_id table); congruence).
    subst w. unfold condemned. rewrite Hp, Hs, Hstat. reflexivity.
  - unfold condemned. intros Hc.
    destruct (Video.file_path v) as [p|] eqn:Hp; [|discriminate Hc].
    apply andb_true_iff in Hc. destruct Hc as [Hs Hstat].
    exists (Video.youtube_id v, p). split.
    + unfold missing_rows. apply in_flat_map. exists v. split; [exact Hin|].
      rewrite Hp, Hs. left. reflexivity.
    + cbn [fst snd]. rewrite String.eqb_refl, Hstat. reflexivity.
Qed.

Lemma CleanupMissingFiles_keeps (d : Database) (stat : string -> StatResult) :
  unique_videos d ->
  videos (fst (CleanupMissingFiles d stat))
  = filter (fun v => negb (condemned stat v)) (videos d).
Proof.
  intros Hunique. rewrite CleanupMissingFiles_videos.
  apply filter_ext_in. intros v Hin.
  rewrite (doomed_is_condemned stat _ Hunique v Hin). reflexivity.
Qed.

Lemma cleanup_count (stat : string -> StatResult) :
  forall (rows : list (string * string)) (table : list Video.t) (deleted : Z),
    snd (fold_left (cleanup_row stat) rows (table, deleted))
    = deleted
      + Z.of_nat (List.length
                    (filter (fun r => is_not_exist (stat (snd r))) rows)).
Proof.
  induction rows as [|[k path] rows IH]; intros table deleted.
  - cbn. lia.
  - cbn [fold_left filter snd]. unfold cleanup_row at 2.
    destruct (stat path) eqn:Hstat; rewrite IH; cbn [is_not_exist List.length];
      lia.
Qed.

Lemma missing_rows_absent (stat : string -> StatResult) (table : list Video.t) :
  List.length (filter (fun r => is_not_exist (stat (snd r))) (missing_rows table))
  = List.length (filter (condemned stat) table).
Proof.
  induction table as [|v table IH]; [reflexivity|].
  unfold missing_rows in *. cbn [flat_map filter]. rewrite filter_app, length_app.
  rewrite IH. unfold condemned at 2.
  destruct (Video.file_path v) as [p|]; [|reflexivity].
  destruct (String.eqb (Video.validation_status v) "missing"); [|reflexivity].
  cbn [filter snd andb]. destruct (is_not_exist (stat p)); reflexivity.
Qed.

Lemma CleanupMissingFiles_count (d : Database) (stat : string -> StatResult) :
  snd (CleanupMissingFiles d stat)
  = Z.of_nat (List.length (filter (condemned stat) (videos d))).
Proof.
  unfold CleanupMissingFiles.
  pose proof (cleanup_count stat (missing_rows (videos d)) (videos d) 0) as Hc.
  destruct (fold_left (cleanup_row stat) (missing_rows (videos d)) (videos d, 0))
    as [table deleted].
  cbn [snd] in *. rewrite Hc, missing_rows_absent. lia.
Qed.

Lemma filter_split_length {A : Type} (f : A -> bool) (l : list A) :
  (List.length (filter f l) + List.length (filter (fun x => negb (f x)) l)
   = List.length l)%nat.
Proof.
  induction l as [|x l IH]; [reflexivity|].
  cbn [filter]. destruct (f x); cbn [negb List.length]; lia.
Qed.

(** X1.  On a store that obeys the [UNIQUE] constraint, the cleanup
    deletes exactly the rows that are marked [missing] and whose file is
    absent at the second look; a row marked [missing] whose file is back,
    and every row with another status, stays as it is.  The number
    returned is the number of rows deleted. *)
Theorem CleanupMissingFiles_deletes_condemned_rows :
  forall (d : Database) (stat : string -> StatResult),
    unique_videos d ->
    videos (fst (CleanupMissingFiles d stat))
    = filter (fun v =>
                match Video.file_path v with
                | Some path =>
                    negb (String.eqb (Video.validation_status v) "missing"
                          && match stat path with
                             | StatNotExist => true
                             | _ => false
                             end)
                | None => true
                end) (videos d)
    /\ snd (CleanupMissingFiles d stat)
       = Z.of_nat (List.length (videos d))
         - Z.of_nat (List.length (videos (fst (CleanupMissingFiles d stat))))
    /\ 0 <= snd (CleanupMissingFiles d stat).
Proof.
  intros d stat Hunique. split; [|split].
  - rewrite (CleanupMissingFiles_keeps d stat Hunique).
    apply filter_ext. intros v. unfold condemned, is_not_exist.
    destruct (Video.file_path v); reflexivity.
  - rewrite (CleanupMissingFiles_keeps d stat Hunique), CleanupMissingFiles_count.
    pose proof (filter_split_length (condemned stat) (videos d)). lia.
  - rewrite CleanupMissingFiles_count. lia.
Qed.

(** X1 on the swept shelf: only [b], whose file is absent, goes. *)
Lemma cleanup_of_swept_shelf :
  let swept := fst (ValidateFiles Scenario.shelf Scenario.disk Scenario.noon) in
  map Video.youtube_id (videos (fst (CleanupMissingFiles swept Scenario.disk)))
  = ["a"; "c"; "e"]
  /\ snd (CleanupMissingFiles swept Scenario.disk) = 1.
Proof.
  cbv zeta.
  destruct (CleanupMissingFiles_deletes_condemned_rows
              (fst (ValidateFiles Scenario.shelf Scenario.disk Scenario.noon))
              Scenario.disk
              (ValidateFiles_unique _ _ _ shelf_unique))
    as [Hvideos [Hcount _]].
  rewrite Hcount, Hvideos. split; reflexivity.
Defined.

Lemma filter_twice {A : Type} (f : A -> bool) (l : list A) :
  filter f (filter f l) = filter f l.
Proof.
  induction l as [|x l IH]; [reflexivity|].
  cbn [filter]. destruct (f x) eqn:Hx; [|exact IH].
  cbn [filter]. rewrite Hx, IH. reflexivity.
Qed.

Lemma filter_none_left {A : Type} (f : A -> bool) (l : list A) :
  filter f (filter (fun x => negb (f x)) l) = nil.
Proof.
  induction l as [|x l IH]; [reflexivity|].
  cbn [filter]. destruct (f x) eqn:Hx; cbn [negb]; [exact IH|].
  cbn [filter]. rewrite Hx. exact IH.
Qed.

(** X2.  A cleanup repeated on the same disk finds nothing left to do:
    it deletes no row and returns 0. *)
Theorem CleanupMissingFiles_twice :
  forall (d : Database) (stat : string -> StatResult),
    unique_videos d ->
    CleanupMissingFiles (fst (CleanupMissingFiles d stat)) stat
    = (fst (CleanupMissingFiles d stat), 0).
Proof.
  intros d stat Hunique.
  pose proof (CleanupMissingFiles_unique d stat Hunique) as Hunique'.
  pose proof (CleanupMissingFiles_keeps _ stat Hunique') as Hvideos.
  pose proof (CleanupMissingFiles_count (fst (CleanupMissingFiles d stat)) stat)
    as Hcount.
  rewrite (CleanupMissingFiles_keeps d stat Hunique) in Hvideos, Hcount.
  rewrite filter_twice in Hvideos. rewrite filter_none_left in Hcount.
  pose proof (CleanupMissingFiles_keeps d stat Hunique) as Hfirst.
  destruct (CleanupMissingFiles d stat) as [d1 n1] eqn:H1. cbn [fst] in *.
  destruct (CleanupMissingFiles d1 stat) as [d2 n2] eqn:H2. cbn [fst snd] in *.
  assert (Hp : playlists d2 = playlists d1 /\ playlists_seq d2 = playlists_seq d1).
  { unfold CleanupMissingFiles in H2.
    destruct (fold_left (cleanup_row stat) (missing_rows (videos d1)) (videos d1, 0)).
    injection H2 as <- _. split; reflexivity. }
  destruct Hp as [Hp Hs].
  f_equal; [|exact Hcount].
  destruct d1, d2. cbn in *. congruence.
Qed.

Lemma cleanup_twice_on_swept_shelf :
  let swept := fst (ValidateFiles Scenario.shelf Scenario.disk Scenario.noon) in
  snd (CleanupMissingFiles (fst (CleanupMissingFiles swept Scenario.disk))
                           Scenario.disk) = 0.
Proof.
  cbv zeta.
  rewrite (CleanupMissingFiles_twice
             (fst (ValidateFiles Scenario.shelf Scenario.disk Scenario.noon))
             Scenario.disk (ValidateFiles_unique _ _ _ shelf_unique)).
  reflexivity.
Defined.

Lemma validated_located (stat : string -> StatResult) (now : Time) (v : Video.t) :
  Video.located (validated stat now v) = Video.located v.
Proof.
  unfold validated. destruct (Video.located v) eqn:Hloc; exact Hloc.
Qed.

Lemma validated_key (stat : string -> StatResult) (now : Time) (v : Video.t) :
  Video.youtube_id (validated stat now v) = Video.youtube_id v.
Proof.
  unfold validated. destruct (Video.located v); reflexivity.
Qed.

Lemma validated_again (stat1 stat2 : string -> StatResult) (t1 t2 : Time)
      (v : Video.t) :
  validated stat2 t2 (validated stat1 t1 v) = validated stat2 t2 v.
Proof.
  unfold validated at 1. rewrite validated_located.
  unfold validated. destruct (Video.located v); reflexivity.
Qed.

Lemma located_rows_validated (stat : string -> StatResult) (now : Time)
      (table : list Video.t) :
  located_rows (map (validated stat now) table) = located_rows table.
Proof.
  induction table as [|v table IH]; [reflexivity|].
  unfold located_rows in *. cbn [map flat_map].
  rewrite IH, validated_located, validated_key. reflexivity.
Qed.

Lemma ValidateFiles_store (d : Database) (stat : string -> StatResult) (now : Time) :
  unique_videos d ->
  fst (ValidateFiles d stat now)
  = BuildDatabase (playlists d) (map (validated stat now) (videos d))
                  (playlists_seq d).
Proof.
  intros Hunique. pose proof (ValidateFiles_videos d stat now Hunique) as Hv.
  unfold ValidateFiles in *.
  destruct (fold_left (validate_row stat now) (located_rows (videos d))
                      (videos d, 0)) as [table checked].
  cbn [fst videos] in *. rewrite Hv. reflexivity.
Qed.

(** X3.  A sweep leaves no trace of the sweep before it: on a store that
    obeys the [UNIQUE] constraint, sweeping twice (on any two disks, at
    any two instants) gives the store and the count of the second sweep
    alone.  In particular a sweep repeated on the same disk at the same
    instant changes nothing, and a sweep never changes which rows have a
    path. *)
Theorem ValidateFiles_resweep :
  forall (d : Database) (stat1 stat2 : string -> StatResult) (t1 t2 : Time),
    unique_videos d ->
    ValidateFiles (fst (ValidateFiles d stat1 t1)) stat2 t2
    = ValidateFiles d stat2 t2.
Proof.
  intros d stat1 stat2 t1 t2 Hunique.
  pose proof (ValidateFiles_unique d stat1 t1 Hunique) as Hunique1.
  pose proof (ValidateFiles_store _ stat2 t2 Hunique1) as Hfst.
  pose proof (ValidateFiles_checked (fst (ValidateFiles d stat1 t1)) stat2 t2)
    as Hsnd.
  rewrite (ValidateFiles_store d stat1 t1 Hunique) in Hfst, Hsnd.
  cbn [playlists videos playlists_seq] in Hfst, Hsnd.
  rewrite map_map in Hfst.
  rewrite (map_ext _ _ (validated_again stat1 stat2 t1 t2)) in Hfst.
  rewrite located_rows_validated in Hsnd.
  rewrite <- (ValidateFiles_store d stat2 t2 Hunique) in Hfst.
  rewrite <- (ValidateFiles_checked d stat2 t2) in Hsnd.
  rewrite (ValidateFiles_store d stat1 t1 Hunique).
  destruct (ValidateFiles (BuildDatabase (playlists d)
                             (map (validated stat1 t1) (videos d))
                             (playlists_seq d)) stat2 t2) as [d2 n2].
  destruct (ValidateFiles d stat2 t2) as [d2' n2'].
  cbn [fst snd] in *. congruence.
Qed.

(** X3 on the shelf: sweeping an empty disk first makes no difference. *)
Lemma resweep_of_shelf :
  ValidateFiles (fst (ValidateFiles Scenario.shelf Scenario.empty_disk 7))
                Scenario.disk Scenario.noon
  = ValidateFiles Scenario.shelf Scenario.disk Scenario.noon.
Proof.
  apply (ValidateFiles_resweep Scenario.shelf Scenario.empty_disk Scenario.disk
                               7 Scenario.noon).
  exact shelf_unique.
Defined.

Lemma find_map_same {A : Type} (keep : A -> bool) (f : A -> A) (l : list A) :
  (forall x, keep (f x) = keep x) ->
  find keep (map f l) = option_map f (find keep l).
Proof.
  intros Hkeep. induction l as [|x l IH]; [reflexivity|].
  cbn [map find]. rewrite Hkeep. destruct (keep x); [reflexivity | exact IH].
Qed.

Lemma find_app_first {A : Type} (keep : A -> bool) (l l' : list A) :
  find keep l = None -> find keep (List.app l l') = find keep l'.
Proof.
  induction l as [|x l IH]; intros H; [reflexivity|].
  cbn in *. destruct (keep x); [discriminate | apply IH; exact H].
Qed.

Lemma GetOrCreatePlaylist_finds (d : Database) (now : Time)
      (youtubeID title : string) :
  find (by_youtube_id youtubeID)
       (playlists (fst (GetOrCreatePlaylist d now youtubeID title)))
  = Some (snd (GetOrCreatePlaylist d now youtubeID title)).
Proof.
  destruct (find (by_youtube_id youtubeID) (playlists d)) as [p|] eqn:Hfind.
  - rewrite (GetOrCreatePlaylist_existing d now youtubeID title p Hfind).
    exact Hfind.
  - rewrite (GetOrCreatePlaylist_fresh d now youtubeID title Hfind).
    cbn [fst snd playlists]. rewrite (find_app_first _ _ _ Hfind).
    cbn [find]. unfold by_youtube_id at 1. cbn [Playlist.YoutubeID].
    rewrite String.eqb_refl. reflexivity.
Qed.

Lemma find_absent (youtubeID : string) (rows : list Playlist.t) :
  (forall p, In p rows -> Playlist.YoutubeID p <> youtubeID) ->
  find (by_youtube_id youtubeID) rows = None.
Proof.
  intros Habsent.
  destruct (find (by_youtube_id youtubeID) rows) as [p|] eqn:Hfind;
    [|reflexivity].
  apply find_some in Hfind. destruct Hfind as [Hin Hp].
  apply by_youtube_id_true in Hp. destruct (Habsent p Hin Hp).
Qed.

(** X4.  [GetLastChecked] answers the zero instant, and no error, for a
    playlist the store does not know; after [AddVideo] has filed a video
    under a playlist it answers the instant of that call; and
    [GetOrCreatePlaylist] alone stamps only a playlist it creates, an
    existing one keeps its [last_checked]. *)
Theorem GetLastChecked_follows_AddVideo :
  forall (d : Database) (now : Time) (playlistYoutubeID title : string),
    ((forall p, In p (playlists d) -> Playlist.YoutubeID p <> playlistYoutubeID) ->
     GetLastChecked d playlistYoutubeID = (time.zero, None))
    /\ (forall (youtubeID : string) (metadata : VideoMetadata.t),
           GetLastChecked
             (fst (AddVideo d now youtubeID playlistYoutubeID title metadata))
             playlistYoutubeID
           = (now, None))
    /\ GetLastChecked (fst (GetOrCreatePlaylist d now playlistYoutubeID title))
                      playlistYoutubeID
       = match find (by_youtube_id playlistYoutubeID) (playlists d) with
         | Some existing => (Playlist.LastChecked existing, None)
         | None => (now, None)
         end.
Proof.
  intros d now y title. split; [|split].
  - intros Habsent. unfold GetLastChecked.
    rewrite (find_absent y _ Habsent). reflexivity.
  - intros youtubeID metadata. unfold GetLastChecked.
    pose proof (AddVideo_unfold d now youtubeID y title metadata) as Hadd.
    cbv zeta in Hadd. rewrite Hadd. cbn [fst playlists].
    rewrite find_map_same.
    + rewrite GetOrCreatePlaylist_finds. cbn [option_map].
      rewrite Z.eqb_refl. reflexivity.
    + intros p. destruct (Playlist.ID p =? _); reflexivity.
  - unfold GetLastChecked. rewrite GetOrCreatePlaylist_finds.
    destruct (find (by_youtube_id y) (playlists d)) as [p|] eqn:Hfind.
    + rewrite (GetOrCreatePlaylist_existing d now y title p Hfind). reflexivity.
    + rewrite (GetOrCreatePlaylist_fresh d now y title Hfind). reflexivity.
Qed.

Lemma existsb_map_same {A : Type} (keep : A -> bool) (f : A -> A) (l : list A) :
  (forall x, keep (f x) = keep x) ->
  existsb keep (map f l) = existsb keep l.
Proof.
  intros Hkeep. induction l as [|x l IH]; [reflexivity|].
  cbn [map existsb]. rewrite Hkeep, IH. reflexivity.
Qed.

Lemma find_existsb {A : Type} (keep : A -> bool) (l : list A) :
  existsb keep l = match find keep l with Some _ => true | None => false end.
Proof.
  induction l as [|x l IH]; [reflexivity|].
  cbn [existsb find]. destruct (keep x); [reflexivity | exact IH].
Qed.

(** X5.  The variant [getOrCreatePlaylist], which runs inside a
    transaction, creates a playlist exactly as [GetOrCreatePlaylist] does
    when the identifier is new, and returns the new key.  For an
    identifier the store knows it never succeeds: it refreshes the title
    of the row (when the title differs) and then fails on the [INSERT];
    it adds no row and hands out no key. *)
Theorem getOrCreatePlaylist_only_creates :
  forall (tx : Database) (now : Time) (youtubeID title : string),
    (find (by_youtube_id youtubeID) (playlists tx) = None ->
     getOrCreatePlaylist tx now youtubeID title
     = (fst (GetOrCreatePlaylist tx now youtubeID title),
        inr (Playlist.ID (snd (GetOrCreatePlaylist tx now youtubeID title))))
     /\ Playlist.ID (snd (GetOrCreatePlaylist tx now youtubeID title))
        = playlists_seq tx + 1)
    /\ (forall existing,
           find (by_youtube_id youtubeID) (playlists tx) = Some existing ->
           let tx' := fst (getOrCreatePlaylist tx now youtubeID title) in
           snd (getOrCreatePlaylist tx now youtubeID title) = inl ErrCreatePlaylist
           /\ videos tx' = videos tx
           /\ playlists_seq tx' = playlists_seq tx
           /\ (Playlist.Title existing = title -> tx' = tx)
           /\ (Playlist.Title existing <> title ->
               playlists tx'
               = map (fun p => if Playlist.ID p =? Playlist.ID existing
                               then Playlist.set_title title now p else p)
                     (playlists tx))).
Proof.
  intros tx now y title. split.
  - intros Hfind. rewrite (GetOrCreatePlaylist_fresh tx now y title Hfind).
    unfold getOrCreatePlaylist. rewrite Hfind.
    rewrite find_existsb, Hfind. cbn. split; reflexivity.
  - intros existing Hfind. cbv zeta. unfold getOrCreatePlaylist. rewrite Hfind.
    destruct (String.eqb (Playlist.Title existing) title) eqn:Htitle;
      cbn [negb].
    + apply String.eqb_eq in Htitle.
      rewrite find_existsb, Hfind. cbn [fst snd].
      repeat split; try reflexivity. intros Hne. destruct (Hne Htitle).
    + apply String.eqb_neq in Htitle.
      unfold exec_update. cbn [fst playlists].
      rewrite existsb_map_same.
      * rewrite find_existsb, Hfind. cbn [fst snd videos playlists playlists_seq].
        repeat split; try reflexivity. intros Heq. destruct (Htitle Heq).
      * intros p. destruct (Playlist.ID p =? Playlist.ID existing); reflexivity.
Qed.

End StoreCoverage.

(** ** File names *)

Module FilenameFacts.
Import strings database Notions.

Lemma has_byte_drop (c : ascii) :
  forall (n : nat) (s : string),
    has_byte c (drop n s) = true -> has_byte c s = true.
Proof.
  induction n as [|n IH]; intros s H; [exact H|].
  destruct s as [|a s]; [exact H|].
  cbn [drop] in H. cbn [has_byte]. rewrite (IH s H). apply orb_true_r.
Qed.

Lemma has_byte_strip_one (c : ascii) (s : string) :
  forall (runes : list string) (s' : string),
    strip_one runes s = Some s' ->
    has_byte c s' = true -> has_byte c s = true.
Proof.
  induction runes as [|r runes IH]; intros s' Hstrip Hin; [discriminate Hstrip|].
  cbn [strip_one] in Hstrip. destruct (HasPrefix s r).
  - injection Hstrip as <-. exact (has_byte_drop c _ _ Hin).
  - exact (IH s' Hstrip Hin).
Qed.

Lemma has_byte_trim_left (c : ascii) (runes : list string) :
  forall (n : nat) (s : string),
    has_byte c (trim_left n runes s) = true -> has_byte c s = true.
Proof.
  induction n as [|n IH]; intros s H; [exact H|].
  cbn [trim_left] in H. destruct (strip_one runes s) as [s'|] eqn:Hstrip.
  - exact (has_byte_strip_one c s runes s' Hstrip (IH s' H)).
  - exact H.
Qed.

Lemma has_byte_rev_append (c : ascii) :
  forall s acc : string,
    has_byte c (rev_append s acc) = has_byte c s || has_byte c acc.
Proof.
  induction s as [|a s IH]; intros acc; [reflexivity|].
  cbn [rev_append has_byte]. rewrite IH. cbn [has_byte].
  destruct (Ascii.eqb a c), (has_byte c s); reflexivity.
Qed.

Lemma has_byte_rev (c : ascii) (s : string) : has_byte c (rev s) = has_byte c s.
Proof.
  unfold rev. rewrite has_byte_rev_append. apply orb_false_r.
Qed.

(** [TrimSpace] only removes bytes. *)
Lemma has_byte_TrimSpace (c : ascii) (s : string) :
  has_byte c (TrimSpace s) = true -> has_byte c s = true.
Proof.
  unfold TrimSpace, TrimRightSpace, TrimLeftSpace. intros H.
  rewrite has_byte_rev in H. apply has_byte_trim_left in H.
  rewrite has_byte_rev in H. apply has_byte_trim_left in H. exact H.
Qed.

Lemma remove_invalid_clean (c : ascii) :
  is_invalid_char c = true ->
  forall s : string, has_byte c (remove_invalid s) = false.
Proof.
  intros Hc. induction s as [|a s IH]; [reflexivity|].
  cbn [remove_invalid]. destruct (is_invalid_char a) eqn:Ha; [exact IH|].
  cbn [has_byte]. rewrite IH, orb_false_r.
  destruct (Ascii.eqb a c) eqn:Hac; [|reflexivity].
  apply Ascii.eqb_eq in Hac. congruence.
Qed.

Lemma collapse_spaces_bytes (c : ascii) :
  forall (s : string) (in_run : bool),
    has_byte c (collapse_spaces in_run s) = true ->
    c = " "%char \/ (is_regexp_space c = false /\ has_byte c s = true).
Proof.
  induction s as [|a s IH]; intros in_run H; [discriminate H|].
  cbn [collapse_spaces] in H. destruct (is_regexp_space a) eqn:Ha.
  - destruct in_run.
    + destruct (IH true H) as [Hc|[Hc Hin]]; [left; exact Hc|].
      right. cbn [has_byte]. rewrite Hin, orb_true_r. split; [exact Hc|reflexivity].
    + cbn [has_byte] in H. apply orb_true_iff in H. destruct H as [H|H].
      * left. apply Ascii.eqb_eq in H. symmetry. exact H.
      * destruct (IH true H) as [Hc|[Hc Hin]]; [left; exact Hc|].
        right. cbn [has_byte]. rewrite Hin, orb_true_r.
        split; [exact Hc|reflexivity].
  - cbn [has_byte] in H. apply orb_true_iff in H. destruct H as [H|H].
    + apply Ascii.eqb_eq in H. subst a. right. cbn [has_byte].
      rewrite Ascii.eqb_refl. split; [exact Ha|reflexivity].
    + destruct (IH false H) as [Hc|[Hc Hin]]; [left; exact Hc|].
      right. cbn [has_byte]. rewrite Hin, orb_true_r.
      split; [exact Hc|reflexivity].
Qed.

Lemma sanitizeFilename_bytes (c : ascii) (filename : string) :
  has_byte c (sanitizeFilename filename) = true ->
  c = " "%char
  \/ (is_regexp_space c = false /\ is_invalid_char c = false
      /\ has_byte c filename = true).
Proof.
  unfold sanitizeFilename. intros H. apply has_byte_TrimSpace in H.
  destruct (collapse_spaces_bytes c _ _ H) as [Hc|[Hc Hin]]; [left; exact Hc|].
  right. split; [exact Hc|].
  destruct (is_invalid_char c) eqn:Hinv.
  - rewrite (remove_invalid_clean c Hinv) in Hin. discriminate Hin.
  - split; [reflexivity|]. clear H Hc.
    induction filename as [|a s IH]; [discriminate Hin|].
    cbn [remove_invalid] in Hin. cbn [has_byte].
    destruct (is_invalid_char a).
    + rewrite (IH Hin). apply orb_true_r.
    + cbn [has_byte] in Hin. apply orb_true_iff in Hin.
      destruct Hin as [Hin|Hin]; [rewrite Hin; reflexivity|].
      rewrite (IH Hin). apply orb_true_r.
Qed.

(** X6.  Whatever the title, the name [sanitizeFilename] returns holds
    none of the nine characters it removes and no white space of the
    class [\s] other than the space itself: no tab, line feed, form feed
    or carriage return.  Every other byte of the result is a byte of the
    title. *)
Theorem sanitizeFilename_is_clean :
  forall filename : string,
    forallb (fun c => negb (has_byte c (sanitizeFilename filename)))
            ["<"; ">"; ":"; "034"; "/"; "\"; "|"; "?"; "*";
             "009"; "010"; "012"; "013"]%char
    = true
    /\ (forall c : ascii,
           has_byte c (sanitizeFilename filename) = true ->
           c = " "%char \/ has_byte c filename = true).
Proof.
  intros filename. split.
  - apply forallb_forall. intros c Hc. apply negb_true_iff.
    destruct (has_byte c (sanitizeFilename filename)) eqn:H; [|reflexivity].
    exfalso.
    destruct (sanitizeFilename_bytes c filename H) as [Hsp|[Hsp [Hinv _]]].
    + subst c. cbn in Hc.
      repeat (destruct Hc as [Hc|Hc]; [discriminate Hc|]). exact Hc.
    + cbn in Hc.
      repeat (destruct Hc as [Hc|Hc];
              [subst c; (discriminate Hsp || discriminate Hinv)|]).
      exact Hc.
  - intros c H.
    destruct (sanitizeFilename_bytes c filename H) as [Hsp|[_ [_ Hin]]];
      [left; exact Hsp | right; exact Hin].
Qed.

End FilenameFacts.

(** ** The listing and the output of yt-dlp *)

Module OutputFacts.
Import strings database downloader Notions StringFacts DownloaderFacts.

Lemma listing_of_rows (playlistURL : string) (entries : list VideoInfo.t)
      (v : VideoInfo.t) :
  In v (listing_of playlistURL entries) ->
  VideoInfo.ID v <> ""
  /\ VideoInfo.PlaylistID v = extractPlaylistID playlistURL.
Proof.
  unfold listing_of. intros H. apply in_flat_map in H.
  destruct H as [e [_ Hv]].
  destruct (String.eqb (VideoInfo.ID e) "") eqn:Hid; [destruct Hv|].
  destruct Hv as [<-|[]]. apply String.eqb_neq in Hid.
  split; [exact Hid | reflexivity].
Qed.

(** X7.  [getPlaylistVideos] fails exactly when yt-dlp gives no listing.
    Otherwise it returns the entries that have an identifier, in the
    order of the listing, each stamped with the playlist identifier that
    [extractPlaylistID] reads from the reference.  The stamp is never
    read afterwards: the step of the pass does the same with and
    without it. *)
Theorem getPlaylistVideos_keeps_named_entries :
  forall (env : Env) (playlistURL : string),
    (yt_dlp_dump_single_json env playlistURL = None <->
     getPlaylistVideos env playlistURL = inl ErrGetPlaylistVideos)
    /\ (forall entries,
           yt_dlp_dump_single_json env playlistURL = Some entries ->
           exists listing,
             getPlaylistVideos env playlistURL = inr listing
             /\ map VideoInfo.ID listing
                = filter (fun x => negb (String.eqb x ""))
                         (map VideoInfo.ID entries)
             /\ (forall v, In v listing ->
                           VideoInfo.ID v <> ""
                           /\ VideoInfo.PlaylistID v
                              = extractPlaylistID playlistURL))
    /\ (forall (dl : Downloader) (playlist : Playlist.t) (playlistName : string)
               (callback : bool) (st : Database * list Call)
               (stamp : string) (v : VideoInfo.t),
           processVideo env dl playlist playlistName callback st
                        (VideoInfo.set_PlaylistID stamp v)
           = processVideo env dl playlist playlistName callback st v).
Proof.
  intros env playlistURL. split; [|split].
  - unfold getPlaylistVideos.
    destruct (yt_dlp_dump_single_json env playlistURL);
      split; intros H; (reflexivity || discriminate H).
  - intros entries Hlist. exists (listing_of playlistURL entries).
    split; [|split].
    + unfold getPlaylistVideos. rewrite Hlist. reflexivity.
    + apply listing_of_ids.
    + apply listing_of_rows.
  - intros dl playlist playlistName callback [d calls] stamp v. reflexivity.
Qed.

Lemma Cut_byte (c : ascii) (rest : string) :
  forall tok : string,
    Contains tok (String c "") = false ->
    Cut (tok ++ String c rest) (String c "") = Some (tok, rest).
Proof.
  induction tok as [|a tok IH]; intros H.
  - cbn [append Cut HasPrefix]. rewrite Ascii.eqb_refl. reflexivity.
  - pose proof (Contains_HasPrefix_false _ _ H) as Hp.
    pose proof (Contains_tail_false _ _ _ H) as Ht.
    cbn [append Cut]. cbn [HasPrefix] in Hp |- *. rewrite Hp.
    rewrite (IH Ht). reflexivity.
Qed.

Lemma Split_cons (s sep before after : string) :
  sep <> "" ->
  Cut s sep = Some (before, after) ->
  Split s sep = before :: Split after sep.
Proof.
  intros Hsep Hcut. pose proof (Cut_shortens sep s before after Hsep Hcut) as Hlen.
  unfold Split. destruct s as [|c s]; [cbn in Hlen; lia|].
  cbn [String.length genSplit]. rewrite Hcut. f_equal.
  apply genSplit_bound; [exact Hsep | cbn [String.length] in Hlen; lia | lia].
Qed.

Lemma Split_whole (s sep : string) : Cut s sep = None -> Split s sep = [s].
Proof.
  intros Hcut. unfold Split. destruct (String.length s); cbn [genSplit];
    [reflexivity | rewrite Hcut; reflexivity].
Qed.

(** The second piece of a line split at its colons. *)
Lemma second_piece (pre path rest : string) :
  Contains pre ":" = false ->
  Contains path ":" = false ->
  rest = "" \/ (exists r, rest = String ":" r) ->
  nth 1 (Split (pre ++ ":" ++ path ++ rest) ":") "" = path.
Proof.
  intros Hpre Hpath Hrest.
  rewrite (Split_cons _ ":" pre (path ++ rest));
    [| discriminate | exact (Cut_byte ":" (path ++ rest) pre Hpre)].
  cbn [nth]. destruct Hrest as [->|[r ->]].
  - rewrite append_empty, (Split_whole _ _ (Cut_None _ _ Hpath)). reflexivity.
  - rewrite (Split_cons _ ":" path r);
      [reflexivity | discriminate | exact (Cut_byte ":" r path Hpath)].
Qed.

Lemma scan_quiet :
  forall (lines : list string) (filePath : string),
    (forall l, In l lines ->
               Contains l "[ExtractAudio] Destination:" = false
               /\ Contains l "[download] Destination:" = false) ->
    fold_left
      (fun filePath line =>
         if Contains line "[ExtractAudio] Destination:"
         then TrimSpace (nth 1 (Split line ":") "")
         else if Contains line "[download] Destination:"
              then TrimSpace (nth 1 (Split line ":") "")
              else filePath) lines filePath
    = filePath.
Proof.
  induction lines as [|l lines IH]; intros filePath Hq; [reflexivity|].
  cbn [fold_left]. destruct (Hq l (or_introl eq_refl)) as [H1 H2].
  rewrite H1, H2. apply IH. intros l' Hl'. apply Hq. right. exact Hl'.
Qed.

(** X8.  The path [downloadVideo] takes from the output of yt-dlp is
    that of the last line announcing a destination: earlier
    announcements are overwritten and later lines that announce nothing
    do not matter.  It is the text between the first colon of that line
    and the next colon (or the end of the line), trimmed; so a path that
    holds a colon itself is taken only up to that colon. *)
Theorem destination_is_last_announcement :
  forall (outputStr : string) (earlier later : list string)
         (line pre path rest : string),
    Split outputStr LF = List.app earlier (line :: later) ->
    Contains line "[ExtractAudio] Destination:" = true
    \/ Contains line "[download] Destination:" = true ->
    (forall l, In l later ->
               Contains l "[ExtractAudio] Destination:" = false
               /\ Contains l "[download] Destination:" = false) ->
    line = pre ++ ":" ++ path ++ rest ->
    Contains pre ":" = false ->
    Contains path ":" = false ->
    rest = "" \/ (exists r, rest = String ":" r) ->
    destination outputStr = TrimSpace path.
Proof.
  intros outputStr earlier later line pre path rest
         Hlines Hline Hlater Hshape Hpre Hpath Hrest.
  unfold destination. rewrite Hlines, fold_left_app. cbn [fold_left].
  rewrite (scan_quiet later _ Hlater).
  assert (Hpiece : nth 1 (Split line ":") "" = path)
    by (rewrite Hshape; apply second_piece; assumption).
  rewrite Hpiece.
  destruct Hline as [H|H]; rewrite H; [reflexivity|].
  destruct (Contains line "[ExtractAudio] Destination:"); reflexivity.
Qed.

(** X8 on an output whose last announcement names a file with a colon
    in its name. *)
Lemma destination_of_colon_title :
  destination ("[download] Destination: /music/Jazz/Live: Tokyo.webm" ++ LF
               ++ "[ExtractAudio] Destination: /music/Jazz/Live: Tokyo.mp3" ++ LF
               ++ "Deleting original file" ++ LF)
  = TrimSpace " /music/Jazz/Live".
Proof.
  apply (destination_is_last_announcement
           _ ["[download] Destination: /music/Jazz/Live: Tokyo.webm"]
           ["Deleting original file"; ""]
           "[ExtractAudio] Destination: /music/Jazz/Live: Tokyo.mp3"
           "[ExtractAudio] Destination" " /music/Jazz/Live" ": Tokyo.mp3").
  - vm_compute. reflexivity.
  - left. vm_compute. reflexivity.
  - intros l [<-|[<-|[]]]; split; vm_compute; reflexivity.
  - reflexivity.
  - vm_compute. reflexivity.
  - vm_compute. reflexivity.
  - right. exists " Tokyo.mp3". reflexivity.
Defined.

Lemma append_assoc (a b c : string) : (a ++ b) ++ c = a ++ b ++ c.
Proof.
  induction a as [|x a IH]; [reflexivity|]. cbn [append]. rewrite IH. reflexivity.
Qed.

Lemma genSplit_pieces (sep : string) :
  forall (n : nat) (s piece : string),
    In piece (genSplit n s sep) -> exists a b, s = a ++ piece ++ b.
Proof.
  induction n as [|n IH]; intros s piece Hin.
  - destruct Hin as [<-|[]]. exists "", "". cbn [append].
    rewrite append_empty. reflexivity.
  - cbn [genSplit] in Hin.
    destruct (Cut s sep) as [[before after]|] eqn:Hcut.
    + apply Cut_sound in Hcut. destruct Hin as [<-|Hin].
      * exists "", (sep ++ after). exact Hcut.
      * destruct (IH after piece Hin) as [a [b Hafter]].
        exists (before ++ sep ++ a), b.
        rewrite Hcut, Hafter, !append_assoc. reflexivity.
    + destruct Hin as [<-|[]]. exists "", "". cbn [append].
      rewrite append_empty. reflexivity.
Qed.

Lemma HasPrefix_app_l (b : string) :
  forall m p : string, HasPrefix p m = true -> HasPrefix (p ++ b) m = true.
Proof.
  induction m as [|x m IH]; intros p H; [reflexivity|].
  destruct p as [|y p]; [discriminate H|].
  cbn [append HasPrefix] in *. apply andb_true_iff in H. destruct H as [Hxy H].
  rewrite Hxy, (IH p H). reflexivity.
Qed.

Lemma Contains_app_l_false (m b : string) :
  forall p : string, Contains (p ++ b) m = false -> Contains p m = false.
Proof.
  induction p as [|c p IH]; intros H.
  - cbn [append] in H. cbn [Contains]. rewrite orb_false_r.
    destruct (HasPrefix "" m) eqn:Hp; [|reflexivity].
    apply (HasPrefix_app_l b) in Hp. cbn [append] in Hp.
    apply Contains_HasPrefix in Hp. congruence.
  - cbn [append Contains] in *. apply orb_false_iff in H. destruct H as [Hp Ht].
    rewrite (IH Ht), orb_false_r.
    destruct (HasPrefix (String c p) m) eqn:Hq; [|reflexivity].
    apply (HasPrefix_app_l b) in Hq. cbn [append] in Hq. congruence.
Qed.

Lemma Split_pieces_quiet (s sep m : string) :
  Contains s m = false ->
  forall piece, In piece (Split s sep) -> Contains piece m = false.
Proof.
  intros Hs piece Hin. unfold Split in Hin.
  destruct (genSplit_pieces sep _ _ _ Hin) as [a [b Heq]].
  rewrite Heq in Hs. apply Contains_suffix_false in Hs.
  exact (Contains_app_l_false m b piece Hs).
Qed.

(** X9.  When the output of yt-dlp nowhere announces a destination,
    [downloadVideo] fails, although yt-dlp itself succeeded: no file is
    looked for, whatever is on the disk. *)
Theorem downloadVideo_needs_announcement :
  forall (env : Env) (dl : Downloader) (videoID playlistName outputStr : string),
    os_MkdirAll env (outputDir dl) playlistName = true ->
    yt_dlp_extract_audio env (outputDir dl) playlistName videoID = Some outputStr ->
    Contains outputStr "[ExtractAudio] Destination:" = false ->
    Contains outputStr "[download] Destination:" = false ->
    downloadVideo env dl videoID playlistName = inl ErrNoFilePath.
Proof.
  intros env dl videoID playlistName outputStr Hdir Hrun H1 H2.
  unfold downloadVideo. rewrite Hdir, Hrun. cbn [negb].
  assert (Hnone : destination outputStr = "").
  { unfold destination. apply scan_quiet. intros l Hl. split.
    - exact (Split_pieces_quiet _ LF _ H1 l Hl).
    - exact (Split_pieces_quiet _ LF _ H2 l Hl). }
  rewrite Hnone. reflexivity.
Qed.

(** X9 in a world where yt-dlp reports that the file is already there. *)
Lemma already_downloaded_output :
  downloadVideo
    (BuildEnv (fun _ => None) (fun _ _ => true)
              (fun _ _ _ => Some "[download] /music/Jazz/a.mp3 has already been downloaded")
              (fun _ => StatOK 4096) (fun _ => false) (fun _ => Scenario.noon))
    Scenario.dl "a" "Jazz"
  = inl ErrNoFilePath.
Proof.
  apply (downloadVideo_needs_announcement
           _ _ _ _ "[download] /music/Jazz/a.mp3 has already been downloaded");
    vm_compute; reflexivity.
Defined.

End OutputFacts.

(** ** What a pass does to the store *)

Module IngestionCoverage.
Import strings database validator downloader Notions StoreFacts DownloaderFacts
       StoreCoverage.

Section Pass.

Variables (env : Env) (dl : Downloader) (playlist : Playlist.t)
          (playlistName : string).

Lemma processVideo_adds (callback : bool) (d : Database) (calls : list Call)
      (video : VideoInfo.t) (filePath : string) (fileSize : Z) :
  driver_fails env (OpVideoExists (VideoInfo.ID video)) = false ->
  VideoExists d (VideoInfo.ID video) = false ->
  downloadVideo env dl (VideoInfo.ID video) playlistName = inr (filePath, fileSize) ->
  driver_fails env (OpAddVideo (VideoInfo.ID video)) = false ->
  processVideo env dl playlist playlistName callback (d, calls) video
  = ((if driver_fails env (OpUpdateFileInfo (VideoInfo.ID video))
      then fst (AddVideo d (now_at env (OpAddVideo (VideoInfo.ID video)))
                         (VideoInfo.ID video) (Playlist.YoutubeID playlist)
                         (Playlist.Title playlist) (metadata_of video))
      else fst (UpdateFileInfo
                  (fst (AddVideo d (now_at env (OpAddVideo (VideoInfo.ID video)))
                                 (VideoInfo.ID video) (Playlist.YoutubeID playlist)
                                 (Playlist.Title playlist) (metadata_of video)))
                  (now_at env (OpUpdateFileInfo (VideoInfo.ID video)))
                  (VideoInfo.ID video) filePath fileSize)),
     invoke callback calls (VideoInfo.ID video) true).
Proof.
  intros Hprobe Hnew Hfetch Hadd. unfold processVideo.
  rewrite Hprobe, Hnew, Hfetch, Hadd.
  pose proof (AddVideo_no_error d (now_at env (OpAddVideo (VideoInfo.ID video)))
                                (VideoInfo.ID video) (Playlist.YoutubeID playlist)
                                (Playlist.Title playlist) (metadata_of video))
    as Hok.
  destruct (AddVideo _ _ _ _ _ _) as [d1 [e|]]; [discriminate Hok|].
  reflexivity.
Qed.

Lemma processVideo_skips (callback : bool) (d : Database) (calls : list Call)
      (video : VideoInfo.t) :
  negb (VideoExists d (VideoInfo.ID video))
  && fetched env dl playlistName (VideoInfo.ID video) = false ->
  fst (processVideo env dl playlist playlistName callback (d, calls) video) = d.
Proof.
  intros H. unfold processVideo.
  destruct (driver_fails env (OpVideoExists (VideoInfo.ID video))) eqn:E1;
    [reflexivity|].
  destruct (VideoExists d (VideoInfo.ID video)) eqn:E2; [reflexivity|].
  destruct (downloadVideo env dl (VideoInfo.ID video) playlistName)
    as [e|[filePath fileSize]] eqn:E3; [reflexivity|].
  destruct (driver_fails env (OpAddVideo (VideoInfo.ID video))) eqn:E4;
    [reflexivity|].
  unfold fetched in H. rewrite E1, E3, E4 in H. discriminate H.
Qed.

(** The decision of one step: either the video is brought in, with the
    facts that made it so, or the store stays. *)
Lemma processVideo_decides (d : Database) (video : VideoInfo.t) :
  (negb (VideoExists d (VideoInfo.ID video))
   && fetched env dl playlistName (VideoInfo.ID video) = true
   /\ driver_fails env (OpVideoExists (VideoInfo.ID video)) = false
   /\ VideoExists d (VideoInfo.ID video) = false
   /\ driver_fails env (OpAddVideo (VideoInfo.ID video)) = false
   /\ exists filePath fileSize,
        downloadVideo env dl (VideoInfo.ID video) playlistName
        = inr (filePath, fileSize))
  \/ negb (VideoExists d (VideoInfo.ID video))
     && fetched env dl playlistName (VideoInfo.ID video) = false.
Proof.
  unfold fetched.
  destruct (VideoExists d (VideoInfo.ID video)); [right; reflexivity|].
  destruct (driver_fails env (OpVideoExists (VideoInfo.ID video)));
    [right; reflexivity|].
  destruct (downloadVideo env dl (VideoInfo.ID video) playlistName)
    as [e|[filePath fileSize]]; [right; reflexivity|].
  destruct (driver_fails env (OpAddVideo (VideoInfo.ID video)));
    [right; reflexivity|].
  left. repeat split. exists filePath, fileSize. reflexivity.
Qed.

Lemma GetOrCreatePlaylist_find_kept (d : Database) (now : Time)
      (youtubeID title other : string) (p : Playlist.t) :
  find (by_youtube_id other) (playlists d) = Some p ->
  find (by_youtube_id other)
       (playlists (fst (GetOrCreatePlaylist d now youtubeID title)))
  = Some p.
Proof.
  intros Hp.
  destruct (find (by_youtube_id youtubeID) (playlists d)) as [q|] eqn:Hfind.
  - rewrite (GetOrCreatePlaylist_existing d now youtubeID title q Hfind). exact Hp.
  - rewrite (GetOrCreatePlaylist_fresh d now youtubeID title Hfind).
    cbn [fst playlists]. clear Hfind.
    induction (playlists d) as [|x l IH]; [discriminate Hp|].
    cbn [List.app find] in *. destruct (by_youtube_id other x); [exact Hp|].
    exact (IH Hp).
Qed.

Lemma AddVideo_files_under (d : Database) (now : Time)
      (youtubeID playlistYoutubeID playlistTitle : string)
      (metadata : VideoMetadata.t) :
  files_under playlist d ->
  files_under playlist
              (fst (AddVideo d now youtubeID playlistYoutubeID playlistTitle
                             metadata)).
Proof.
  unfold files_under. intros H.
  pose proof (AddVideo_unfold d now youtubeID playlistYoutubeID playlistTitle
                              metadata) as Hadd.
  cbv zeta in Hadd. rewrite Hadd. cbn [fst playlists].
  rewrite find_map_same;
    [|intros p; destruct (Playlist.ID p =? _); reflexivity].
  destruct (find (by_youtube_id (Playlist.YoutubeID playlist)) (playlists d))
    as [p|] eqn:Hp; [|discriminate H].
  rewrite (GetOrCreatePlaylist_find_kept d now playlistYoutubeID playlistTitle
                                         _ p Hp).
  cbn [option_map] in *. destruct (Playlist.ID p =? _); exact H.
Qed.

Lemma processVideo_files_under (callback : bool) (d : Database)
      (calls : list Call) (video : VideoInfo.t) :
  files_under playlist d ->
  files_under playlist
              (fst (processVideo env dl playlist playlistName callback
                                 (d, calls) video)).
Proof.
  intros H.
  destruct (processVideo_decides d video)
    as [[_ [E1 [E2 [E4 [filePath [fileSize E3]]]]]]|Hskip].
  - rewrite (processVideo_adds callback d calls video filePath fileSize E1 E2 E3 E4).
    cbn [fst].
    destruct (driver_fails env (OpUpdateFileInfo (VideoInfo.ID video))).
    + apply AddVideo_files_under. exact H.
    + unfold files_under. rewrite UpdateFileInfo_playlists.
      apply AddVideo_files_under. exact H.
  - rewrite (processVideo_skips callback d calls video Hskip). exact H.
Qed.

Lemma files_under_resolves (d : Database) (now : Time) :
  files_under playlist d ->
  GetOrCreatePlaylist d now (Playlist.YoutubeID playlist) (Playlist.Title playlist)
  = (d, snd (GetOrCreatePlaylist d now (Playlist.YoutubeID playlist)
                                 (Playlist.Title playlist)))
  /\ Playlist.ID (snd (GetOrCreatePlaylist d now (Playlist.YoutubeID playlist)
                                           (Playlist.Title playlist)))
     = Playlist.ID playlist.
Proof.
  unfold files_under. intros H.
  destruct (find (by_youtube_id (Playlist.YoutubeID playlist)) (playlists d))
    as [p|] eqn:Hp; [|discriminate H].
  rewrite (GetOrCreatePlaylist_existing d now _ _ p Hp). cbn [snd option_map] in *.
  split; [reflexivity | congruence].
Qed.

Lemma UpdateFileInfo_videos (d : Database) (now : Time)
      (youtubeID filePath : string) (fileSize : Z) :
  videos (fst (UpdateFileInfo d now youtubeID filePath fileSize))
  = map (fun v => if video_is youtubeID v
                  then Video.set_file_info filePath fileSize now v else v)
        (videos d).
Proof. reflexivity. Qed.

Lemma map_no_match {row : Type} (where_ : row -> bool) (set : row -> row)
      (table : list row) :
  existsb where_ table = false ->
  map (fun r => if where_ r then set r else r) table = table.
Proof. exact (update_no_match where_ set table). Qed.

(** One step appends at most one row, and only a row as [ingested]
    describes; the rows already there stay as they are. *)
Lemma processVideo_appends (callback : bool) (d : Database) (calls : list Call)
      (video : VideoInfo.t) :
  files_under playlist d ->
  exists added,
    videos (fst (processVideo env dl playlist playlistName callback
                              (d, calls) video))
    = List.app (videos d) added
    /\ map Video.youtube_id added
       = (if negb (VideoExists d (VideoInfo.ID video))
             && fetched env dl playlistName (VideoInfo.ID video)
          then [VideoInfo.ID video] else nil)
    /\ (forall row, In row added -> ingested env dl playlistName playlist row).
Proof.
  intros Hunder.
  destruct (processVideo_decides d video)
    as [[Hyes [E1 [E2 [E4 [filePath [fileSize E3]]]]]]|Hskip].
  - rewrite (processVideo_adds callback d calls video filePath fileSize E1 E2 E3 E4).
    rewrite Hyes. cbn [fst].
    pose proof (AddVideo_videos d (now_at env (OpAddVideo (VideoInfo.ID video)))
                                (VideoInfo.ID video) (Playlist.YoutubeID playlist)
                                (Playlist.Title playlist) (metadata_of video))
      as Hadd.
    rewrite E2 in Hadd.
    destruct (files_under_resolves
                d (now_at env (OpAddVideo (VideoInfo.ID video))) Hunder)
      as [_ Hkey].
    destruct (driver_fails env (OpUpdateFileInfo (VideoInfo.ID video))) eqn:E5.
    + eexists. split; [exact Hadd|]. split; [reflexivity|].
      intros row [<-|[]]. unfold ingested, offered_row.
      cbn [Video.playlist_id Video.playlist_title Video.youtube_id Video.meta
           Video.file_path Video.file_size Video.validation_status].
      split; [exact Hkey|]. split; [reflexivity|].
      exists filePath, fileSize. split; [exact E3|]. rewrite E5.
      repeat split; reflexivity.
    + rewrite UpdateFileInfo_videos, Hadd, map_app.
      rewrite (map_no_match _ _ _ E2). cbn [map].
      unfold video_is at 1, offered_row at 1. cbn [Video.youtube_id].
      rewrite String.eqb_refl.
      eexists. split; [reflexivity|]. split; [reflexivity|].
      intros row [<-|[]]. unfold ingested, offered_row, Video.set_file_info.
      cbn [Video.playlist_id Video.playlist_title Video.youtube_id Video.meta
           Video.file_path Video.file_size Video.validation_status].
      split; [exact Hkey|]. split; [reflexivity|].
      exists filePath, fileSize. split; [exact E3|]. rewrite E5.
      repeat split; reflexivity.
  - rewrite (processVideo_skips callback d calls video Hskip), Hskip.
    exists nil. rewrite app_nil_r.
    split; [reflexivity|]. split; [reflexivity|]. intros row [].
Qed.

Lemma told_downloaded (d : Database) (videoID : string) :
  map fst (filter snd (told env dl playlistName d videoID))
  = (if negb (VideoExists d videoID) && fetched env dl playlistName videoID
     then [videoID] else nil).
Proof.
  unfold told, fetched.
  destruct (driver_fails env (OpVideoExists videoID));
    [destruct (VideoExists d videoID); reflexivity|].
  destruct (VideoExists d videoID); [reflexivity|].
  destruct (downloadVideo env dl videoID playlistName) as [e|r]; [reflexivity|].
  destruct (driver_fails env (OpAddVideo videoID)); reflexivity.
Qed.

Lemma loop_appends :
  forall (listing : list VideoInfo.t) (d : Database) (calls : list Call),
    files_under playlist d ->
    exists added,
      videos (fst (fold_left (processVideo env dl playlist playlistName true)
                             listing (d, calls)))
      = List.app (videos d) added
      /\ map fst (filter snd
                    (snd (fold_left (processVideo env dl playlist playlistName true)
                                    listing (d, calls))))
         = List.app (map fst (filter snd calls)) (map Video.youtube_id added)
      /\ (forall row, In row added -> ingested env dl playlistName playlist row).
Proof.
  induction listing as [|video listing IH]; intros d calls Hunder.
  - exists nil. cbn [fold_left fst snd map]. rewrite !app_nil_r.
    split; [reflexivity|]. split; [reflexivity|]. intros row [].
  - cbn [fold_left].
    destruct (processVideo_appends true d calls video Hunder)
      as [added1 [Hv1 [Hk1 Hrows1]]].
    pose proof (processVideo_calls env dl playlist playlistName true d calls video)
      as Hc1.
    pose proof (processVideo_files_under true d calls video Hunder) as Hunder1.
    destruct (processVideo env dl playlist playlistName true (d, calls) video)
      as [d1 calls1].
    cbn [fst snd] in *.
    destruct (IH d1 calls1 Hunder1) as [added2 [Hv2 [Hk2 Hrows2]]].
    exists (List.app added1 added2). split; [|split].
    + rewrite Hv2, Hv1, app_assoc. reflexivity.
    + rewrite Hk2, Hc1, filter_app, !map_app, told_downloaded, <- Hk1.
      rewrite app_assoc. reflexivity.
    + intros row Hin. apply in_app_or in Hin.
      destruct Hin as [Hin|Hin]; [exact (Hrows1 row Hin) | exact (Hrows2 row Hin)].
Qed.

End Pass.

(** Every outcome of [ProcessPlaylist] is one of three, and which one
    does not depend on the callback. *)
Lemma ProcessPlaylist_shape (env : Env) (dl : Downloader) (d : Database)
      (playlistURL playlistName : string) :
  let start :=
    GetOrCreatePlaylist
      d (now_at env (OpGetOrCreatePlaylist (extractPlaylistID playlistURL)))
      (extractPlaylistID playlistURL) playlistName in
  (exists e, forall callback,
        ProcessPlaylist env dl d playlistURL playlistName callback
        = BuildOutcome d nil (Some e))
  \/ (forall callback,
         ProcessPlaylist env dl d playlistURL playlistName callback
         = BuildOutcome (fst start) nil (Some ErrGetPlaylistVideos))
  \/ (exists listing, forall callback,
         ProcessPlaylist env dl d playlistURL playlistName callback
         = BuildOutcome
             (fst (fold_left (processVideo env dl (snd start) playlistName callback)
                             listing (fst start, nil)))
             (snd (fold_left (processVideo env dl (snd start) playlistName callback)
                             listing (fst start, nil)))
             None).
Proof.
  cbv zeta. unfold ProcessPlaylist, getPlaylistVideos.
  destruct (String.eqb (extractPlaylistID playlistURL) "");
    [left; eexists; intros; reflexivity|].
  destruct (driver_fails env _); [left; eexists; intros; reflexivity|].
  destruct (GetOrCreatePlaylist _ _ _ _) as [d1 playlist].
  destruct (yt_dlp_dump_single_json env playlistURL) as [entries|].
  - right. right. exists (listing_of playlistURL entries). intros callback.
    cbn [fst snd]. unfold listing_of.
    destruct (fold_left _ _ _) as [d2 calls2]. reflexivity.
  - right. left. intros callback. reflexivity.
Qed.

(** X10.  A pass only appends to the [videos] table: the rows that were
    there stay, unchanged and in place.  The rows appended are those of
    the videos reported with [downloaded = true], in that order, one
    each; each is filed under the playlist row of the pass and carries
    that row's stored title, together with the announced file and its
    size, marked [valid] (or the values [AddVideo] wrote, when the call
    recording the file failed). *)
Theorem ProcessPlaylist_appends_ingested_rows :
  forall (env : Env) (dl : Downloader) (d : Database)
         (playlistURL playlistName : string),
    let r := ProcessPlaylist env dl d playlistURL playlistName true in
    let playlist :=
      snd (GetOrCreatePlaylist
             d (now_at env (OpGetOrCreatePlaylist (extractPlaylistID playlistURL)))
             (extractPlaylistID playlistURL) playlistName) in
    exists added,
      videos (db r) = List.app (videos d) added
      /\ map Video.youtube_id added = map fst (filter snd (calls r))
      /\ (forall row, In row added ->
                      ingested env dl playlistName playlist row).
Proof.
  intros env dl d playlistURL playlistName. cbv zeta.
  destruct (ProcessPlaylist_shape env dl d playlistURL playlistName)
    as [[e Hr]|[Hr|[listing Hr]]]; rewrite (Hr true); cbn [db calls].
  - exists nil. rewrite app_nil_r.
    split; [reflexivity|]. split; [reflexivity|]. intros row [].
  - exists nil. rewrite app_nil_r, GetOrCreatePlaylist_videos.
    split; [reflexivity|]. split; [reflexivity|]. intros row [].
  - assert (Hunder : files_under
                       (snd (GetOrCreatePlaylist
                               d (now_at env (OpGetOrCreatePlaylist
                                                (extractPlaylistID playlistURL)))
                               (extractPlaylistID playlistURL) playlistName))
                       (fst (GetOrCreatePlaylist
                               d (now_at env (OpGetOrCreatePlaylist
                                                (extractPlaylistID playlistURL)))
                               (extractPlaylistID playlistURL) playlistName))).
    { unfold files_under.
      destruct (GetOrCreatePlaylist_returns_row
                  d (now_at env (OpGetOrCreatePlaylist
                                   (extractPlaylistID playlistURL)))
                  (extractPlaylistID playlistURL) playlistName) as [_ Hy].
      rewrite Hy, GetOrCreatePlaylist_finds. reflexivity. }
    destruct (loop_appends env dl _ playlistName listing _ nil Hunder)
      as [added [Hv [Hk Hrows]]].
    exists added. rewrite Hv, Hk, GetOrCreatePlaylist_videos.
    split; [reflexivity|]. split; [reflexivity|]. exact Hrows.
Qed.

End IngestionCoverage.

(** ** Invariants of the store *)

Module InvariantFacts.
Import database validator downloader Notions StoreFacts DownloaderFacts
       StoreCoverage IngestionCoverage.

(** What [GetOrCreatePlaylist], [AddVideo] of a new video and
    [UpdateFileInfo] keep, a pass keeps. *)
Lemma ProcessPlaylist_keeps (P : Database -> Prop) :
  (forall d now youtubeID title,
      P d -> P (fst (GetOrCreatePlaylist d now youtubeID title))) ->
  (forall d now youtubeID playlistYoutubeID playlistTitle metadata,
      VideoExists d youtubeID = false ->
      P d ->
      P (fst (AddVideo d now youtubeID playlistYoutubeID playlistTitle metadata))) ->
  (forall d now youtubeID filePath fileSize,
      P d -> P (fst (UpdateFileInfo d now youtubeID filePath fileSize))) ->
  forall (env : Env) (dl : Downloader) (d : Database)
         (playlistURL playlistName : string) (callback : bool),
    P d -> P (db (ProcessPlaylist env dl d playlistURL playlistName callback)).
Proof.
  intros Hplaylist Hadd Hupdate env dl d playlistURL playlistName callback Hd.
  assert (Hstep : forall playlist d0 calls0 v,
             P d0 ->
             P (fst (processVideo env dl playlist playlistName callback
                                  (d0, calls0) v))).
  { intros playlist d0 calls0 v H0.
    destruct (processVideo_decides env dl playlistName d0 v)
      as [[_ [E1 [E2 [E4 [filePath [fileSize E3]]]]]]|Hskip].
    - rewrite (processVideo_adds env dl playlist playlistName callback d0 calls0 v
                                 filePath fileSize E1 E2 E3 E4).
      cbn [fst]. destruct (driver_fails env (OpUpdateFileInfo (VideoInfo.ID v)));
        [|apply Hupdate]; apply Hadd; assumption.
    - rewrite (processVideo_skips env dl playlist playlistName callback d0 calls0 v
                                  Hskip). exact H0. }
  assert (Hloop : forall playlist l st,
             P (fst st) ->
             P (fst (fold_left (processVideo env dl playlist playlistName callback)
                               l st))).
  { intros playlist. induction l as [|v l IH]; intros [d0 c0] H0; [exact H0|].
    cbn [fold_left]. apply IH. apply Hstep. exact H0. }
  destruct (ProcessPlaylist_shape env dl d playlistURL playlistName)
    as [[e Hr]|[Hr|[listing Hr]]]; rewrite (Hr callback); cbn [db].
  - exact Hd.
  - apply Hplaylist. exact Hd.
  - apply Hloop. cbn [fst]. apply Hplaylist. exact Hd.
Qed.

Lemma count_videos_app (playlistID : Z) (l l' : list Video.t) :
  count_videos playlistID (List.app l l')
  = count_videos playlistID l + count_videos playlistID l'.
Proof.
  unfold count_videos. rewrite filter_app, List.length_app. lia.
Qed.

Lemma count_videos_none (playlistID : Z) (l : list Video.t) :
  (forall v, In v l -> Video.playlist_id v <> playlistID) ->
  count_videos playlistID l = 0.
Proof.
  intros Hnone. unfold count_videos.
  induction l as [|v l IH]; [reflexivity|].
  cbn [filter].
  destruct (Video.playlist_id v =? playlistID) eqn:Hv.
  - apply Z.eqb_eq in Hv. destruct (Hnone v (or_introl eq_refl) Hv).
  - apply IH. intros w Hw. apply Hnone. right. exact Hw.
Qed.

Lemma count_videos_map (playlistID : Z) (f : Video.t -> Video.t)
      (l : list Video.t) :
  (forall v, Video.playlist_id (f v) = Video.playlist_id v) ->
  count_videos playlistID (map f l) = count_videos playlistID l.
Proof.
  intros Hf. unfold count_videos. f_equal.
  induction l as [|v l IH]; [reflexivity|].
  cbn [map filter]. rewrite Hf.
  destruct (Video.playlist_id v =? playlistID); cbn [List.length]; rewrite IH;
    reflexivity.
Qed.

Lemma GetOrCreatePlaylist_counts (d : Database) (now : Time)
      (youtubeID title : string) :
  counts_ok d -> counts_ok (fst (GetOrCreatePlaylist d now youtubeID title)).
Proof.
  intros [Hcount Hrefs].
  destruct (find (by_youtube_id youtubeID) (playlists d)) as [p|] eqn:Hfind.
  - rewrite (GetOrCreatePlaylist_existing d now youtubeID title p Hfind).
    split; assumption.
  - rewrite (GetOrCreatePlaylist_fresh d now youtubeID title Hfind).
    split; cbn [fst playlists videos playlists_seq].
    + intros p Hp. apply in_app_or in Hp. destruct Hp as [Hp|[<-|[]]].
      * destruct (Hcount p Hp) as [Hc Hk]. split; [exact Hc | lia].
      * cbn [Playlist.VideoCount Playlist.ID]. split; [|lia].
        symmetry. apply count_videos_none. intros v Hv.
        specialize (Hrefs v Hv). lia.
    + intros v Hv. specialize (Hrefs v Hv). lia.
Qed.

Lemma AddVideo_counts (d : Database) (now : Time)
      (youtubeID playlistYoutubeID playlistTitle : string)
      (metadata : VideoMetadata.t) :
  VideoExists d youtubeID = false ->
  counts_ok d ->
  counts_ok (fst (AddVideo d now youtubeID playlistYoutubeID playlistTitle
                           metadata)).
Proof.
  intros Hnew Hd.
  pose proof (GetOrCreatePlaylist_counts d now playlistYoutubeID playlistTitle Hd)
    as [Hcount Hrefs].
  destruct (GetOrCreatePlaylist_returns_row d now playlistYoutubeID playlistTitle)
    as [Hrow _].
  rewrite GetOrCreatePlaylist_videos in Hcount, Hrefs.
  pose proof (AddVideo_unfold d now youtubeID playlistYoutubeID playlistTitle
                              metadata) as Hadd.
  cbv zeta in Hadd. rewrite Hnew in Hadd. rewrite Hadd. clear Hadd.
  split; cbn [fst playlists videos playlists_seq].
  - intros q Hq. apply in_map_iff in Hq. destruct Hq as [p [<- Hp]].
    destruct (Hcount p Hp) as [Hc Hk].
    destruct (Playlist.ID p =? _) eqn:Hid.
    + apply Z.eqb_eq in Hid.
      cbn [Playlist.set_checked Playlist.VideoCount Playlist.ID].
      rewrite Hid. split; [reflexivity | lia].
    + apply Z.eqb_neq in Hid. split; [|exact Hk].
      rewrite count_videos_app, Hc.
      rewrite (count_videos_none (Playlist.ID p) [_]); [lia|].
      intros v [<-|[]]. cbn [offered_row Video.playlist_id]. congruence.
  - intros v Hv. apply in_app_or in Hv. destruct Hv as [Hv|[<-|[]]].
    + exact (Hrefs v Hv).
    + cbn [offered_row Video.playlist_id]. apply (Hcount _ Hrow).
Qed.

Lemma UpdateFileInfo_counts (d : Database) (now : Time)
      (youtubeID filePath : string) (fileSize : Z) :
  counts_ok d ->
  counts_ok (fst (UpdateFileInfo d now youtubeID filePath fileSize)).
Proof.
  intros [Hcount Hrefs].
  assert (Hkeep : forall v,
             Video.playlist_id
               (if video_is youtubeID v
                then Video.set_file_info filePath fileSize now v else v)
             = Video.playlist_id v)
    by (intros v; destruct (video_is youtubeID v); reflexivity).
  split.
  - intros p Hp. rewrite UpdateFileInfo_playlists in Hp.
    rewrite UpdateFileInfo_videos, (count_videos_map _ _ _ Hkeep).
    exact (Hcount p Hp).
  - intros v Hv. rewrite UpdateFileInfo_videos in Hv.
    apply in_map_iff in Hv. destruct Hv as [w [<- Hw]].
    rewrite Hkeep. exact (Hrefs w Hw).
Qed.

Lemma validated_playlist (stat : string -> StatResult) (now : Time) (v : Video.t) :
  Video.playlist_id (validated stat now v) = Video.playlist_id v.
Proof. unfold validated. destruct (Video.located v); reflexivity. Qed.

Lemma ValidateFiles_counts (d : Database) (stat : string -> StatResult)
      (now : Time) :
  unique_videos d -> counts_ok d -> counts_ok (fst (ValidateFiles d stat now)).
Proof.
  intros Hunique [Hcount Hrefs]. rewrite (ValidateFiles_store d stat now Hunique).
  split; cbn [playlists videos playlists_seq].
  - intros p Hp. rewrite (count_videos_map _ _ _ (validated_playlist stat now)).
    exact (Hcount p Hp).
  - intros v Hv. apply in_map_iff in Hv. destruct Hv as [w [<- Hw]].
    rewrite validated_playlist. exact (Hrefs w Hw).
Qed.

(** X12.  The bookkeeping of the counts survives ingestion and sweeps.
    On a store where every playlist's [video_count] is the number of
    videos that reference it (and no key lies beyond the last one handed
    out), the same holds after a pass of [ProcessPlaylist], after
    [AddVideo] of a video the store does not have, after
    [UpdateFileInfo] and after [ValidateFiles]. *)
Theorem counts_survive_ingestion :
  forall d : Database,
    counts_ok d ->
    (forall env dl playlistURL playlistName callback,
        counts_ok (db (ProcessPlaylist env dl d playlistURL playlistName callback)))
    /\ (forall now youtubeID playlistYoutubeID playlistTitle metadata,
           VideoExists d youtubeID = false ->
           counts_ok (fst (AddVideo d now youtubeID playlistYoutubeID
                                    playlistTitle metadata)))
    /\ (forall now youtubeID filePath fileSize,
           counts_ok (fst (UpdateFileInfo d now youtubeID filePath fileSize)))
    /\ (forall stat now,
           unique_videos d -> counts_ok (fst (ValidateFiles d stat now))).
Proof.
  intros d Hd. split; [|split; [|split]].
  - intros env dl playlistURL playlistName callback.
    apply (ProcessPlaylist_keeps counts_ok); try assumption.
    + exact GetOrCreatePlaylist_counts.
    + exact AddVideo_counts.
    + exact UpdateFileInfo_counts.
  - intros now youtubeID playlistYoutubeID playlistTitle metadata Hnew.
    apply AddVideo_counts; assumption.
  - intros now youtubeID filePath fileSize. apply UpdateFileInfo_counts. exact Hd.
  - intros stat now Hunique. apply ValidateFiles_counts; assumption.
Qed.

Lemma NewDatabase_counts : counts_ok NewDatabase.
Proof. split; intros x []. Qed.

(** X12 from the empty store: after a pass over three tracks the count
    of the playlist is the number of its rows. *)
Lemma counts_after_first_pass :
  counts_ok
    (db (ProcessPlaylist (Scenario.world (Some Scenario.three_tracks)
                                         (fun _ => false))
                         Scenario.dl NewDatabase "PL1" "Jazz" true)).
Proof.
  exact (proj1 (counts_survive_ingestion NewDatabase NewDatabase_counts)
               _ _ _ _ _).
Defined.

Lemma map_map_same {A B : Type} (key : A -> B) (f : A -> A) (l : list A) :
  (forall x, key (f x) = key x) -> map key (map f l) = map key l.
Proof.
  intros Hf. rewrite map_map. apply map_ext. exact Hf.
Qed.

Lemma GetOrCreatePlaylist_keys_ok (d : Database) (now : Time)
      (youtubeID title : string) :
  keys_ok d -> keys_ok (fst (GetOrCreatePlaylist d now youtubeID title)).
Proof.
  intros [Hseq [Hyids [Hids [Hbound Hrefs]]]].
  destruct (find (by_youtube_id youtubeID) (playlists d)) as [p|] eqn:Hfind.
  - rewrite (GetOrCreatePlaylist_existing d now youtubeID title p Hfind).
    repeat split; try assumption; apply Hbound; assumption.
  - rewrite (GetOrCreatePlaylist_fresh d now youtubeID title Hfind).
    unfold keys_ok. cbn [fst playlists videos playlists_seq]. rewrite !map_app.
    cbn [map Playlist.YoutubeID Playlist.ID].
    split; [lia|]. split; [|split; [|split]].
    + apply NoDup_app; [exact Hyids | repeat constructor; simpl; tauto |].
      intros x Hin [<-|[]]. destruct (find_present _ _ Hin) as [p Hp]. congruence.
    + apply NoDup_app; [exact Hids | repeat constructor; simpl; tauto |].
      intros x Hin [<-|[]]. apply in_map_iff in Hin. destruct Hin as [p [Hp Hin]].
      specialize (Hbound p Hin). lia.
    + intros p Hp. apply in_app_or in Hp. destruct Hp as [Hp|[<-|[]]].
      * specialize (Hbound p Hp). lia.
      * cbn [Playlist.ID]. lia.
    + intros v Hv. apply in_or_app. left. exact (Hrefs v Hv).
Qed.

Lemma AddVideo_keys_ok (d : Database) (now : Time)
      (youtubeID playlistYoutubeID playlistTitle : string)
      (metadata : VideoMetadata.t) :
  keys_ok d ->
  keys_ok (fst (AddVideo d now youtubeID playlistYoutubeID playlistTitle metadata)).
Proof.
  intros Hd.
  pose proof (GetOrCreatePlaylist_keys_ok d now playlistYoutubeID playlistTitle Hd)
    as [Hseq [Hyids [Hids [Hbound Hrefs]]]].
  destruct (GetOrCreatePlaylist_returns_row d now playlistYoutubeID playlistTitle)
    as [Hrow _].
  rewrite GetOrCreatePlaylist_videos in Hrefs.
  pose proof (AddVideo_unfold d now youtubeID playlistYoutubeID playlistTitle
                              metadata) as Hadd.
  cbv zeta in Hadd. rewrite Hadd. clear Hadd.
  unfold keys_ok. cbn [fst playlists videos playlists_seq].
  rewrite !map_map_same
    by (intros p; destruct (Playlist.ID p =? _); reflexivity).
  split; [exact Hseq|]. split; [exact Hyids|]. split; [exact Hids|]. split.
  - intros q Hq. apply in_map_iff in Hq. destruct Hq as [p [<- Hp]].
    specialize (Hbound p Hp). destruct (Playlist.ID p =? _); exact Hbound.
  - intros v Hv. destruct (VideoExists d youtubeID).
    + apply in_map_iff in Hv. destruct Hv as [w [<- Hw]].
      destruct (video_is youtubeID w); [|exact (Hrefs w Hw)].
      cbn [Video.overwrite offered_row Video.playlist_id].
      apply in_map. exact Hrow.
    + apply in_app_or in Hv. destruct Hv as [Hv|[<-|[]]]; [exact (Hrefs v Hv)|].
      cbn [offered_row Video.playlist_id]. apply in_map. exact Hrow.
Qed.

Lemma UpdateFileInfo_keys_ok (d : Database) (now : Time)
      (youtubeID filePath : string) (fileSize : Z) :
  keys_ok d -> keys_ok (fst (UpdateFileInfo d now youtubeID filePath fileSize)).
Proof.
  intros [Hseq [Hyids [Hids [Hbound Hrefs]]]].
  repeat split; try assumption; try (apply Hbound; assumption).
  intros v Hv. rewrite UpdateFileInfo_videos in Hv.
  apply in_map_iff in Hv. destruct Hv as [w [<- Hw]].
  rewrite UpdateFileInfo_playlists.
  destruct (video_is youtubeID w); exact (Hrefs w Hw).
Qed.

Lemma ValidateFiles_keys_ok (d : Database) (stat : string -> StatResult)
      (now : Time) :
  unique_videos d -> keys_ok d -> keys_ok (fst (ValidateFiles d stat now)).
Proof.
  intros Hunique [Hseq [Hyids [Hids [Hbound Hrefs]]]].
  rewrite (ValidateFiles_store d stat now Hunique).
  repeat split; try assumption; try (apply Hbound; assumption).
  intros v Hv. cbn [videos playlists] in *.
  apply in_map_iff in Hv. destruct Hv as [w [<- Hw]].
  rewrite validated_playlist. exact (Hrefs w Hw).
Qed.

Lemma CleanupMissingFiles_store (d : Database) (stat : string -> StatResult) :
  fst (CleanupMissingFiles d stat)
  = BuildDatabase (playlists d)
                  (filter (fun v => negb (doomed stat (missing_rows (videos d)) v))
                          (videos d))
                  (playlists_seq d).
Proof.
  pose proof (CleanupMissingFiles_videos d stat) as Hv.
  unfold CleanupMissingFiles in *.
  destruct (fold_left (cleanup_row stat) (missing_rows (videos d)) (videos d, 0))
    as [table deleted].
  cbn [fst videos] in *. rewrite Hv. reflexivity.
Qed.

Lemma CleanupMissingFiles_keys_ok (d : Database) (stat : string -> StatResult) :
  keys_ok d -> keys_ok (fst (CleanupMissingFiles d stat)).
Proof.
  intros [Hseq [Hyids [Hids [Hbound Hrefs]]]]. rewrite CleanupMissingFiles_store.
  repeat split; try assumption; try (apply Hbound; assumption).
  intros v Hv. cbn [videos playlists] in *.
  apply filter_In in Hv. exact (Hrefs v (proj1 Hv)).
Qed.

(** X13.  Every store the program can reach from a fresh one, by any
    sequence of passes, insertions, updates, sweeps and cleanups, obeys
    the constraints of the schema: one video row per [youtube_id], one
    playlist row per [youtube_id], distinct positive playlist keys, and
    every video filed under a playlist row that exists. *)
Theorem reachable_store_obeys_schema :
  forall d : Database, reachable d -> unique_videos d /\ keys_ok d.
Proof.
  intros d Hreach.
  induction Hreach
    as [| d now youtubeID title _ [IHu IHk]
        | d now youtubeID playlistYoutubeID playlistTitle metadata _ [IHu IHk]
        | d now youtubeID filePath fileSize _ [IHu IHk]
        | d stat now _ [IHu IHk]
        | d stat _ [IHu IHk]
        | env dl d playlistURL playlistName callback _ [IHu IHk]].
  - split; [exact NewDatabase_unique|].
    unfold keys_ok. cbn. repeat split; try constructor; try lia; intros x [].
  - split; [apply GetOrCreatePlaylist_unique | apply GetOrCreatePlaylist_keys_ok];
      assumption.
  - split; [apply AddVideo_unique | apply AddVideo_keys_ok]; assumption.
  - split; [apply UpdateFileInfo_unique | apply UpdateFileInfo_keys_ok];
      assumption.
  - split; [apply ValidateFiles_unique | apply ValidateFiles_keys_ok]; assumption.
  - split; [apply CleanupMissingFiles_unique | apply CleanupMissingFiles_keys_ok];
      assumption.
  - split; [apply ProcessPlaylist_unique; assumption|].
    apply (ProcessPlaylist_keeps keys_ok); try assumption.
    + exact GetOrCreatePlaylist_keys_ok.
    + intros. apply AddVideo_keys_ok. assumption.
    + exact UpdateFileInfo_keys_ok.
Qed.

(** X13 for a pass over three tracks, swept and cleaned up on an empty
    disk. *)
Lemma swept_and_cleaned_store_obeys_schema :
  let d1 := db (ProcessPlaylist (Scenario.world (Some Scenario.three_tracks)
                                                (fun _ => false))
                                Scenario.dl NewDatabase "PL1" "Jazz" true) in
  let d2 := fst (ValidateFiles d1 Scenario.empty_disk Scenario.noon) in
  let d3 := fst (CleanupMissingFiles d2 Scenario.empty_disk) in
  unique_videos d3 /\ keys_ok d3.
Proof.
  cbv zeta. apply reachable_store_obeys_schema.
  apply reach_CleanupMissingFiles, reach_ValidateFiles, reach_ProcessPlaylist,
    reach_NewDatabase.
Defined.

End InvariantFacts.

(** ** cmd/pp-downloader: passes and their schedule *)

Module MainFacts.
Import strings database downloader Notions StringFacts StoreFacts DownloaderFacts
       OutputFacts IngestionCoverage.

Lemma Contains_Cut (sep : string) :
  forall s : string,
    Contains s sep = true -> exists before after, Cut s sep = Some (before, after).
Proof.
  induction s as [|c s IH]; intros H.
  - cbn [Contains Cut] in *. rewrite orb_false_r in H. rewrite H.
    eexists. eexists. reflexivity.
  - cbn [Contains Cut] in *. destruct (HasPrefix (String c s) sep).
    + eexists. eexists. reflexivity.
    + cbn [orb] in H. destruct (IH H) as [before [after Hcut]].
      rewrite Hcut. eexists. eexists. reflexivity.
Qed.

Lemma Split_short (s sep : string) :
  sep <> "" ->
  (List.length (Split s sep) <? 2)%nat = negb (Contains s sep).
Proof.
  intros Hsep. destruct (Contains s sep) eqn:Hc.
  - destruct (Contains_Cut sep s Hc) as [before [after Hcut]].
    rewrite (Split_cons s sep before after Hsep Hcut).
    pose proof (Split_not_empty after sep) as Hne.
    destruct (Split after sep); [contradiction | reflexivity].
  - rewrite (Split_whole s sep (Cut_None s sep Hc)). reflexivity.
Qed.

Lemma index_from_Cut (sep : string) :
  forall (s : string) (i : Z),
    index_from s sep i
    = match Cut s sep with
      | Some (before, _) => i + Z.of_nat (String.length before)
      | None => -1
      end.
Proof.
  induction s as [|c s IH]; intros i.
  - cbn [index_from Cut]. destruct (HasPrefix "" sep); cbn [String.length]; lia.
  - cbn [index_from Cut]. destruct (HasPrefix (String c s) sep).
    + cbn [String.length]. lia.
    + rewrite IH. destruct (Cut s sep) as [[before after]|]; [|reflexivity].
      cbn [String.length]. lia.
Qed.

Lemma take_app (t : string) :
  forall s : string, take (String.length s) (s ++ t) = s.
Proof.
  induction s as [|c s IH]; [destruct t; reflexivity|].
  cbn [String.length append take]. rewrite IH. reflexivity.
Qed.

(** The slice [s[:Index(s, "&")]] of a token followed by nothing or by a
    parameter. *)
Lemma cut_at_ampersand (tok rest : string) :
  Contains tok "&" = false ->
  rest = "" \/ (exists r, rest = String "&" r) ->
  (if negb (Index (tok ++ rest) "&" =? -1)
   then take (Z.to_nat (Index (tok ++ rest) "&")) (tok ++ rest)
   else tok ++ rest)
  = tok.
Proof.
  intros Hamp [->|[r ->]]; unfold Index; rewrite index_from_Cut.
  - rewrite append_empty, (Cut_None _ _ Hamp). reflexivity.
  - rewrite (Cut_byte "&" r tok Hamp).
    replace (0 + Z.of_nat (String.length tok) =? -1) with false
      by (symmetry; apply Z.eqb_neq; lia).
    cbn [negb]. rewrite Z.add_0_l, Nat2Z.id. apply take_app.
Qed.

(** The second piece of the split on [list=] is the token, followed by
    nothing or by a parameter. *)
Lemma piece_after_token (tok rest : string) :
  Contains tok "list=" = false ->
  rest = "" \/ (exists r, rest = String "&" r) \/ (exists r, rest = "list=" ++ r) ->
  exists rest',
    match Cut (tok ++ rest) "list=" with
    | Some (piece, _) => piece
    | None => tok ++ rest
    end = tok ++ rest'
    /\ (rest' = "" \/ (exists r', rest' = String "&" r')).
Proof.
  intros Hlist [->|[[r ->]|[r ->]]].
  - exists "". rewrite append_empty, (Cut_None _ _ Hlist).
    split; [reflexivity | left; reflexivity].
  - rewrite (Cut_skip "&" r "list=" eq_refl) by (discriminate || exact Hlist).
    cbn [Cut HasPrefix Ascii.eqb Bool.eqb andb].
    destruct (Cut r "list=") as [[b a]|].
    + exists (String "&" b). split; [reflexivity | right; exists b; reflexivity].
    + exists (String "&" r). split; [reflexivity | right; exists r; reflexivity].
  - exists "". rewrite (Cut_list_token tok r Hlist), append_empty.
    split; [reflexivity | left; reflexivity].
Qed.

Lemma main_extractPlaylistID_token (pre tok rest : string) :
  Contains pre "list=" = false ->
  Contains tok "&" = false ->
  Contains tok "list=" = false ->
  rest = "" \/ (exists r, rest = String "&" r) \/ (exists r, rest = "list=" ++ r) ->
  main.extractPlaylistID (pre ++ "list=" ++ tok ++ rest) = (tok, None).
Proof.
  intros Hpre Hamp Hlist Hrest. unfold main.extractPlaylistID.
  pose proof (Cut_list_token pre (tok ++ rest) Hpre) as Hcut.
  assert (Hlen : (2 <= String.length (pre ++ "list=" ++ tok ++ rest))%nat)
    by (rewrite !length_app; cbn [String.length]; lia).
  destruct (Split_second _ _ _ _ Hcut Hlen) as [Hmany Hpiece].
  replace (List.length (Split (pre ++ "list=" ++ tok ++ rest) "list=") <? 2)%nat
    with false
    by (symmetry; apply Nat.ltb_ge; apply Nat.ltb_lt in Hmany; lia).
  rewrite Hpiece.
  destruct (piece_after_token tok rest Hlist Hrest) as [rest' [-> Hrest']].
  rewrite (cut_at_ampersand tok rest' Hamp Hrest'). reflexivity.
Qed.

(** The text before the first occurrence holds no occurrence. *)
Lemma Cut_first (sep : string) :
  sep <> "" ->
  forall s before after : string,
    Cut s sep = Some (before, after) -> Contains before sep = false.
Proof.
  intros Hsep. induction s as [|c s IH]; intros before after Hcut.
  - cbn [Cut] in Hcut. destruct (HasPrefix "" sep) eqn:Hp; [|discriminate Hcut].
    destruct sep; [contradiction | discriminate Hp].
  - cbn [Cut] in Hcut. destruct (HasPrefix (String c s) sep) eqn:Hp.
    + injection Hcut as <- _. destruct sep; [contradiction | reflexivity].
    + destruct (Cut s sep) as [[b a]|] eqn:Hs; [|discriminate Hcut].
      injection Hcut as <- <-.
      cbn [Contains]. rewrite (IH b a eq_refl), orb_false_r.
      destruct (HasPrefix (String c b) sep) eqn:Hq; [|reflexivity].
      apply (HasPrefix_app_l (sep ++ a)) in Hq.
      cbn [append] in Hq. rewrite <- (Cut_sound sep s b a Hs) in Hq. congruence.
Qed.

Lemma Cut_absent (s sep : string) : Cut s sep = None -> Contains s sep = false.
Proof.
  intros Hcut. destruct (Contains s sep) eqn:Hc; [|reflexivity].
  destruct (Contains_Cut sep s Hc) as [before [after H]]. congruence.
Qed.

(** Every reference that holds [list=] reads as: a text without [list=],
    the first [list=], a token without [&] and [list=], and then the end,
    a [&] or the next [list=]. *)
Lemma token_exists (url : string) :
  Contains url "list=" = true ->
  exists pre tok rest,
    url = pre ++ "list=" ++ tok ++ rest
    /\ Contains pre "list=" = false
    /\ Contains tok "&" = false
    /\ Contains tok "list=" = false
    /\ (rest = "" \/ (exists r, rest = String "&" r)
        \/ (exists r, rest = "list=" ++ r)).
Proof.
  intros Hurl.
  assert (Hsep : "list=" <> "") by discriminate.
  assert (Hamp : "&" <> "") by discriminate.
  destruct (Contains_Cut "list=" url Hurl) as [pre [after Hcut]].
  pose proof (Cut_first "list=" Hsep url pre after Hcut) as Hpre.
  apply Cut_sound in Hcut. exists pre.
  destruct (Cut after "list=") as [[piece r1]|] eqn:Hafter.
  - pose proof (Cut_first "list=" Hsep after piece r1 Hafter) as Hpiece.
    apply Cut_sound in Hafter.
    destruct (Cut piece "&") as [[tok r2]|] eqn:Hp.
    + pose proof (Cut_first "&" Hamp piece tok r2 Hp) as Htok.
      apply Cut_sound in Hp.
      exists tok, (String "&" (r2 ++ "list=" ++ r1)).
      split; [|split; [exact Hpre|split; [exact Htok|split]]].
      * rewrite Hcut, Hafter, Hp, !append_assoc. reflexivity.
      * rewrite Hp in Hpiece. exact (Contains_app_l_false _ _ _ Hpiece).
      * right. left. eexists. reflexivity.
    + exists piece, ("list=" ++ r1).
      split; [|split; [exact Hpre|split; [exact (Cut_absent _ _ Hp)|split]]].
      * rewrite Hcut, Hafter. reflexivity.
      * exact Hpiece.
      * right. right. eexists. reflexivity.
  - pose proof (Cut_absent _ _ Hafter) as Hpiece.
    destruct (Cut after "&") as [[tok r2]|] eqn:Hp.
    + pose proof (Cut_first "&" Hamp after tok r2 Hp) as Htok.
      apply Cut_sound in Hp.
      exists tok, (String "&" r2).
      split; [|split; [exact Hpre|split; [exact Htok|split]]].
      * rewrite Hcut, Hp. reflexivity.
      * rewrite Hp in Hpiece. exact (Contains_app_l_false _ _ _ Hpiece).
      * right. left. eexists. reflexivity.
    + exists after, "".
      split; [|split; [exact Hpre|split; [exact (Cut_absent _ _ Hp)|split]]].
      * rewrite Hcut, append_empty. reflexivity.
      * exact Hpiece.
      * left. reflexivity.
Qed.

(** The first piece of a split on [&] is the slice up to the first [&]. *)
Lemma first_piece_is_slice (piece : string) :
  nth 0 (Split piece "&") ""
  = (if negb (Index piece "&" =? -1)
     then take (Z.to_nat (Index piece "&")) piece
     else piece).
Proof.
  destruct piece as [|c piece]; [reflexivity|].
  rewrite Split_head by discriminate.
  unfold Index. rewrite index_from_Cut.
  destruct (Cut (String c piece) "&") as [[before after]|] eqn:Hcut;
    [|reflexivity].
  replace (0 + Z.of_nat (String.length before) =? -1) with false
    by (symmetry; apply Z.eqb_neq; lia).
  cbn [negb]. rewrite Z.add_0_l, Nat2Z.id.
  rewrite (Cut_sound "&" _ _ _ Hcut). symmetry. apply take_app.
Qed.

(** X14.  [extractPlaylistID] of package [main] fails exactly on the
    references that do not contain [list=].  Otherwise it returns the
    text between the first [list=] and whatever comes first after it:
    the end of the reference, a [&], or the next [list=]; the text may
    be empty, and every reference that contains [list=] reads in this
    way.  On an address of YouTube for which this text is not empty,
    [extractPlaylistID] of the downloader returns the same; a bare
    identifier, which the downloader takes as it is, is refused here. *)
Theorem main_extractPlaylistID_wants_list_token :
  forall url : string,
    (snd (main.extractPlaylistID url) <> None <-> Contains url "list=" = false)
    /\ (Contains url "list=" = false ->
        main.extractPlaylistID url = ("", Some (ErrInvalidPlaylistURL url))
        /\ (Contains url "youtube.com" = false ->
            Contains url "youtu.be" = false ->
            extractPlaylistID url = url))
    /\ (forall pre tok rest,
           url = pre ++ "list=" ++ tok ++ rest ->
           Contains pre "list=" = false ->
           Contains tok "&" = false ->
           Contains tok "list=" = false ->
           rest = "" \/ (exists r, rest = String "&" r)
           \/ (exists r, rest = "list=" ++ r) ->
           main.extractPlaylistID url = (tok, None))
    /\ (Contains url "list=" = true ->
        exists pre tok rest,
          url = pre ++ "list=" ++ tok ++ rest
          /\ Contains pre "list=" = false
          /\ Contains tok "&" = false
          /\ Contains tok "list=" = false
          /\ (rest = "" \/ (exists r, rest = String "&" r)
              \/ (exists r, rest = "list=" ++ r)))
    /\ (Contains url "list=" = true ->
        Contains url "youtube.com" = true \/ Contains url "youtu.be" = true ->
        fst (main.extractPlaylistID url) <> "" ->
        extractPlaylistID url = fst (main.extractPlaylistID url)).
Proof.
  intros url.
  assert (Hshort : (List.length (Split url "list=") <? 2)%nat
                   = negb (Contains url "list="))
    by (apply Split_short; discriminate).
  split; [|split; [|split; [|split]]].
  - unfold main.extractPlaylistID. rewrite Hshort.
    destruct (Contains url "list="); cbn [negb snd]; split; intros H;
      try reflexivity; try discriminate H; try (destruct (H eq_refl)).
    discriminate.
  - intros Hnone. split.
    + unfold main.extractPlaylistID. rewrite Hshort, Hnone. reflexivity.
    + apply extractPlaylistID_direct.
  - intros pre tok rest -> Hpre Hamp Hlist Hrest.
    apply main_extractPlaylistID_token; assumption.
  - apply token_exists.
  - intros Hlist Hyt. unfold main.extractPlaylistID, extractPlaylistID.
    rewrite Hshort, Hlist. cbn [negb fst].
    replace (negb (Contains url "youtube.com") && negb (Contains url "youtu.be"))
      with false
      by (destruct Hyt as [-> | ->]; cbn [negb andb];
          rewrite ?andb_false_r; reflexivity).
    replace (1 <? List.length (Split url "list="))%nat with true
      by (symmetry; apply Nat.ltb_lt;
          rewrite Hlist in Hshort; apply Nat.ltb_ge in Hshort; lia).
    rewrite first_piece_is_slice. intros Hne.
    apply String.eqb_neq in Hne. rewrite Hne. reflexivity.
Qed.

Lemma existsb_filter {A : Type} (f : A -> bool) (l : list A) :
  existsb f l = negb (Nat.eqb (List.length (filter f l)) 0).
Proof.
  induction l as [|x l IH]; [reflexivity|].
  cbn [existsb filter]. destruct (f x); [reflexivity | exact IH].
Qed.

(** The videos table grows by one row for each report of
    [downloaded = true]. *)
Lemma ProcessPlaylist_grows (env : Env) (dl : Downloader) (d : Database)
      (playlistURL playlistName : string) :
  let r := ProcessPlaylist env dl d playlistURL playlistName true in
  List.length (videos (db r))
  = (List.length (videos d) + List.length (filter snd (calls r)))%nat.
Proof.
  cbv zeta.
  destruct (ProcessPlaylist_shape env dl d playlistURL playlistName)
    as [[e Hr]|[Hr|[listing Hr]]]; rewrite (Hr true); cbn [db calls filter].
  - cbn [List.length]. lia.
  - rewrite GetOrCreatePlaylist_videos. cbn [List.length]. lia.
  - assert (Hunder : files_under
                       (snd (GetOrCreatePlaylist
                               d (now_at env (OpGetOrCreatePlaylist
                                                (extractPlaylistID playlistURL)))
                               (extractPlaylistID playlistURL) playlistName))
                       (fst (GetOrCreatePlaylist
                               d (now_at env (OpGetOrCreatePlaylist
                                                (extractPlaylistID playlistURL)))
                               (extractPlaylistID playlistURL) playlistName))).
    { unfold files_under.
      destruct (GetOrCreatePlaylist_returns_row
                  d (now_at env (OpGetOrCreatePlaylist
                                   (extractPlaylistID playlistURL)))
                  (extractPlaylistID playlistURL) playlistName) as [_ Hy].
      rewrite Hy, StoreCoverage.GetOrCreatePlaylist_finds. reflexivity. }
    destruct (loop_appends env dl _ playlistName listing _ nil Hunder)
      as [added [Hv [Hk _]]].
    rewrite Hv, List.length_app, GetOrCreatePlaylist_videos.
    f_equal. cbn [filter map List.app] in Hk.
    rewrite <- (length_map fst), Hk, length_map. reflexivity.
Qed.

Lemma processPlaylist_state (env : Env) (dl : Downloader) (d : Database)
      (name url : string) (state : main.playlistState) (now : Time) :
  snd (main.processPlaylist env dl d name url state now)
  = main.BuildState
      now
      (if (List.length (videos d)
           <? List.length (videos (fst (main.processPlaylist env dl d name url
                                                             state now))))%nat
       then now else main.lastChange state)
      (main.interval state).
Proof.
  unfold main.processPlaylist, main.updateState. cbn [fst snd].
  pose proof (ProcessPlaylist_grows env dl d url name) as Hgrow.
  cbv zeta in Hgrow.
  assert (Hnoted : existsb (fun call : Call => snd call)
                           (calls (ProcessPlaylist env dl d url name true))
                   = negb (Nat.eqb
                             (List.length
                                (filter snd (calls (ProcessPlaylist env dl d url
                                                                    name true))))
                             0))
    by apply existsb_filter.
  rewrite Hgrow, Hnoted.
  destruct (List.length (filter snd (calls (ProcessPlaylist env dl d url name true))))
    as [|n].
  - replace (List.length (videos d) <? List.length (videos d) + 0)%nat with false
      by (symmetry; apply Nat.ltb_ge; lia).
    reflexivity.
  - replace (List.length (videos d) <? List.length (videos d) + S n)%nat with true
      by (symmetry; apply Nat.ltb_lt; lia).
    reflexivity.
Qed.

(** X15.  [processPlaylist] runs one pass with the callback that notes a
    download, and records it: the store is that of the pass, the
    playlist counts as checked at the instant read, whether or not the
    pass failed, and as changed at that instant exactly when the pass
    added a row to the videos table.  A pass that returns an error adds
    no row and so leaves [lastChange] alone.  The [interval] field is
    never written. *)
Theorem processPlaylist_records_the_pass :
  forall (env : Env) (dl : Downloader) (d : Database) (name url : string)
         (state : main.playlistState) (now : Time),
    let r := main.processPlaylist env dl d name url state now in
    let grew := (List.length (videos d) <? List.length (videos (fst r)))%nat in
    fst r = db (ProcessPlaylist env dl d url name true)
    /\ main.lastChecked (snd r) = now
    /\ main.lastChange (snd r) = (if grew then now else main.lastChange state)
    /\ main.interval (snd r) = main.interval state
    /\ (err (ProcessPlaylist env dl d url name true) <> None ->
        grew = false /\ main.lastChange (snd r) = main.lastChange state).
Proof.
  intros env dl d name url state now. cbv zeta.
  rewrite processPlaylist_state. cbn [main.lastChecked main.lastChange main.interval].
  split; [reflexivity|]. split; [reflexivity|]. split; [reflexivity|].
  split; [reflexivity|].
  intros Herr.
  assert (Hsame : List.length (videos (fst (main.processPlaylist env dl d name url
                                                                 state now)))
                  = List.length (videos d)).
  { unfold main.processPlaylist. cbn [fst].
    destruct (ProcessPlaylist_shape env dl d url name)
      as [[e Hr]|[Hr|[listing Hr]]]; rewrite (Hr true) in *; cbn [db err] in *.
    - reflexivity.
    - rewrite GetOrCreatePlaylist_videos. reflexivity.
    - destruct (Herr eq_refl). }
  rewrite Hsame.
  replace (List.length (videos d) <? List.length (videos d))%nat with false
    by (symmetry; apply Nat.ltb_ge; lia).
  split; reflexivity.
Qed.

Lemma Sub_reaches (k : Duration) (t u : Time) :
  0 <= k <= 15 * time.Minute ->
  (k <=? time.Sub t u) = (k <=? t - u).
Proof.
  unfold time.Sub, time.minDuration, time.maxDuration.
  change (15 * time.Minute) with 900000000000.
  change (- 2 ^ 63) with (-9223372036854775808).
  change (2 ^ 63 - 1) with 9223372036854775807.
  intros Hk.
  destruct (t - u <? -9223372036854775808) eqn:Hlo;
    [apply Z.ltb_lt in Hlo | apply Z.ltb_ge in Hlo].
  - transitivity false; [apply Z.leb_gt; lia | symmetry; apply Z.leb_gt; lia].
  - destruct (9223372036854775807 <? t - u) eqn:Hhi;
      [apply Z.ltb_lt in Hhi | reflexivity].
    transitivity true; [apply Z.leb_le; lia | symmetry; apply Z.leb_le; lia].
Qed.

Lemma calculateInterval_either (ps : main.playlistState) (now : Time) :
  main.calculateInterval ps now = 5 * time.Minute
  \/ main.calculateInterval ps now = 15 * time.Minute.
Proof.
  unfold main.calculateInterval.
  destruct (time.Sub now (main.lastChange ps) <? time.Hour * 24);
    [left | right]; reflexivity.
Qed.

(** The states after the visit of one entry. *)
Lemma launch_step (force : bool) (now : Time) (clock : string -> Time)
      (states : main.States) (launched : list (string * string))
      (name url : string) :
  main.launch force now clock (states, launched) (name, url)
  = (match states url with
     | Some _ => states
     | None => main.set_state url main.initial states
     end,
     List.app launched
              (if due force now clock states (name, url) then [(name, url)]
               else nil)).
Proof.
  unfold main.launch, due, state_of, main.initial. cbn [fst snd].
  destruct (states url) as [state|];
    match goal with
    | |- context [if ?c then _ else _] => destruct c
    end; rewrite ?app_nil_r; reflexivity.
Qed.

Lemma state_of_visited (states : main.States) (url u : string) :
  state_of match states url with
           | Some _ => states
           | None => main.set_state url main.initial states
           end u
  = state_of states u.
Proof.
  destruct (states url) as [state|] eqn:Hurl; [reflexivity|].
  unfold state_of, main.set_state.
  destruct (String.eqb u url) eqn:Hu; [|reflexivity].
  apply String.eqb_eq in Hu. subst u. rewrite Hurl. reflexivity.
Qed.

Lemma visited_known (states : main.States) (url u : string) :
  u = url \/ states u <> None ->
  match states url with
  | Some _ => states
  | None => main.set_state url main.initial states
  end u <> None.
Proof.
  intros H. destruct (states url) as [state|] eqn:Hurl.
  - destruct H as [->|H]; [congruence | exact H].
  - unfold main.set_state. destruct (String.eqb u url) eqn:Hu; [discriminate|].
    destruct H as [->|H]; [|exact H].
    rewrite String.eqb_refl in Hu. discriminate Hu.
Qed.

Lemma launch_loop (force : bool) (now : Time) (clock : string -> Time) :
  forall (configured : list (string * string)) (states : main.States)
         (launched : list (string * string)),
    snd (fold_left (main.launch force now clock) configured (states, launched))
    = List.app launched (filter (due force now clock states) configured)
    /\ (forall u,
           state_of (fst (fold_left (main.launch force now clock) configured
                                    (states, launched))) u
           = state_of states u)
    /\ (forall u,
           In u (map snd configured) \/ states u <> None ->
           fst (fold_left (main.launch force now clock) configured
                          (states, launched)) u <> None).
Proof.
  induction configured as [|[name url] configured IH]; intros states launched.
  - cbn [fold_left fst snd filter map]. rewrite app_nil_r.
    split; [reflexivity|]. split; [reflexivity|].
    intros u [[]|H]. exact H.
  - cbn [fold_left]. rewrite launch_step.
    destruct (IH match states url with
                 | Some _ => states
                 | None => main.set_state url main.initial states
                 end
                 (List.app launched
                           (if due force now clock states (name, url)
                            then [(name, url)] else nil)))
      as [Hlaunched [Hstates Hknown]].
    split; [|split].
    + rewrite Hlaunched, <- app_assoc. f_equal. cbn [filter].
      rewrite (filter_ext (due force now clock _) (due force now clock states)).
      * destruct (due force now clock states (name, url)); reflexivity.
      * intros entry. unfold due. rewrite !state_of_visited. reflexivity.
    + intros u. rewrite Hstates. apply state_of_visited.
    + intros u Hu. apply Hknown. cbn [map snd In] in Hu.
      destruct Hu as [[Hu|Hu]|Hu].
      * right. apply visited_known. left. symmetry. exact Hu.
      * left. exact Hu.
      * right. apply visited_known. right. exact Hu.
Qed.

Lemma due_forced (now : Time) (clock : string -> Time) (states : main.States) :
  forall configured : list (string * string),
    filter (due true now clock states) configured = configured.
Proof.
  induction configured as [|entry configured IH]; [reflexivity|].
  cbn [filter due orb]. rewrite IH. reflexivity.
Qed.

Lemma due_early (now : Time) (clock : string -> Time) (states : main.States)
      (entry : string * string) :
  now - main.lastChecked (state_of states (snd entry)) < 5 * time.Minute ->
  due false now clock states entry = false.
Proof.
  intros Hearly. unfold due. cbn [orb]. apply Z.leb_gt.
  assert (Hsub : time.Sub now (main.lastChecked (state_of states (snd entry)))
                 < 5 * time.Minute).
  { apply Z.leb_gt. rewrite Sub_reaches; [apply Z.leb_gt; exact Hearly|].
    change (5 * time.Minute) with 300000000000.
    change (15 * time.Minute) with 900000000000. lia. }
  destruct (calculateInterval_either (state_of states (snd entry))
                                     (clock (fst entry))) as [-> | ->].
  - exact Hsub.
  - change (5 * time.Minute) with 300000000000 in Hsub.
    change (15 * time.Minute) with 900000000000. lia.
Qed.

Lemma due_late (now : Time) (clock : string -> Time) (states : main.States)
      (entry : string * string) :
  15 * time.Minute <= now - main.lastChecked (state_of states (snd entry)) ->
  due false now clock states entry = true.
Proof.
  intros Hlate. unfold due. cbn [orb]. apply Z.leb_le.
  assert (Hsub : 15 * time.Minute
                 <= time.Sub now (main.lastChecked (state_of states (snd entry)))).
  { apply Z.leb_le. rewrite Sub_reaches; [apply Z.leb_le; exact Hlate|].
    change (15 * time.Minute) with 900000000000. lia. }
  destruct (calculateInterval_either (state_of states (snd entry))
                                     (clock (fst entry))) as [-> | ->].
  - change (5 * time.Minute) with 300000000000.
    change (15 * time.Minute) with 900000000000 in Hsub. lia.
  - exact Hsub.
Qed.

(** X16.  [processAllPlaylists] launches a pass for exactly the
    configured playlists that are due, in the order visited: all of them
    when forced; otherwise those whose last check lies at least one
    interval back, where the interval is the one [calculateInterval]
    gives for the playlist's state.  So a playlist is never launched
    within five minutes of its last check and always once fifteen
    minutes have gone by.  Every configured playlist has a state
    afterwards, and no state that was there is changed. *)
Theorem processAllPlaylists_launches_due_playlists :
  forall (playlists : list (string * string)) (states : main.States)
         (force : bool) (now : Time) (clock : string -> Time),
    let r := main.processAllPlaylists playlists states force now clock in
    snd r
    = filter (fun entry =>
                force
                || (main.calculateInterval (state_of states (snd entry))
                                           (clock (fst entry))
                    <=? time.Sub now
                                 (main.lastChecked (state_of states (snd entry)))))
             playlists
    /\ (force = true -> snd r = playlists)
    /\ (force = false ->
        forall name url,
          let checked := main.lastChecked (state_of states url) in
          (now - checked < 5 * time.Minute -> ~ In (name, url) (snd r))
          /\ (15 * time.Minute <= now - checked ->
              In (name, url) playlists -> In (name, url) (snd r)))
    /\ (forall name url, In (name, url) playlists -> fst r url <> None)
    /\ (forall url, state_of (fst r) url = state_of states url).
Proof.
  intros playlists states force now clock. cbv zeta.
  unfold main.processAllPlaylists.
  destruct (launch_loop force now clock playlists states nil)
    as [Hlaunched [Hstates Hknown]].
  cbn [List.app] in Hlaunched.
  split; [exact Hlaunched|]. split; [|split; [|split]].
  - intros ->. rewrite Hlaunched. apply due_forced.
  - intros -> name url. rewrite Hlaunched. split.
    + intros Hearly Hin. apply filter_In in Hin. destruct Hin as [_ Hdue].
      rewrite (due_early now clock states (name, url) Hearly) in Hdue.
      discriminate Hdue.
    + intros Hlate Hin. apply filter_In. split; [exact Hin|].
      exact (due_late now clock states (name, url) Hlate).
  - intros name url Hin. apply Hknown. left.
    apply in_map_iff. exists (name, url). split; [reflexivity | exact Hin].
  - exact Hstates.
Qed.

(** X17.  The passes and the schedule together.  Once [processPlaylist]
    has run for a playlist at the instant [t], an unforced round at
    [now] launches the next pass for it exactly when the time since [t]
    has reached the interval: five minutes when a row was added by this
    pass, or by an earlier one less than a day before the clock is read;
    fifteen minutes otherwise. *)
Theorem next_pass_after_processPlaylist :
  forall (env : Env) (dl : Downloader) (d : Database) (name url : string)
         (state : main.playlistState) (t now : Time) (clock : string -> Time)
         (states : main.States),
    let r := main.processPlaylist env dl d name url state t in
    let grew := (List.length (videos d) <? List.length (videos (fst r)))%nat in
    let states' := main.set_state url (snd r) states in
    let launched := In (name, url)
                       (snd (main.processAllPlaylists [(name, url)] states' false
                                                      now clock)) in
    (grew = true -> clock name - t < 24 * time.Hour ->
     (launched <-> 5 * time.Minute <= now - t))
    /\ (grew = false -> clock name - main.lastChange state < 24 * time.Hour ->
        (launched <-> 5 * time.Minute <= now - t))
    /\ (grew = false -> 24 * time.Hour <= clock name - main.lastChange state ->
        (launched <-> 15 * time.Minute <= now - t)).
Proof.
  intros env dl d name url state t now clock states. cbv zeta.
  unfold main.processAllPlaylists.
  destruct (launch_loop false now clock [(name, url)]
                        (main.set_state url
                           (snd (main.processPlaylist env dl d name url state t))
                           states) nil) as [-> _].
  cbn [List.app filter]. unfold due. cbn [orb fst snd].
  assert (Hst : state_of (main.set_state url
                            (snd (main.processPlaylist env dl d name url state t))
                            states) url
                = snd (main.processPlaylist env dl d name url state t))
    by (unfold state_of, main.set_state; rewrite String.eqb_refl; reflexivity).
  rewrite Hst, processPlaylist_state. cbn [main.lastChecked].
  assert (Hiff : forall k, 0 <= k <= 15 * time.Minute ->
                           forall ps,
                             main.calculateInterval ps (clock name) = k ->
                             In (name, url)
                                (if main.calculateInterval ps (clock name)
                                    <=? time.Sub now t
                                 then [(name, url)] else nil)
                             <-> k <= now - t).
  { intros k Hk ps ->. rewrite (Sub_reaches k now t Hk).
    destruct (k <=? now - t) eqn:Hle;
      [apply Z.leb_le in Hle | apply Z.leb_gt in Hle]; cbn [In].
    - split; [intros _; exact Hle | intros _; left; reflexivity].
    - split; [intros [] | intros H; lia]. }
  assert (H5 : 0 <= 5 * time.Minute <= 15 * time.Minute)
    by (change (5 * time.Minute) with 300000000000;
        change (15 * time.Minute) with 900000000000; lia).
  assert (H15 : 0 <= 15 * time.Minute <= 15 * time.Minute)
    by (change (15 * time.Minute) with 900000000000; lia).
  split; [|split].
  - intros -> Hday. apply (Hiff _ H5).
    apply SchedulerFacts.calculateInterval_short. exact Hday.
  - intros -> Hday. apply (Hiff _ H5).
    apply SchedulerFacts.calculateInterval_short. exact Hday.
  - intros -> Hday. apply (Hiff _ H15).
    apply SchedulerFacts.calculateInterval_long. exact Hday.
Qed.

End MainFacts.

(** ** A file that has vanished *)

Module RetryFacts.
Import strings database validator downloader Notions StoreFacts DownloaderFacts
       StoreCoverage.

(** With the listing obtained, [downloaded = true] is reported for the
    listed videos that the store does not have and that can be fetched,
    and these are in the store afterwards. *)
Lemma ProcessPlaylist_downloaded (env : Env) (dl : Downloader) (d : Database)
      (playlistURL playlistName : string) (entries : list VideoInfo.t)
      (x : string) :
  extractPlaylistID playlistURL <> "" ->
  driver_fails env (OpGetOrCreatePlaylist (extractPlaylistID playlistURL)) = false ->
  yt_dlp_dump_single_json env playlistURL = Some entries ->
  x <> "" ->
  In x (map VideoInfo.ID entries) ->
  fetched env dl playlistName x = true ->
  (In (x, true) (calls (ProcessPlaylist env dl d playlistURL playlistName true))
   <-> VideoExists d x = false)
  /\ VideoExists (db (ProcessPlaylist env dl d playlistURL playlistName true)) x
     = true.
Proof.
  intros Hid Hdriver Hlist Hx Hin Hfetch.
  pose proof (ProcessPlaylist_run env dl d playlistURL playlistName true entries
                                  Hid Hdriver Hlist) as Hrun.
  cbv zeta in Hrun. rewrite Hrun. cbn [calls db].
  assert (Hlisted : existsb (fun v => String.eqb (VideoInfo.ID v) x)
                            (listing_of playlistURL entries) = true)
    by (apply listed_iff; split; assumption).
  split.
  - rewrite loop_downloaded, GetOrCreatePlaylist_exists, Hlisted, Hfetch.
    cbn [In]. tauto.
  - rewrite loop_exists, Hlisted, Hfetch. apply orb_true_r.
Qed.

Lemma located_path (v : Video.t) (path : string) :
  Video.located v = Some path -> Video.file_path v = Some path.
Proof.
  unfold Video.located. destruct (Video.file_path v) as [p|]; [|discriminate].
  destruct (String.eqb p ""); [discriminate | exact (fun H => H)].
Qed.

(** X18.  Sweep, cleanup and pass together.  Take a video that the
    store has with a path at which there is no file, and that is listed
    and can be fetched.  A pass does not fetch it, because its row is
    there; nor does a pass after the sweep, which only marks the row
    [missing].  Once the cleanup has deleted the row, the next pass
    fetches the video and it is in the store again. *)
Theorem vanished_file_is_refetched_after_cleanup :
  forall (env : Env) (dl : Downloader) (d : Database)
         (playlistURL playlistName : string) (entries : list VideoInfo.t)
         (stat : string -> StatResult) (now : Time) (videoID path : string),
    unique_videos d ->
    In (videoID, path) (located_rows (videos d)) ->
    stat path = StatNotExist ->
    extractPlaylistID playlistURL <> "" ->
    driver_fails env (OpGetOrCreatePlaylist (extractPlaylistID playlistURL))
    = false ->
    yt_dlp_dump_single_json env playlistURL = Some entries ->
    videoID <> "" ->
    In videoID (map VideoInfo.ID entries) ->
    fetched env dl playlistName videoID = true ->
    let swept := fst (ValidateFiles d stat now) in
    let cleaned := fst (CleanupMissingFiles swept stat) in
    let pass := fun store => ProcessPlaylist env dl store playlistURL playlistName
                                             true in
    ~ In (videoID, true) (calls (pass d))
    /\ ~ In (videoID, true) (calls (pass swept))
    /\ VideoExists cleaned videoID = false
    /\ In (videoID, true) (calls (pass cleaned))
    /\ VideoExists (db (pass cleaned)) videoID = true.
Proof.
  intros env dl d playlistURL playlistName entries stat now videoID path
         Hunique Hrow Hstat Hid Hdriver Hlist Hne Hin Hfetch.
  cbv zeta.
  assert (Hv : exists v, In v (videos d) /\ Video.youtube_id v = videoID
                         /\ Video.located v = Some path).
  { unfold located_rows in Hrow. apply in_flat_map in Hrow.
    destruct Hrow as [v [Hv Hrow]].
    destruct (Video.located v) as [p|] eqn:Hloc; [|destruct Hrow].
    destruct Hrow as [Hrow|[]]. injection Hrow as <- <-.
    exists v. repeat split; assumption. }
  destruct Hv as [v [Hv [Hkey Hloc]]].
  assert (Hthere : VideoExists d videoID = true).
  { apply VideoExists_In. rewrite <- Hkey. apply in_map. exact Hv. }
  assert (Hswept : VideoExists (fst (ValidateFiles d stat now)) videoID = true).
  { apply VideoExists_In. rewrite (ValidateFiles_videos d stat now Hunique).
    rewrite map_map, (map_ext _ _ (validated_key stat now)).
    apply VideoExists_In. exact Hthere. }
  assert (Hgone : VideoExists
                    (fst (CleanupMissingFiles (fst (ValidateFiles d stat now)) stat))
                    videoID = false).
  { rewrite <- Hkey, <- (validated_key stat now v).
    apply (CleanupMissingFiles_removes _ stat (validated stat now v) path).
    - rewrite (ValidateFiles_videos d stat now Hunique). apply in_map. exact Hv.
    - unfold validated. rewrite Hloc. cbn [Video.set_validation Video.file_path].
      apply located_path. exact Hloc.
    - unfold validated. rewrite Hloc, Hstat. reflexivity.
    - exact Hstat. }
  pose proof (fun store =>
                ProcessPlaylist_downloaded env dl store playlistURL playlistName
                                           entries videoID Hid Hdriver Hlist Hne
                                           Hin Hfetch) as Hpass.
  split; [|split; [|split; [|split]]].
  - intros H. apply (Hpass d) in H. congruence.
  - intros H. apply (Hpass (fst (ValidateFiles d stat now))) in H. congruence.
  - exact Hgone.
  - apply (Hpass _). exact Hgone.
  - apply (Hpass _).
Qed.

(** X18 for track [a], brought in by a first pass and then deleted from
    the disk. *)
Lemma track_a_is_refetched :
  let env := Scenario.world (Some Scenario.three_tracks) (fun _ => false) in
  let pass := fun store => ProcessPlaylist env Scenario.dl store "PL1" "Jazz" true in
  let d := db (pass NewDatabase) in
  let swept := fst (ValidateFiles d Scenario.empty_disk Scenario.noon) in
  let cleaned := fst (CleanupMissingFiles swept Scenario.empty_disk) in
  ~ In ("a", true) (calls (pass d))
  /\ ~ In ("a", true) (calls (pass swept))
  /\ VideoExists cleaned "a" = false
  /\ In ("a", true) (calls (pass cleaned))
  /\ VideoExists (db (pass cleaned)) "a" = true.
Proof.
  cbv zeta.
  apply (vanished_file_is_refetched_after_cleanup
           (Scenario.world (Some Scenario.three_tracks) (fun _ => false))
           Scenario.dl _ "PL1" "Jazz" Scenario.three_tracks
           Scenario.empty_disk Scenario.noon "a" "/music/Jazz/a.mp3").
  - apply ProcessPlaylist_unique. exact NewDatabase_unique.
  - vm_compute. left. reflexivity.
  - reflexivity.
  - discriminate.
  - reflexivity.
  - reflexivity.
  - discriminate.
  - vm_compute. left. reflexivity.
  - vm_compute. reflexivity.
Defined.

End RetryFacts.

(** ** Failures of single videos *)

Module IsolationFacts.
Import strings database downloader Notions StoreFacts DownloaderFacts
       StoreCoverage IngestionCoverage.

Lemma start_files_under (d : Database) (now : Time) (youtubeID title : string) :
  files_under (snd (GetOrCreatePlaylist d now youtubeID title))
              (fst (GetOrCreatePlaylist d now youtubeID title)).
Proof.
  unfold files_under.
  destruct (GetOrCreatePlaylist_returns_row d now youtubeID title) as [_ Hy].
  rewrite Hy, GetOrCreatePlaylist_finds. reflexivity.
Qed.

(** Every video reported with [downloaded = true] has its row. *)
Lemma ProcessPlaylist_reported_rows (env : Env) (dl : Downloader) (d : Database)
      (playlistURL playlistName : string) (x : string) :
  In (x, true) (calls (ProcessPlaylist env dl d playlistURL playlistName true)) ->
  exists row,
    In row (videos (db (ProcessPlaylist env dl d playlistURL playlistName true)))
    /\ Video.youtube_id row = x
    /\ ingested env dl playlistName
                (snd (GetOrCreatePlaylist
                        d (now_at env (OpGetOrCreatePlaylist
                                         (extractPlaylistID playlistURL)))
                        (extractPlaylistID playlistURL) playlistName))
                row.
Proof.
  destruct (ProcessPlaylist_shape env dl d playlistURL playlistName)
    as [[e Hr]|[Hr|[listing Hr]]]; rewrite (Hr true); cbn [db calls];
    try (intros []).
  intros Hin.
  destruct (loop_appends
              env dl _ playlistName listing _ nil
              (start_files_under
                 d (now_at env (OpGetOrCreatePlaylist
                                  (extractPlaylistID playlistURL)))
                 (extractPlaylistID playlistURL) playlistName))
    as [added [Hv [Hk Hrows]]].
  cbn [filter map List.app] in Hk.
  assert (Hx : In x (map Video.youtube_id added)).
  { rewrite <- Hk. apply in_map_iff. exists (x, true).
    split; [reflexivity|]. apply filter_In. split; [exact Hin | reflexivity]. }
  apply in_map_iff in Hx. destruct Hx as [row [Hkey Hrow]].
  exists row. split; [rewrite Hv; apply in_or_app; right; exact Hrow|].
  split; [exact Hkey | exact (Hrows row Hrow)].
Qed.

(** C5 as stated does not hold for a failure to persist.  On a listing of
    three new tracks, when the call that records the file of [b] fails,
    [b] is not skipped: its row stays, with the path, size and status
    that [AddVideo] wrote, and [downloaded = true] is reported for it as
    for the others. *)
Lemma failed_update_keeps_the_item :
  let env := Scenario.world_with_driver (Some Scenario.three_tracks)
                                        (fun _ => false)
                                        (Scenario.update_fails "b") in
  let r := ProcessPlaylist env Scenario.dl NewDatabase "PL1" "Jazz" true in
  driver_fails env (OpUpdateFileInfo "b") = true
  /\ err r = None
  /\ calls r = [("a", true); ("b", true); ("c", true)]
  /\ map (fun v => (Video.youtube_id v, Video.file_path v, Video.file_size v,
                    Video.validation_status v)) (videos (db r))
     = [("a", Some "/music/Jazz/a.mp3", 4096, "valid");
        ("b", Some ".music/Track b [b].mp3", 0, "pending");
        ("c", Some "/music/Jazz/c.mp3", 4096, "valid")].
Proof. cbv zeta. repeat split. Qed.

(** C5, amended.  A pass whose listing succeeds returns no error,
    whatever happens to single videos, and every listed video is
    attempted.  A video whose existence probe, fetch or [AddVideo] fails
    is skipped: nothing is reported as downloaded for it and the store
    holds no more about it than before.  [downloaded = true] is reported
    for exactly the listed videos that were new and for which these
    three steps worked, and exactly these are added.  A failure of
    [UpdateFileInfo] does not skip the video: it is reported with
    [downloaded = true] all the same, and its row stays with the path,
    size 0 and status [pending] that [AddVideo] wrote; when
    [UpdateFileInfo] works the row holds the announced file, its size
    and [valid].  So on a listing of three new videos where the fetch of
    the second fails and the first and third can be brought in, the
    first and third are in the store afterwards, the second is not, and
    [downloaded = true] was reported for the first and third only. *)
Theorem ProcessPlaylist_isolates_item_failures :
  forall (env : Env) (dl : Downloader) (d : Database)
         (playlistURL playlistName : string) (entries : list VideoInfo.t),
    extractPlaylistID playlistURL <> "" ->
    driver_fails env (OpGetOrCreatePlaylist (extractPlaylistID playlistURL)) = false ->
    yt_dlp_dump_single_json env playlistURL = Some entries ->
    let r := ProcessPlaylist env dl d playlistURL playlistName true in
    err r = None
    /\ (forall x,
           In (x, true) (calls r)
           <-> (x <> "" /\ In x (map VideoInfo.ID entries))
               /\ VideoExists d x = false
               /\ driver_fails env (OpVideoExists x) = false
               /\ (exists filePath fileSize,
                      downloadVideo env dl x playlistName
                      = inr (filePath, fileSize))
               /\ driver_fails env (OpAddVideo x) = false)
    /\ (forall x,
           VideoExists (db r) x = true
           <-> VideoExists d x = true \/ In (x, true) (calls r))
    /\ (forall x,
           In (x, true) (calls r) ->
           exists row filePath fileSize,
             In row (videos (db r))
             /\ Video.youtube_id row = x
             /\ downloadVideo env dl x playlistName = inr (filePath, fileSize)
             /\ (driver_fails env (OpUpdateFileInfo x) = false ->
                 Video.file_path row = Some filePath
                 /\ Video.file_size row = fileSize
                 /\ Video.validation_status row = "valid")
             /\ (driver_fails env (OpUpdateFileInfo x) = true ->
                 Video.file_path row
                 = Some (".music/"
                         ++ sanitizeFilename (VideoMetadata.Title (Video.meta row))
                         ++ " [" ++ x ++ "].mp3")
                 /\ Video.file_size row = 0
                 /\ Video.validation_status row = "pending"))
    /\ (forall v1 v2 v3,
           entries = [v1; v2; v3] ->
           VideoInfo.ID v1 <> "" -> VideoInfo.ID v2 <> "" -> VideoInfo.ID v3 <> "" ->
           VideoExists d (VideoInfo.ID v1) = false ->
           VideoExists d (VideoInfo.ID v2) = false ->
           VideoExists d (VideoInfo.ID v3) = false ->
           fetched env dl playlistName (VideoInfo.ID v1) = true ->
           (exists e, downloadVideo env dl (VideoInfo.ID v2) playlistName = inl e) ->
           fetched env dl playlistName (VideoInfo.ID v3) = true ->
           VideoExists (db r) (VideoInfo.ID v1) = true
           /\ VideoExists (db r) (VideoInfo.ID v2) = false
           /\ VideoExists (db r) (VideoInfo.ID v3) = true
           /\ (forall x, In (x, true) (calls r)
                         <-> x = VideoInfo.ID v1 \/ x = VideoInfo.ID v3)).
Proof.
  intros env dl d playlistURL playlistName entries Hid Hdriver Hlist. cbv zeta.
  destruct (ProcessPlaylist_item_outcomes env dl d playlistURL playlistName entries
                                          Hid Hdriver Hlist)
    as [Herr [Hcalls [Hstore Hthree]]].
  split; [exact Herr|]. split; [|split; [exact Hstore|split; [|exact Hthree]]].
  - intros x. rewrite (Hcalls x). unfold fetched.
    destruct (driver_fails env (OpVideoExists x));
      destruct (driver_fails env (OpAddVideo x));
      destruct (downloadVideo env dl x playlistName) as [e|[filePath fileSize]];
      cbn [negb andb]; split;
      try (intros [Hl [Hnew H]]; discriminate H);
      try (intros [_ [_ [H _]]]; discriminate H);
      try (intros [_ [_ [_ [_ H]]]]; discriminate H);
      try (intros [_ [_ [_ [[p [sz H]] _]]]]; discriminate H).
    + intros [Hl [Hnew _]]. repeat split; try tauto.
      exists filePath, fileSize. reflexivity.
    + intros [Hl [Hnew _]]. tauto.
  - intros x Hin.
    destruct (ProcessPlaylist_reported_rows env dl d playlistURL playlistName x Hin)
      as [row [Hrow [Hkey [_ [_ [filePath [fileSize [Hfetch Hfile]]]]]]]].
    rewrite Hkey in Hfetch, Hfile.
    exists row, filePath, fileSize.
    split; [exact Hrow|]. split; [exact Hkey|]. split; [exact Hfetch|].
    split; intros Hupdate; rewrite Hupdate in Hfile; exact Hfile.
Qed.

(** The amended C5 on the three-track pass of the scenario: the fetch of
    [b] fails, and only [b] is left out. *)
Lemma three_tracks_middle_fetch_fails :
  let r := ProcessPlaylist (Scenario.world (Some Scenario.three_tracks)
                                           (String.eqb "b"))
                           Scenario.dl NewDatabase "PL1" "Jazz" true in
  err r = None
  /\ VideoExists (db r) "a" = true
  /\ VideoExists (db r) "b" = false
  /\ VideoExists (db r) "c" = true
  /\ (forall x, In (x, true) (calls r) <-> x = "a" \/ x = "c").
Proof.
  cbv zeta.
  destruct (ProcessPlaylist_isolates_item_failures
              (Scenario.world (Some Scenario.three_tracks) (String.eqb "b"))
              Scenario.dl NewDatabase "PL1" "Jazz" Scenario.three_tracks
              ltac:(discriminate) eq_refl eq_refl)
    as [Herr [_ [_ [_ Hthree]]]].
  split; [exact Herr|].
  apply (Hthree (Scenario.track "a") (Scenario.track "b") (Scenario.track "c"));
    try reflexivity; try discriminate.
  exists ErrYtDlpDownload. reflexivity.
Defined.

End IsolationFacts.

(** ** The location [AddVideo] makes up *)

Module PlaceholderFacts.
Import strings database validator downloader Notions StoreFacts FilenameFacts
       IngestionCoverage.


(** C10 as stated does not hold where it says that the made-up location
    is a path the downloader never wrote.  With the output directory
    [.music] and a playlist without a name, yt-dlp writes the file of
    track [a] to [.music/Track a [a].mp3], and this is the very path
    [AddVideo] makes up for the row. *)
Lemma downloader_may_write_the_made_up_path :
  downloadVideo Scenario.flat_world Scenario.flat_dl "a" ""
  = inr (".music/Track a [a].mp3", 4096)
  /\ map Video.file_path
         (videos (fst (AddVideo NewDatabase Scenario.noon "a" "PL1" ""
                                (metadata_of (Scenario.track "a")))))
     = [Some ".music/Track a [a].mp3"].
Proof. split; reflexivity. Qed.

Lemma rev_append_app :
  forall s acc : string, rev_append s acc = rev s ++ acc.
Proof.
  unfold rev. induction s as [|c s IH]; intros acc; [reflexivity|].
  cbn [rev_append]. rewrite (IH (String c acc)), (IH (String c "")).
  rewrite OutputFacts.append_assoc. reflexivity.
Qed.

Lemma rev_app (a b : string) : rev (a ++ b) = rev b ++ rev a.
Proof.
  induction a as [|c a IH].
  - cbn [append]. rewrite DownloaderFacts.append_empty. reflexivity.
  - unfold rev in *. cbn [append rev_append].
    rewrite (rev_append_app (a ++ b)), (rev_append_app a).
    unfold rev. rewrite IH, OutputFacts.append_assoc. reflexivity.
Qed.

Lemma rev_rev (s : string) : rev (rev s) = s.
Proof.
  induction s as [|c s IH]; [reflexivity|].
  unfold rev at 2. cbn [rev_append]. rewrite rev_append_app, rev_app, IH.
  reflexivity.
Qed.

Lemma length_rev (s : string) : String.length (rev s) = String.length s.
Proof.
  induction s as [|c s IH]; [reflexivity|].
  unfold rev. cbn [rev_append]. rewrite rev_append_app, StringFacts.length_app, IH.
  cbn [String.length]. lia.
Qed.

Lemma drop_suffix :
  forall (n : nat) (s : string), exists a, s = a ++ drop n s.
Proof.
  induction n as [|n IH]; intros s; [exists ""; reflexivity|].
  destruct s as [|c s]; [exists ""; reflexivity|].
  destruct (IH s) as [a Ha]. exists (String c a).
  cbn [drop append]. rewrite <- Ha. reflexivity.
Qed.

Lemma strip_one_suffix (s : string) :
  forall (runes : list string) (s' : string),
    strip_one runes s = Some s' -> exists a, s = a ++ s'.
Proof.
  induction runes as [|r runes IH]; intros s' H; [discriminate H|].
  cbn [strip_one] in H. destruct (HasPrefix s r).
  - injection H as <-. apply drop_suffix.
  - exact (IH s' H).
Qed.

Lemma trim_left_suffix (runes : list string) :
  forall (n : nat) (s : string), exists a, s = a ++ trim_left n runes s.
Proof.
  induction n as [|n IH]; intros s; [exists ""; reflexivity|].
  cbn [trim_left]. destruct (strip_one runes s) as [s'|] eqn:Hstrip;
    [|exists ""; reflexivity].
  destruct (strip_one_suffix s runes s' Hstrip) as [a Ha].
  destruct (IH s') as [b Hb]. exists (a ++ b).
  rewrite OutputFacts.append_assoc, <- Hb. exact Ha.
Qed.

Lemma strip_one_shortens (s : string) :
  forall (runes : list string) (s' : string),
    (forall r, In r runes -> r <> "") ->
    strip_one runes s = Some s' ->
    (String.length s' < String.length s)%nat.
Proof.
  induction runes as [|r runes IH]; intros s' Hne H; [discriminate H|].
  cbn [strip_one] in H. destruct (HasPrefix s r) eqn:Hp.
  - injection H as <-.
    pose proof (StringFacts.HasPrefix_split r s Hp) as Hs.
    assert (Hlen : String.length s
                   = (String.length r
                      + String.length (drop (String.length r) s))%nat)
      by (rewrite Hs at 1; apply StringFacts.length_app).
    assert (Hr : r <> "") by (apply Hne; left; reflexivity).
    destruct r as [|c r]; [contradiction|]. cbn [String.length] in *. lia.
  - apply IH; [|exact H]. intros r' Hr'. apply Hne. right. exact Hr'.
Qed.

Lemma strip_one_none (s : string) :
  forall runes : list string,
    strip_one runes s = None -> forall r, In r runes -> HasPrefix s r = false.
Proof.
  induction runes as [|r runes IH]; intros H r' Hr'; [destruct Hr'|].
  cbn [strip_one] in H. destruct (HasPrefix s r) eqn:Hp; [discriminate H|].
  destruct Hr' as [<-|Hr']; [exact Hp | exact (IH H r' Hr')].
Qed.

(** With the bound [TrimSpace] passes, the trimming runs to its end. *)
Lemma trim_left_done (runes : list string) :
  (forall r, In r runes -> r <> "") ->
  forall (n : nat) (s : string),
    (String.length s <= n)%nat ->
    strip_one runes (trim_left n runes s) = None.
Proof.
  intros Hne. induction n as [|n IH]; intros s Hlen.
  - destruct s as [|c s]; [|cbn in Hlen; lia].
    cbn [trim_left].
    destruct (strip_one runes "") as [s'|] eqn:Hstrip; [|reflexivity].
    pose proof (strip_one_shortens "" runes s' Hne Hstrip) as H.
    cbn in H. lia.
  - cbn [trim_left]. destruct (strip_one runes s) as [s'|] eqn:Hstrip;
      [|exact Hstrip].
    apply IH. pose proof (strip_one_shortens s runes s' Hne Hstrip). lia.
Qed.

Lemma space_runes_nonempty :
  (forall r, In r space_runes -> r <> "")
  /\ (forall r, In r (map rev space_runes) -> r <> "").
Proof.
  split; intros r Hr Hempty; subst r.
  - assert (H : existsb (String.eqb "") space_runes = false) by reflexivity.
    assert (H' : existsb (String.eqb "") space_runes = true)
      by (apply existsb_exists; exists ""; split; [exact Hr | reflexivity]).
    congruence.
  - assert (H : existsb (String.eqb "") (map rev space_runes) = false)
      by reflexivity.
    assert (H' : existsb (String.eqb "") (map rev space_runes) = true)
      by (apply existsb_exists; exists ""; split; [exact Hr | reflexivity]).
    congruence.
Qed.

Lemma space_is_trimmed :
  In " " space_runes /\ In " " (map rev space_runes).
Proof.
  split.
  - assert (H : existsb (String.eqb " ") space_runes = true) by reflexivity.
    apply existsb_exists in H. destruct H as [r [Hr Heq]].
    apply String.eqb_eq in Heq. subst r. exact Hr.
  - assert (H : existsb (String.eqb " ") (map rev space_runes) = true)
      by reflexivity.
    apply existsb_exists in H. destruct H as [r [Hr Heq]].
    apply String.eqb_eq in Heq. subst r. exact Hr.
Qed.

Lemma HasPrefix_app_false (m p b : string) :
  HasPrefix (p ++ b) m = false -> HasPrefix p m = false.
Proof.
  intros H. destruct (HasPrefix p m) eqn:Hp; [|reflexivity].
  apply (OutputFacts.HasPrefix_app_l b) in Hp. congruence.
Qed.

(** [TrimSpace] cuts a piece out of the string, and the piece neither
    starts nor ends with a space. *)
Lemma TrimSpace_piece (s : string) :
  (exists a b, s = a ++ TrimSpace s ++ b)
  /\ HasPrefix (TrimSpace s) " " = false
  /\ HasPrefix (rev (TrimSpace s)) " " = false.
Proof.
  unfold TrimSpace, TrimRightSpace.
  set (t := TrimLeftSpace s).
  set (u := trim_left (String.length t) (map rev space_runes) (rev t)).
  destruct space_runes_nonempty as [Hne Hne'].
  destruct space_is_trimmed as [Hsp Hsp'].
  destruct (trim_left_suffix space_runes (String.length s) s) as [a Ha].
  fold (TrimLeftSpace s) in Ha. fold t in Ha.
  destruct (trim_left_suffix (map rev space_runes) (String.length t) (rev t))
    as [b Hb].
  fold u in Hb.
  assert (Ht : t = rev u ++ rev b)
    by (rewrite <- (rev_rev t), Hb, rev_app; reflexivity).
  split; [|split].
  - exists a, (rev b). rewrite <- Ht. exact Ha.
  - apply (HasPrefix_app_false " " (rev u) (rev b)). rewrite <- Ht.
    apply (strip_one_none t space_runes); [|exact Hsp].
    apply (trim_left_done space_runes Hne). lia.
  - rewrite rev_rev.
    apply (strip_one_none u (map rev space_runes)); [|exact Hsp'].
    apply (trim_left_done (map rev space_runes) Hne'). rewrite length_rev. lia.
Qed.

Lemma collapse_spaces_lead :
  forall s : string, HasPrefix (collapse_spaces true s) " " = false.
Proof.
  induction s as [|c s IH]; [reflexivity|].
  cbn [collapse_spaces]. destruct (is_regexp_space c) eqn:Hc; [exact IH|].
  cbn [HasPrefix]. destruct (Ascii.eqb " " c) eqn:Heq; [|reflexivity].
  apply Ascii.eqb_eq in Heq. subst c. discriminate Hc.
Qed.

(** After the collapse no two spaces follow each other. *)
Lemma collapse_spaces_single :
  forall (s : string) (in_run : bool),
    Contains (collapse_spaces in_run s) "  " = false.
Proof.
  induction s as [|c s IH]; intros in_run; [reflexivity|].
  cbn [collapse_spaces]. destruct (is_regexp_space c) eqn:Hc.
  - destruct in_run; [apply IH|].
    cbn [Contains HasPrefix]. rewrite IH, orb_false_r.
    cbn [Ascii.eqb Bool.eqb andb].
    pose proof (collapse_spaces_lead s) as Hlead.
    destruct (collapse_spaces true s) as [|c' s']; [reflexivity|].
    cbn [HasPrefix] in *. exact Hlead.
  - cbn [Contains HasPrefix]. rewrite IH, orb_false_r.
    destruct (Ascii.eqb " " c) eqn:Heq; [|reflexivity].
    apply Ascii.eqb_eq in Heq. subst c. discriminate Hc.
Qed.

(** The spaces of a sanitized title are single and lie inside it. *)
Lemma sanitizeFilename_spaces (filename : string) :
  Contains (sanitizeFilename filename) "  " = false
  /\ HasPrefix (sanitizeFilename filename) " " = false
  /\ HasPrefix (rev (sanitizeFilename filename)) " " = false.
Proof.
  unfold sanitizeFilename.
  destruct (TrimSpace_piece (collapse_spaces false (remove_invalid filename)))
    as [[a [b Hpiece]] [Hlead Htrail]].
  split; [|split; assumption].
  pose proof (collapse_spaces_single (remove_invalid filename) false) as Hsingle.
  rewrite Hpiece in Hsingle.
  apply StringFacts.Contains_suffix_false in Hsingle.
  exact (OutputFacts.Contains_app_l_false _ _ _ Hsingle).
Qed.

(** C10, amended.  [AddVideo] never fails on a constraint, and every row
    it leaves under the given identifier, inserted or overwritten,
    carries a non-empty path [.music/<sanitized title> [<id>].mp3] that
    the store makes up from the title and the identifier alone, size 0,
    status [pending], and the call's instant as [last_validated].  The
    sanitized title holds none of the nine characters that
    [sanitizeFilename] removes (the angle brackets, the colon, the
    double quote, both slashes, the bar, the question mark and the
    asterisk) and no tab, line feed, form feed or carriage return, and
    otherwise only bytes of the title and spaces; no two spaces follow
    each other, and it neither starts nor ends with a space.  The row is among those read by the
    validation sweep at once; the path stays until [UpdateFileInfo]
    writes the one it is given; and when no file exists at the made-up
    path, the sweep marks the row [missing] and the cleanup that follows
    deletes it. *)
Theorem AddVideo_writes_placeholder_location :
  forall (d : Database) (now : Time)
         (youtubeID playlistYoutubeID playlistTitle : string)
         (metadata : VideoMetadata.t),
    let d' := fst (AddVideo d now youtubeID playlistYoutubeID playlistTitle
                            metadata) in
    let safeTitle := sanitizeFilename (VideoMetadata.Title metadata) in
    let filePath := ".music/" ++ safeTitle ++ " [" ++ youtubeID ++ "].mp3" in
    snd (AddVideo d now youtubeID playlistYoutubeID playlistTitle metadata) = None
    /\ VideoExists d' youtubeID = true
    /\ filePath <> ""
    /\ forallb (fun c => negb (has_byte c safeTitle))
               ["<"; ">"; ":"; "034"; "/"; "\"; "|"; "?"; "*";
                "009"; "010"; "012"; "013"]%char
       = true
    /\ (forall c : ascii,
           has_byte c safeTitle = true ->
           c = " "%char \/ has_byte c (VideoMetadata.Title metadata) = true)
    /\ (Contains safeTitle "  " = false
        /\ HasPrefix safeTitle " " = false
        /\ HasPrefix (rev safeTitle) " " = false)
    /\ sanitizeFilename ("  AC/DC:" ++ String "009" "  Back <in>"
                         ++ String "010" "Black?  ")
       = "ACDC Back in Black"
    /\ (forall v, In v (videos d') -> Video.youtube_id v = youtubeID ->
                  Video.file_path v = Some filePath
                  /\ Video.file_size v = 0
                  /\ Video.validation_status v = "pending"
                  /\ Video.last_validated v = Some now
                  /\ In (youtubeID, filePath) (located_rows (videos d')))
    /\ (forall (later : Time) (path : string) (size : Z) (v : Video.t),
           In v (videos (fst (UpdateFileInfo d' later youtubeID path size))) ->
           Video.youtube_id v = youtubeID ->
           Video.file_path v = Some path
           /\ Video.file_size v = size
           /\ Video.validation_status v = "valid")
    /\ (forall (stat : string -> StatResult) (later : Time),
           unique_videos d ->
           stat filePath = StatNotExist ->
           (forall v, In v (videos (fst (ValidateFiles d' stat later))) ->
                      Video.youtube_id v = youtubeID ->
                      Video.validation_status v = "missing")
           /\ VideoExists
                (fst (CleanupMissingFiles (fst (ValidateFiles d' stat later)) stat))
                youtubeID = false).
Proof.
  intros d now youtubeID playlistYoutubeID playlistTitle metadata. cbv zeta.
  destruct (AddVideo_placeholder_rows d now youtubeID playlistYoutubeID
                                      playlistTitle metadata)
    as [Herr [Hexists [Hne [Hrows Hsweep]]]].
  split; [exact Herr|]. split; [exact Hexists|]. split; [exact Hne|].
  split; [|split; [|split; [apply sanitizeFilename_spaces|
                            split; [reflexivity|split; [exact Hrows|split;
                                                         [|exact Hsweep]]]]]].
  - apply forallb_forall. intros c Hc. apply negb_true_iff.
    destruct (has_byte c (sanitizeFilename (VideoMetadata.Title metadata)))
      eqn:H; [|reflexivity].
    exfalso.
    destruct (sanitizeFilename_bytes c _ H) as [Hsp|[Hsp [Hinv _]]].
    + subst c. cbn in Hc.
      repeat (destruct Hc as [Hc|Hc]; [discriminate Hc|]). exact Hc.
    + cbn in Hc.
      repeat (destruct Hc as [Hc|Hc];
              [subst c; (discriminate Hsp || discriminate Hinv)|]).
      exact Hc.
  - intros c H.
    destruct (sanitizeFilename_bytes c _ H) as [Hsp|[_ [_ Hin]]];
      [left; exact Hsp | right; exact Hin].
  - intros later path size v Hin Hkey.
    rewrite UpdateFileInfo_videos in Hin. apply in_map_iff in Hin.
    destruct Hin as [w [<- Hw]].
    destruct (video_is youtubeID w) eqn:Hvw.
    + repeat split; reflexivity.
    + apply video_is_false in Hvw. contradiction.
Qed.

End PlaceholderFacts.

(** ** References without a token *)

Module ReferenceFacts.
Import strings database downloader Notions StringFacts StoreFacts DownloaderFacts
       OutputFacts MainFacts.

Lemma Contains_nonempty (s sep : string) :
  sep <> "" -> Contains s sep = true -> s <> "".
Proof.
  intros Hsep H ->. destruct sep; [contradiction | discriminate H].
Qed.

(** From an address in which [list=] is followed by nothing, or at once
    by a [&], no identifier is taken: the address is returned whole. *)
Lemma extractPlaylistID_empty_token (pre rest : string) :
  Contains pre "list=" = false ->
  rest = "" \/ (exists r, rest = String "&" r) ->
  extractPlaylistID (pre ++ "list=" ++ rest) = pre ++ "list=" ++ rest.
Proof.
  intros Hpre Hrest. unfold extractPlaylistID.
  destruct (negb (Contains (pre ++ "list=" ++ rest) "youtube.com")
            && negb (Contains (pre ++ "list=" ++ rest) "youtu.be"));
    [reflexivity|].
  rewrite Contains_app_r.
  pose proof (Cut_list_token pre rest Hpre) as Hcut.
  assert (Hlen : (2 <= String.length (pre ++ "list=" ++ rest))%nat)
    by (rewrite !length_app; cbn [String.length]; lia).
  destruct (Split_second _ _ _ _ Hcut Hlen) as [-> ->].
  assert (Hrest3 : rest = "" \/ (exists r, rest = String "&" r)
                   \/ (exists r, rest = "list=" ++ r))
    by (destruct Hrest as [H|H]; [left | right; left]; exact H).
  destruct (piece_after_token "" rest eq_refl Hrest3) as [rest' [Hpiece Hrest']].
  cbn [append] in Hpiece. rewrite Hpiece.
  destruct Hrest' as [->|[r' ->]]; [reflexivity|].
  rewrite (Split_cons (String "&" r') "&" "" r');
    [reflexivity | discriminate | exact (Cut_byte "&" r' "" eq_refl)].
Qed.

(** C4: the code does not do what the claim says for an address of
    YouTube that holds no identifying token.  For every reference that
    names [youtube.com] or [youtu.be] and either does not contain [list=]
    or has nothing between the first [list=] and the end or the next
    [&], [extractPlaylistID] returns the reference whole; the check for
    an empty identifier therefore lets it through, and the pass goes on
    and keeps a playlist row under the whole address.  It does not fail
    with the invalid-reference error, which [extractPlaylistID] of
    package [main] returns for the same reference when [list=] is
    absent. *)
Theorem ProcessPlaylist_accepts_address_without_token :
  forall (env : Env) (dl : Downloader) (d : Database)
         (playlistURL playlistName : string) (callback : bool),
    Contains playlistURL "youtube.com" = true
    \/ Contains playlistURL "youtu.be" = true ->
    Contains playlistURL "list=" = false
    \/ (exists pre rest,
           playlistURL = pre ++ "list=" ++ rest
           /\ Contains pre "list=" = false
           /\ (rest = "" \/ (exists r, rest = String "&" r))) ->
    let r := ProcessPlaylist env dl d playlistURL playlistName callback in
    extractPlaylistID playlistURL = playlistURL
    /\ err r <> Some (ErrInvalidPlaylistURL playlistURL)
    /\ (driver_fails env (OpGetOrCreatePlaylist playlistURL) = false ->
        exists p, In p (playlists (db r))
                  /\ Playlist.YoutubeID p = playlistURL)
    /\ (Contains playlistURL "list=" = false ->
        main.extractPlaylistID playlistURL
        = ("", Some (ErrInvalidPlaylistURL playlistURL))).
Proof.
  intros env dl d playlistURL playlistName callback Hyt Hnone. cbv zeta.
  assert (Hne : playlistURL <> "").
  { destruct Hyt as [H|H]; (eapply Contains_nonempty; [|exact H]; discriminate). }
  assert (Hwhole : extractPlaylistID playlistURL = playlistURL).
  { destruct Hnone as [Hnone|[pre [rest [-> [Hpre Hrest]]]]].
    - unfold extractPlaylistID. rewrite Hnone.
      destruct (negb _ && negb _); reflexivity.
    - apply extractPlaylistID_empty_token; assumption. }
  destruct (ProcessPlaylist_invalid_reference env dl d playlistURL playlistName
                                              callback)
    as [Hexact [_ [_ [_ Hrow]]]].
  rewrite Hwhole in Hexact, Hrow.
  split; [exact Hwhole|]. split; [|split].
  - intros Herr. apply Hexact in Herr. contradiction.
  - intros Hdriver. exact (Hrow Hne Hdriver).
  - intros Hlist. unfold main.extractPlaylistID.
    rewrite (Split_short playlistURL "list=" ltac:(discriminate)), Hlist.
    reflexivity.
Qed.

(** C4 at the address of a single video: the pass takes the whole
    address as the playlist identifier. *)
Lemma video_address_is_taken_whole :
  let url := "https://www.youtube.com/watch?v=dQw4w9WgXcQ" in
  let r := ProcessPlaylist (Scenario.world (Some nil) (fun _ => false))
                           Scenario.dl NewDatabase url "Jazz" true in
  (extractPlaylistID url = url
   /\ err r <> Some (ErrInvalidPlaylistURL url)
   /\ main.extractPlaylistID url = ("", Some (ErrInvalidPlaylistURL url)))
  /\ err r = None
  /\ map Playlist.YoutubeID (playlists (db r)) = [url].
Proof.
  cbv zeta. split; [|split; reflexivity].
  destruct (ProcessPlaylist_accepts_address_without_token
              (Scenario.world (Some nil) (fun _ => false)) Scenario.dl NewDatabase
              "https://www.youtube.com/watch?v=dQw4w9WgXcQ" "Jazz" true
              (or_introl eq_refl) (or_introl eq_refl))
    as [Hwhole [Herr [_ Hmain]]].
  split; [exact Hwhole|]. split; [exact Herr|]. exact (Hmain eq_refl).
Defined.

End ReferenceFacts.
